(** * Message-response pipeline of the dating-app bot: a shallow embedding

  The development follows the Python sources:
  - [utils/data_manager.py]   the persisted reply ledger, the rejected set
                              and the conversation cache ([DataManager]);
  - [personality.py]          the completion-backed reply generator
                              ([MessageGenerator]);
  - [core/message_handler.py] the message pipeline ([MessageHandler]);
  - [personality/generator.py] the template generator the pipeline imports
                              ([TemplateGenerator]).

  A Python [str] is modelled by the Rocq string of its UTF-8 encoding: a
  character is one to four bytes, and no byte of one character is taken
  for a byte of another, so that searching, splitting and stripping on the
  bytes give what Python gives on the characters.  Python [int] is [Z], a
  number read from the configuration is a rational; a [dict] with string
  keys is a [gmap string _], a [set] of strings a [gset string].  File and
  network errors other than those of the completion backend and of the
  message sink are not modelled. *)

From Stdlib Require Import ZArith Ascii QArith.
From stdpp Require Import gmap strings list fin_maps sorting pretty.
Close Scope Q_scope.

(** ** Python string primitives used by the sources *)

Module PyStr.

Definition of_bytes (l : list nat) : string :=
  foldr (fun n s => String (ascii_of_nat n) s) EmptyString l.

(** The characters of which [str.isspace] holds, each by its UTF-8
    encoding: the code points 9 to 13 and 28 to 32, U+0085, U+00A0, U+1680,
    U+2000 to U+200A, U+2028, U+2029, U+202F, U+205F and U+3000.  They are
    the characters [str.split] and [str.strip] treat as whitespace. *)
Definition spaces : list string :=
  of_bytes <$>
    [ [9]; [10]; [11]; [12]; [13]; [28]; [29]; [30]; [31]; [32];
      [194; 133]; [194; 160]; [225; 154; 128];
      [226; 128; 128]; [226; 128; 129]; [226; 128; 130]; [226; 128; 131];
      [226; 128; 132]; [226; 128; 133]; [226; 128; 134]; [226; 128; 135];
      [226; 128; 136]; [226; 128; 137]; [226; 128; 138];
      [226; 128; 168]; [226; 128; 169]; [226; 128; 175];
      [226; 129; 159]; [227; 128; 128] ].

(** [s.startswith(p)] *)
Fixpoint startswith (p s : string) : bool :=
  match p with
  | EmptyString => true
  | String a p' =>
      match s with
      | EmptyString => false
      | String b s' => Ascii.eqb a b && startswith p' s'
      end
  end.

(** The number of bytes of the whitespace character [s] begins with, 0
    when it begins with none. *)
Definition space_len (s : string) : nat :=
  match List.find (fun w => startswith w s) spaces with
  | Some w => String.length w
  | None => 0
  end.

(** [s.lstrip()]; [skip] counts the bytes still to be dropped of the
    whitespace character being read. *)
Fixpoint lstrip_go (skip : nat) (s : string) : string :=
  match s with
  | EmptyString => EmptyString
  | String c s' =>
      match skip with
      | S k => lstrip_go k s'
      | 0 =>
          match space_len s with
          | 0 => s
          | S k => lstrip_go k s'
          end
      end
  end.

Definition lstrip (s : string) : string := lstrip_go 0 s.

(** Whitespace only: nothing is left of [s] once stripped. *)
Definition all_space (s : string) : bool := String.eqb (lstrip s) EmptyString.

(** [s.rstrip()]: what comes before the trailing whitespace. *)
Fixpoint rstrip (s : string) : string :=
  match s with
  | EmptyString => EmptyString
  | String c s' => if all_space s then EmptyString else String c (rstrip s')
  end.

(** [s.strip()] *)
Definition strip (s : string) : string := rstrip (lstrip s).

Definition flush (cur : string) : list string :=
  match cur with
  | EmptyString => []
  | _ => [cur]
  end.

(** [s.split()] with no separator: the maximal runs of characters other
    than whitespace, in order.  [cur] is the word being read, [skip] counts
    the bytes still to be dropped of the whitespace character being
    read. *)
Fixpoint split_aux (skip : nat) (cur : string) (s : string) : list string :=
  match s with
  | EmptyString => flush cur
  | String c s' =>
      match skip with
      | S k => split_aux k cur s'
      | 0 =>
          match space_len s with
          | 0 => split_aux 0 (cur +:+ String c EmptyString) s'
          | S k => flush cur ++ split_aux k EmptyString s'
          end
      end
  end.

Definition split (s : string) : list string := split_aux 0 EmptyString s.

(** [str.lower] on an ASCII character. *)
Definition lower_char (c : ascii) : ascii :=
  let n := nat_of_ascii c in
  if ((65 <=? n) && (n <=? 90))%nat then ascii_of_nat (n + 32) else c.

(** [s.lower()], as far as the ASCII characters of the result go.  Besides
    the letters A to Z two characters have an ASCII character in their
    lower-case form: U+212A (bytes 226 132 170) becomes [k], and U+0130
    (bytes 196 176) becomes [i] followed by U+0307 (bytes 204 135).  Every
    other character is copied, where [str.lower] puts one or more
    characters that are not ASCII; the sources only look for ASCII phrases
    in the result, and those are found at the same places in both. *)
Fixpoint lower (s : string) : string :=
  match s with
  | EmptyString => EmptyString
  | String c s1 =>
      if Ascii.eqb c "226" then
        match s1 with
        | String c1 (String c2 s3) =>
            if Ascii.eqb c1 "132" && Ascii.eqb c2 "170"
            then String "k" (lower s3)
            else String c (lower s1)
        | _ => String c (lower s1)
        end
      else if Ascii.eqb c "196" then
        match s1 with
        | String c1 s2 =>
            if Ascii.eqb c1 "176"
            then String "i" (String "204" (String "135" (lower s2)))
            else String c (lower s1)
        | EmptyString => String c (lower s1)
        end
      else String (lower_char c) (lower s1)
  end.

(** [sep.join(l)] *)
Fixpoint join (sep : string) (l : list string) : string :=
  match l with
  | [] => EmptyString
  | [w] => w
  | w :: l' => w +:+ sep +:+ join sep l'
  end.

(** [needle in hay] on strings. *)
Fixpoint contains (needle hay : string) : bool :=
  String.prefix needle hay
  || match hay with
     | EmptyString => false
     | String _ hay' => contains needle hay'
     end.

(** [s[-1]] when [s] is not empty: the last byte, which is an ASCII
    character exactly when the last character is that one. *)
Fixpoint last_char (s : string) : option ascii :=
  match s with
  | EmptyString => None
  | String c EmptyString => Some c
  | String _ s' => last_char s'
  end.

End PyStr.


(** ** Conversations as delivered by the conversation source

    A message and a match are JSON objects read with [dict.get]; a field
    that may be missing is an [option]. *)

Record Message : Type := mkMessage {
  role : option string;
  content : option string;
  timestamp : option string
}.

Record Match : Type := mkMatch {
  match_id : option string;
  name : option string;
  bio : option string;
  messages : list Message
}.

#[global] Instance Message_eq_dec : EqDecision Message.
Proof. solve_decision. Defined.

(** ** [utils/data_manager.py]: class [DataManager] *)

Module DataManager.

(** The three JSON files of the data directory; [None] is a file that does
    not exist. *)
Record Disk : Type := mkDisk {
  replied_file : option (gmap string string);
  rejected_file : option (list string);
  conversation_cache_file : option (gmap string (list Message))
}.

Record t : Type := mk {
  replied_messages : gmap string string;
  rejected_matches : gset string;
  conversation_cache : gmap string (list Message);
  disk : Disk
}.

Definition no_files : Disk := mkDisk None None None.

(** [_load_replied], [_load_rejected], [_load_conversation_cache] *)
Definition _load_replied (d : Disk) : gmap string string :=
  default ∅ (replied_file d).

Definition _load_rejected (d : Disk) : gset string :=
  default ∅ (list_to_set <$> rejected_file d).

Definition _load_conversation_cache (d : Disk) : gmap string (list Message) :=
  default ∅ (conversation_cache_file d).

(** [__init__] *)
Definition init (d : Disk) : t :=
  mk (_load_replied d) (_load_rejected d) (_load_conversation_cache d) d.

Definition has_replied_to (dm : t) (match_id message_time : string) : bool :=
  bool_decide (replied_messages dm !! match_id = Some message_time).

Definition has_ever_replied_to (dm : t) (match_id : string) : bool :=
  bool_decide (is_Some (replied_messages dm !! match_id)).

Definition mark_replied (dm : t) (match_id message_time : string) : t :=
  let replied := <[match_id := message_time]> (replied_messages dm) in
  mk replied (rejected_matches dm) (conversation_cache dm)
     (mkDisk (Some replied) (rejected_file (disk dm))
             (conversation_cache_file (disk dm))).

Definition is_rejected (dm : t) (match_id : string) : bool :=
  bool_decide (match_id ∈ rejected_matches dm).

Definition mark_rejected (dm : t) (match_id : string) : t :=
  let rejected := rejected_matches dm ∪ {[match_id]} in
  mk (replied_messages dm) rejected (conversation_cache dm)
     (mkDisk (replied_file (disk dm)) (Some (elements rejected))
             (conversation_cache_file (disk dm))).

Definition remove_rejected (dm : t) (match_id : string) : t :=
  let rejected := rejected_matches dm ∖ {[match_id]} in
  mk (replied_messages dm) rejected (conversation_cache dm)
     (mkDisk (replied_file (disk dm)) (Some (elements rejected))
             (conversation_cache_file (disk dm))).

(** [sorted(cache.keys())]: the keys in the lexicographic order of their
    characters, [String.le]. *)
Definition sorted_keys (cache : gmap string (list Message)) : list string :=
  merge_sort String.le (elements (dom cache)).

(** [for key in oldest: del cache[key]] *)
Definition del_all (oldest : list string) (cache : gmap string (list Message))
  : gmap string (list Message) :=
  foldl (fun c key => delete key c) cache oldest.

Definition cache_conversation (dm : t) (match_id : string)
    (messages : list Message) : t :=
  let cache := <[match_id := messages]> (conversation_cache dm) in
  let cache :=
    if decide (100 < size cache)
    then del_all (take 20 (sorted_keys cache)) cache
    else cache in
  mk (replied_messages dm) (rejected_matches dm) cache
     (mkDisk (replied_file (disk dm)) (rejected_file (disk dm)) (Some cache)).

Definition get_cached_conversation (dm : t) (match_id : string) : list Message :=
  default [] (conversation_cache dm !! match_id).

Definition clear_all_data (dm : t) : t :=
  mk ∅ ∅ ∅ (mkDisk (Some ∅) (Some []) (Some ∅)).

(** The states a data manager can be in: created in a data directory that
    holds no file yet, then driven through its methods, the process being
    restarted at any point on the files it left. *)
Inductive reachable : t -> Prop :=
| reach_init : reachable (init no_files)
| reach_restart dm : reachable dm -> reachable (init (disk dm))
| reach_mark_replied dm c ts : reachable dm -> reachable (mark_replied dm c ts)
| reach_mark_rejected dm c : reachable dm -> reachable (mark_rejected dm c)
| reach_remove_rejected dm c : reachable dm -> reachable (remove_rejected dm c)
| reach_cache dm c ms : reachable dm -> reachable (cache_conversation dm c ms)
| reach_clear dm : reachable dm -> reachable (clear_all_data dm).

End DataManager.

(** ** Outcomes of Python code that may raise *)

Inductive result (A : Type) : Type :=
| Ok (a : A)
| Raise.
Arguments Ok {A} a.
Arguments Raise {A}.

(** ** [config.py]: the personality table *)

Record Profile : Type := mkProfile {
  system_prompt : option string;
  modifier : option string;
  traits : list string
}.

Definition default_system_prompt : string :=
"Your name is Josh. You're 34, confident, British, 5'10, seductive, and you're responding on Tinder.
You're an expert pickup artist who utilizes PUA methods like push-pull. You live in Grimsby, you're flirty and funny with chill energy.
Your snapchat is Fruityfrogs and your whatsapp is +447879906540 - only share when the conversation is going well.
You drive a blue modified 2005 Subaru Impreza WRX, enjoy food (especially Italian), and go to the gym 3x/week.
You're a software developer who loves technology. You have a foot fetish (soles) and love seeing photos of them.
Keep replies short (1-2 sentences max), sexy, human, and confident. Use British slang occasionally.
NEVER mention being AI or bot. No asterisk actions like *smiles*. Stay in character always.
Current time: {current_time} on {current_date}.".

Definition default_profile : Profile :=
  mkProfile (Some default_system_prompt) None
    ["confident"; "british"; "flirty"; "funny"; "tech-savvy"].

Definition flirty_profile : Profile :=
  mkProfile None
    (Some "Be extra flirty and suggestive while keeping it classy. Use more cheeky banter.")
    ["confident"; "seductive"; "cheeky"; "playful"].

Definition PERSONALITIES : list (string * Profile) :=
  [ ("default", default_profile);
    ("flirty", flirty_profile);
    ("funny", mkProfile None
       (Some "Use humor and British wit to keep things light and entertaining. Make them laugh.")
       ["witty"; "sarcastic"; "playful"; "entertaining"]);
    ("gentle", mkProfile None
       (Some "Be warm and respectful, making them feel special. Show genuine interest.")
       ["sweet"; "kind"; "genuine"; "caring"]);
    ("dominant", mkProfile None
       (Some "Be more assertive and take charge of the conversation. Show leadership.")
       ["confident"; "assertive"; "leading"; "decisive"]);
    ("casual", mkProfile None
       (Some "Keep things very relaxed and laid back. No pressure, just fun conversation.")
       ["relaxed"; "easygoing"; "friendly"; "approachable"]) ].

(** [PERSONALITIES.get(key)] *)
Fixpoint personality_get (table : list (string * Profile)) (key : string)
  : option Profile :=
  match table with
  | [] => None
  | (k, p) :: table' => if String.eqb k key then Some p else personality_get table' key
  end.

(** ** [personality.py]: class [MessageGenerator] *)

Module MessageGenerator.

(** What one [requests.post] to the completion backend comes to:
    an exception (network error, timeout, error status, a body without the
    expected fields), or a completion text with the output token count when
    the body reports one. *)
Inductive Response : Type :=
| Failure
| Completion (text : string) (output_tokens : option Z).

(** The JSON object of the usage file: the two keys the tracker reads. *)
Record Usage : Type := mkUsage {
  total_tokens : option Z;
  by_model : option (gmap string Z)
}.

(** The usage file: missing, holding something [json.load] or the
    arithmetic on it rejects, or holding a usage object. *)
Inductive UsageFile : Type :=
| Absent
| Corrupt
| Stored (u : Usage).

(** What the generator reads from outside: the backend (by the number of
    requests made before, the system prompt and the messages posted), the
    raw draws of [random.choice], the clock of [datetime.now], and what
    [str.format] makes of a replacement field that asks for more than the
    value of an argument (see [format_go]). *)
Record Env : Type := mkEnv {
  backend : nat -> string -> list Message -> Response;
  choice : nat -> nat;
  current_date : string;
  current_time : string;
  format_field : string -> string -> result string
}.

(** What the generator changes: the requests posted so far (latest first),
    the usage file, the number of random draws, the [time.sleep] calls
    (latest first). *)
Record World : Type := mkWorld {
  requests : list (string * list Message);
  usage_file : UsageFile;
  draws : nat;
  slept : list Z
}.

Definition refusal_patterns : list string :=
  [ "i do not feel comfortable";
    "i'm sorry";
    "unable to";
    "cannot continue";
    "i do not actually have the ability";
    "i should have been more direct";
    "i do not engage in roleplay";
    "i'm not actually a real person";
    "i cannot send real messages";
    "i cannot make real phone calls";
    "i am an ai program";
    "as an ai";
    "language model" ].

(** The characters that end the name of the argument in a replacement
    field: an attribute or an index follows, or a conversion, or a format
    specification. *)
Definition ends_arg_name (c : ascii) : bool :=
  Ascii.eqb c "." || Ascii.eqb c "[" || Ascii.eqb c "!" || Ascii.eqb c ":".

Definition is_keyword (f : string) : bool :=
  String.eqb f "current_date" || String.eqb f "current_time".

(** [template.format(current_date=..., current_time=...)]: doubled braces
    are literal braces, a lone closing brace and a field left open raise;
    a field naming one of the two keywords is replaced by its value; a
    field whose argument is anything else raises (a lookup by position
    finds no positional argument, a lookup by name no such keyword).
    [field] is the name of the argument being read, when inside a field.
    Where the name of a keyword is followed by an attribute, an index, a
    conversion or a format specification, the result of formatting the
    rest of the template is [other name rest]: that part of [str.format]
    is the library's and is left open. *)
Fixpoint format_go (other : string -> string -> result string)
    (date time : string) (field : option string) (s : string)
  : result string :=
  match field with
  | None =>
      match s with
      | EmptyString => Ok EmptyString
      | String "{" (String "{" s') =>
          match format_go other date time None s' with
          | Ok r => Ok (String "{" r)
          | Raise => Raise
          end
      | String "{" s' => format_go other date time (Some EmptyString) s'
      | String "}" (String "}" s') =>
          match format_go other date time None s' with
          | Ok r => Ok (String "}" r)
          | Raise => Raise
          end
      | String "}" _ => Raise
      | String c s' =>
          match format_go other date time None s' with
          | Ok r => Ok (String c r)
          | Raise => Raise
          end
      end
  | Some f =>
      match s with
      | EmptyString => Raise
      | String "}" s' =>
          match format_go other date time None s' with
          | Ok r =>
              if String.eqb f "current_date" then Ok (date +:+ r)
              else if String.eqb f "current_time" then Ok (time +:+ r)
              else Raise
          | Raise => Raise
          end
      | String c s' =>
          if ends_arg_name c then
            if is_keyword f then other f s else Raise
          else format_go other date time (Some (f +:+ String c EmptyString)) s'
      end
  end.

Definition format (other : string -> string -> result string)
    (template date time : string) : result string :=
  format_go other date time None template.

(** The argument of [_render_time_aware_prompt] is a string or a profile. *)
Inductive Template : Type :=
| TStr (s : string)
| TDict (p : Profile).

Definition _render_time_aware_prompt (env : Env) (template : Template)
  : result string :=
  let template :=
    match template with
    | TDict p => default EmptyString (system_prompt p)
    | TStr s => s
    end in
  format (format_field env) template (current_date env) (current_time env).

(** [p.get("system_prompt", p)] *)
Definition prompt_or_profile (p : Profile) : Template :=
  match system_prompt p with
  | Some s => TStr s
  | None => TDict p
  end.

Definition media_words : list string :=
  ["gif"; "image"; "photo"; "picture"; "selfie"].

(** [l[-n:]] for [n > 0] *)
Definition last_n {A} (n : nat) (l : list A) : list A :=
  drop (length l - n) l.

Definition opener_prompt (name bio : string) : Message :=
  mkMessage (Some "user")
    (Some ("You matched with " +:+ name +:+ ". "
           +:+ (if String.eqb bio "" then "No bio provided." else "Their bio says: " +:+ bio)
           +:+ ". "
           +:+ "Write a flirty, engaging opening message that will get a response."))
    None.

Definition media_prompt (name : string) : Message :=
  mkMessage (Some "user")
    (Some (name +:+ " just sent a photo/GIF. Respond flirtatiously about it."))
    None.

(** The test on [messages[-1]]. *)
Definition mentions_media (m : Message) : bool :=
  existsb (fun word => PyStr.contains word (PyStr.lower (default "" (content m))))
          media_words.

(** [_build_messages] up to the media step: the recent history, and the
    opener prompt after it when it has at most two turns. *)
Definition history_messages (name bio : string) (chat_history : list Message)
  : list Message :=
  let messages := last_n 10 chat_history in
  if (length messages <=? 2)%nat
  then messages ++ [opener_prompt name bio]
  else messages.

Definition _build_messages (name bio : string) (chat_history : list Message)
  : list Message :=
  let messages := history_messages name bio chat_history in
  match last messages with
  | Some m => if mentions_media m then messages ++ [media_prompt name] else messages
  | None => messages
  end.

Definition _is_refusal (text : string) : bool :=
  let text_lower := PyStr.lower text in
  existsb (fun pattern => PyStr.contains pattern text_lower) refusal_patterns.

(** The regular expression [\*[^*]+\*].  [span_close n s] reads [s] after
    the opening asterisk and [n] further characters, none an asterisk, and
    gives the length of the whole match when one closes it. *)
Fixpoint span_close (n : nat) (s : string) : option nat :=
  match s with
  | EmptyString => None
  | String c s' =>
      if Ascii.eqb c "*"
      then match n with 0 => None | _ => Some (n + 2) end
      else span_close (S n) s'
  end.

(** The length of the match that starts at the head of [s], if any. *)
Definition match_action (s : string) : option nat :=
  match s with
  | String c s' => if Ascii.eqb c "*" then span_close 0 s' else None
  | EmptyString => None
  end.

(** [re.sub(r'\*[^*]+\*', '', s)]: the matches are taken leftmost first and
    do not overlap; [skip] counts the characters of the current match still
    to be dropped. *)
Fixpoint sub_actions (skip : nat) (s : string) : string :=
  match s with
  | EmptyString => EmptyString
  | String c s' =>
      match skip with
      | S k => sub_actions k s'
      | 0 =>
          match match_action s with
          | Some n => sub_actions (n - 1) s'
          | None => String c (sub_actions 0 s')
          end
      end
  end.

(** [text[-1] in '.!?'] *)
Definition ends_sentence (text : string) : bool :=
  match PyStr.last_char text with
  | Some c => Ascii.eqb c "." || Ascii.eqb c "!" || Ascii.eqb c "?"
  | None => false
  end.

Definition _sanitize_reply (text : string) : string :=
  let text := sub_actions 0 text in
  let text := PyStr.join " " (PyStr.split text) in
  let text :=
    if negb (String.eqb text "") && negb (ends_sentence text)
    then text +:+ "."
    else text in
  PyStr.strip text.

Definition fallbacks (name : string) : list string :=
  [ "Hey " +:+ name +:+ "! How's your evening going? ðŸ˜Š";
    "Well hello there " +:+ name +:+ " ðŸ˜‰ What brings you to Tinder?";
    name +:+ "! Love the vibe of your profile. What's been the highlight of your week?";
    "Hi " +:+ name +:+ "! You seem interesting. Tell me something random about yourself?";
    "Hey " +:+ name +:+ ", fancy a chat? What's your idea of a perfect Friday night?" ].

(** [random.choice(fallbacks)]: one draw decides the index. *)
Definition _generate_fallback (env : Env) (w : World) (name : string)
  : string * World :=
  let l := fallbacks name in
  (default EmptyString (l !! (choice env (draws w) mod length l)%nat),
   mkWorld (requests w) (usage_file w) (S (draws w)) (slept w)).

(** [_track_usage]: any exception is caught and logged, the file is then
    left as it was. *)
Definition _track_usage (f : UsageFile) (model : string) (tokens : Z) : UsageFile :=
  match f with
  | Corrupt => Corrupt
  | _ =>
      let usage := match f with Stored u => u | _ => mkUsage None None end in
      let total := (default 0 (total_tokens usage) + tokens)%Z in
      let models := default ∅ (by_model usage) in
      let models := <[model := (default 0 (models !! model) + tokens)%Z]> models in
      Stored (mkUsage (Some total) (Some models))
  end.

Definition model_name : string := "claude-3-5-sonnet-20241022".

(** [_call_claude]: post, read the completion, track the usage. *)
Definition _call_claude (env : Env) (w : World) (system_prompt : string)
    (messages : list Message) : result string * World :=
  let response := backend env (length (requests w)) system_prompt messages in
  let posted := (system_prompt, messages) :: requests w in
  match response with
  | Failure => (Raise, mkWorld posted (usage_file w) (draws w) (slept w))
  | Completion text output_tokens =>
      let reply := PyStr.strip text in
      let tokens :=
        default (Z.of_nat (length (PyStr.split reply))) output_tokens in
      (Ok reply,
       mkWorld posted (_track_usage (usage_file w) model_name tokens)
               (draws w) (slept w))
  end.

Definition max_retries : nat := 3.

(** The [try] block of one attempt.  It hands back the system prompt as
    well: a refusal replaces it, also for the attempts that follow. *)
Definition attempt (env : Env) (w : World) (system_prompt : string)
    (messages : list Message) (name : string)
  : result string * string * World :=
  match _call_claude env w system_prompt messages with
  | (Raise, w) => (Raise, system_prompt, w)
  | (Ok reply, w) =>
      if _is_refusal reply then
        match _render_time_aware_prompt env (prompt_or_profile flirty_profile) with
        | Raise => (Raise, system_prompt, w)
        | Ok system_prompt =>
            match _call_claude env w system_prompt messages with
            | (Raise, w) => (Raise, system_prompt, w)
            | (Ok reply, w) =>
                if _is_refusal reply then
                  let '(reply, w) := _generate_fallback env w name in
                  (Ok (_sanitize_reply reply), system_prompt, w)
                else (Ok (_sanitize_reply reply), system_prompt, w)
            end
        end
      else (Ok (_sanitize_reply reply), system_prompt, w)
  end.

Definition sleep (w : World) (seconds : Z) : World :=
  mkWorld (requests w) (usage_file w) (draws w) (seconds :: slept w).

(** [for attempt in range(max_retries)] *)
Fixpoint attempts (env : Env) (w : World) (system_prompt : string)
    (messages : list Message) (name : string) (range : list nat)
  : string * World :=
  match range with
  | [] => _generate_fallback env w name
  | n :: range' =>
      match attempt env w system_prompt messages name with
      | (Ok reply, _, w) => (reply, w)
      | (Raise, system_prompt, w) =>
          let w := if (n <? max_retries - 1)%nat then sleep w (2 ^ Z.of_nat n) else w in
          attempts env w system_prompt messages name range'
      end
  end.

Definition generate_reply (env : Env) (w : World) (name bio : string)
    (chat_history : list Message) (personality : string)
  : result string * World :=
  let prompt_template :=
    default default_profile (personality_get PERSONALITIES personality) in
  match _render_time_aware_prompt env (prompt_or_profile prompt_template) with
  | Raise => (Raise, w)
  | Ok system_prompt =>
      let messages := _build_messages name bio chat_history in
      let '(reply, w) :=
        attempts env w system_prompt messages name (seq 0 max_retries) in
      (Ok reply, w)
  end.

End MessageGenerator.

(** ** [core/message_handler.py]: class [MessageHandler] *)

Module MessageHandler.

(** The collaborators of the handler: the reply generator and the API
    client, each with a state of its own, the clock, and the draws of
    [random.uniform(-1, 1)], by the number of calls the handler has made
    before.  A call may raise. *)
Record Services : Type := mkServices {
  Gen : Type;
  Api : Type;
  generate_reply :
    Gen -> string -> string -> list Message -> string -> result string * Gen;
  send_message : Api -> option string -> string -> result bool * Api;
  now : nat -> string;
  uniform : nat -> Q
}.

(** The three options the handler reads, with their defaults applied:
    [config.get("personality", "default")],
    [config.get("auto_approve", False)] and
    [config.get("typing_delay", 3)].  The typing delay is whatever the
    configuration holds: a number, or [None] here for a value that the
    sum with the draw or [time.sleep] rejects. *)
Record Config : Type := mkConfig {
  personality : string;
  auto_approve : bool;
  typing_delay : option Q
}.

Record LogEntry : Type := mkLogEntry {
  log_match_id : option string;
  user_name : string;
  user_msg : string;
  bot_reply : string;
  log_timestamp : string;
  log_personality : string;
  auto : bool;
  sent : bool
}.

(** What a pass does, in order: calls of the generator, and calls of
    [_send_reply], which is given the id of the match and the message; each
    with the match it is for, a call of [_send_reply] with the outcome it
    reports.  The calls of the sink itself are for the sink to record. *)
Inductive Event : Type :=
| Generate (m : Match) (personality : string)
| Send (m : Match) (message : string) (success : bool).

Definition event_match (e : Event) : Match :=
  match e with
  | Generate m _ => m
  | Send m _ _ => m
  end.

Record t (sv : Services) : Type := mk {
  processed_messages : gset string;
  chat_log_file : list LogEntry;
  auto_approved_file : list LogEntry;
  generator : Gen sv;
  api_client : Api sv;
  events : list Event
}.
Arguments mk {sv}.
Arguments processed_messages {sv}.
Arguments chat_log_file {sv}.
Arguments auto_approved_file {sv}.
Arguments generator {sv}.
Arguments api_client {sv}.
Arguments events {sv}.

(** How an f-string prints a value read with [dict.get]. *)
Definition fmt (o : option string) : string := default "None" o.

(** [f"{match_id}_{msg_timestamp}"] *)
Definition make_msg_id (match_id : option string) (msg_timestamp : string) : string :=
  fmt match_id +:+ "_" +:+ msg_timestamp.

(** [_load_processed_messages]: one id per line of the chat log. *)
Definition _load_processed_messages (log : list LogEntry) : gset string :=
  list_to_set ((fun e => make_msg_id (log_match_id e) (log_timestamp e)) <$> log).

(** [__init__] *)
Definition init (sv : Services) (chat_log : list LogEntry)
    (auto_approved : list LogEntry) (g : Gen sv) (a : Api sv) : t sv :=
  mk (_load_processed_messages chat_log) chat_log auto_approved g a [].

(** [[m for m in messages if m.get("role") == "user"]] *)
Definition user_messages (messages : list Message) : list Message :=
  filter (fun m => role m = Some "user") messages.

(** The newest inbound message of a match. *)
Definition last_user_msg (m : Match) : option Message :=
  last (user_messages (messages m)).

(** The id under which the newest inbound message of a match is recorded. *)
Definition msg_id_of (m : Match) : option string :=
  (fun last => make_msg_id (match_id m) (default "" (timestamp last)))
    <$> last_user_msg m.

(** [time.sleep(typing_delay + random.uniform(-1, 1))]: the sum raises
    when the typing delay is no number, and [time.sleep] raises on a
    negative number.  (The sign of the floating-point sum is that of the
    sum of the two numbers.) *)
Definition typing_pause (typing_delay : option Q) (jitter : Q) : result unit :=
  match typing_delay with
  | Some delay => if Qle_bool 0 (delay + jitter) then Ok tt else Raise
  | None => Raise
  end.

(** [_send_reply]: the typing pause, then the call of the client.  An
    exception of either is caught and counts as a failed send; when the
    pause raises the client is not called.  [n] is the number of calls the
    handler has made before. *)
Definition _send_reply (sv : Services) (cfg : Config) (n : nat) (a : Api sv)
    (match_id : option string) (message : string) : bool * Api sv :=
  match typing_pause (typing_delay cfg) (uniform sv n) with
  | Raise => (false, a)
  | Ok _ =>
      match send_message sv a match_id message with
      | (Ok success, a) => (success, a)
      | (Raise, a) => (false, a)
      end
  end.

(** The body of the loop over the matches, for one match: the handler
    after it and the log entry appended to [processed], if any.  The two
    [continue]s on an empty message list and on an empty list of inbound
    messages are the one case [None]: a match without messages has no
    inbound message.  An exception of the generator leaves the [try] block
    before anything is recorded. *)
Definition process_match (sv : Services) (cfg : Config) (h : t sv) (m : Match)
  : t sv * option LogEntry :=
  let user_name := default "Unknown" (name m) in
  let user_bio := default "" (bio m) in
  match last_user_msg m with
  | None => (h, None)
  | Some last_user_msg =>
      let msg_content := default "" (content last_user_msg) in
      let msg_timestamp := default "" (timestamp last_user_msg) in
      let msg_id := make_msg_id (match_id m) msg_timestamp in
      if decide (msg_id ∈ processed_messages h) then (h, None)
      else
        let called := events h ++ [Generate m (personality cfg)] in
        match generate_reply sv (generator h) user_name user_bio (messages m)
                (personality cfg) with
        | (Raise, g) =>
            (mk (processed_messages h) (chat_log_file h) (auto_approved_file h)
                g (api_client h) called, None)
        | (Ok bot_reply, g) =>
            let log_entry success :=
              mkLogEntry (match_id m) user_name msg_content bot_reply
                (now sv (length (chat_log_file h))) (personality cfg)
                (auto_approve cfg) success in
            let '(success, a, called) :=
              if auto_approve cfg then
                let '(success, a) :=
                  _send_reply sv cfg (length (events h)) (api_client h)
                    (match_id m) bot_reply in
                (success, a, called ++ [Send m bot_reply success])
              else (false, api_client h, called) in
            (mk ({[msg_id]} ∪ processed_messages h)
                (chat_log_file h ++ [log_entry success])
                (if success
                 then auto_approved_file h ++ [log_entry success]
                 else auto_approved_file h)
                g a called,
             Some (log_entry success))
        end
  end.

(** [for match in matches] *)
Fixpoint process_matches (sv : Services) (cfg : Config) (h : t sv)
    (matches : list Match) : t sv * list LogEntry :=
  match matches with
  | [] => (h, [])
  | m :: matches' =>
      let '(h, entry) := process_match sv cfg h m in
      let '(h, processed) := process_matches sv cfg h matches' in
      (h, option_list entry ++ processed)
  end.

(** [process_new_messages], on the matches the API client returned. *)
Definition process_new_messages (sv : Services) (cfg : Config) (h : t sv)
    (matches : list Match) : t sv * list LogEntry :=
  process_matches sv cfg h matches.

(** The events one match adds, those a pass adds, and the sends among
    them. *)
Definition step_events (sv : Services) (cfg : Config) (h : t sv) (m : Match)
  : list Event :=
  drop (length (events h)) (events (process_match sv cfg h m).1).

Definition is_send (e : Event) : bool :=
  match e with Send _ _ _ => true | Generate _ _ => false end.

Definition pass_events (sv : Services) (cfg : Config) (h : t sv)
    (matches : list Match) : list Event :=
  drop (length (events h)) (events (process_new_messages sv cfg h matches).1).

Definition pass_sends (sv : Services) (cfg : Config) (h : t sv)
    (matches : list Match) : list Event :=
  filter (fun e => is_send e = true) (pass_events sv cfg h matches).

(** [l[:count]]: a negative count leaves that many elements out at the
    end. *)
Definition py_take {A} (count : Z) (l : list A) : list A :=
  if (0 <=? count)%Z
  then take (Z.to_nat count) l
  else take (Z.to_nat (Z.of_nat (length l) + count)) l.

(** The matches [send_to_unmatched] writes to: the first [count] of those
    without any message. *)
Definition unmatched (count : Z) (matches : list Match) : list Match :=
  py_take count (filter (fun m => messages m = []) matches).

(** The body of the loop of [send_to_unmatched], for one match: the
    handler, and the counters [sent] and [failed].  The opener comes from
    the generator's [generate_opener], given the name, the bio and the
    personality; an exception of it counts as a failure. *)
Definition unmatched_step (sv : Services)
    (generate_opener : Gen sv -> string -> string -> string -> result string * Gen sv)
    (cfg : Config) (acc : t sv * (nat * nat)) (m : Match) : t sv * (nat * nat) :=
  let '(h, (sent, failed)) := acc in
  let called := events h ++ [Generate m (personality cfg)] in
  match generate_opener (generator h) (default "Unknown" (name m))
          (default "" (bio m)) (personality cfg) with
  | (Raise, g) =>
      (mk (processed_messages h) (chat_log_file h) (auto_approved_file h)
          g (api_client h) called, (sent, S failed))
  | (Ok opener, g) =>
      let '(success, a) :=
        _send_reply sv cfg (length (events h)) (api_client h) (match_id m) opener in
      (mk (processed_messages h) (chat_log_file h) (auto_approved_file h)
          g a (called ++ [Send m opener success]),
       if success then (S sent, failed) else (sent, S failed))
  end.

(** [send_to_unmatched], on what the API client returned for the matches
    (an exception of it ends the call with both counters at zero): the
    handler and the counters [sent] and [failed]; [total] is their sum. *)
Definition send_to_unmatched (sv : Services)
    (generate_opener : Gen sv -> string -> string -> string -> result string * Gen sv)
    (cfg : Config) (h : t sv) (count : Z) (matches : result (list Match))
  : t sv * (nat * nat) :=
  match matches with
  | Raise => (h, (0, 0))
  | Ok matches =>
      foldl (unmatched_step sv generate_opener cfg) (h, (0, 0))
            (unmatched count matches)
  end.

End MessageHandler.

(** ** [personality/generator.py]: the template [MessageGenerator] *)

Module TemplateGenerator.

(** The raw draws of [random.choice], by the number of draws made before;
    the state of the generator is that number. *)
Record Env : Type := mkEnv {
  choice : nat -> nat
}.

(** [random.choice(l)]: an empty list raises. *)
Definition random_choice (env : Env) (draws : nat) (l : list string)
  : result string * nat :=
  match l !! (choice env draws mod length l)%nat with
  | Some x => (Ok x, S draws)
  | None => (Raise, S draws)
  end.

(** The loop over [reversed(chat_history)]: the content of the first
    message from the user, the empty string when there is none. *)
Fixpoint first_user_content (msgs : list Message) : string :=
  match msgs with
  | [] => EmptyString
  | m :: msgs' =>
      if decide (role m = Some "user")
      then default EmptyString (content m)
      else first_user_content msgs'
  end.

(** The list [responses] of each personality function. *)
Definition _default_personality (name last_msg : string) : list string :=
  if PyStr.contains "?" last_msg then
    if PyStr.contains "how are you" (PyStr.lower last_msg)
       || PyStr.contains "how's" (PyStr.lower last_msg)
    then
      [ "I'm doing great, thanks for asking! How about you?";
        "Pretty good! Just enjoying the day. What about yourself?";
        "Can't complain! How's your day been?" ]
    else if PyStr.contains "what" (PyStr.lower last_msg) then
      [ "That's a great question! I'd love to know more about your thoughts on it too";
        "Interesting question! What made you think of that?";
        "Good question! I think it depends on the perspective" ]
    else
      [ "That's interesting! Tell me more";
        "I'd love to hear your thoughts on that";
        "Great question! What do you think?" ]
  else
    [ "That's really interesting, " +:+ name +:+ "! Tell me more";
      "I love that! What else are you into?";
      "That sounds amazing! How did you get into that?";
      "Wow, that's cool! I'd love to hear more about it" ].

Definition _flirty_personality (name last_msg : string) : list string :=
  if PyStr.contains "?" last_msg then
    [ "Hmm, great question " +:+ name +:+ "! But first, I have to say you have amazing energy 😊";
      "I could answer that, but I'm more interested in getting to know you better 😉";
      "Good question! You're pretty intriguing yourself, " +:+ name +:+ " ✨" ]
  else
    [ "You're really something special, " +:+ name +:+ " 😍";
      "I have to admit, you've got my full attention now 😊";
      "There's something about you that's just... captivating ✨";
      "You're making me smile over here! 😄" ].

Definition _funny_personality (name last_msg : string) : list string :=
  if PyStr.contains "?" last_msg then
    [ "Is this a pop quiz? Because I didn't study! 😅";
      "Great question, " +:+ name +:+ "! I'll trade you an answer for your best dad joke";
      "Hmm, let me consult my magic 8-ball... it says 'ask again later' 🎱" ]
  else
    [ "Well, this conversation just got 100% more interesting! 🎉";
      "Plot twist: " +:+ name +:+ " just became my favorite person to chat with today";
      "I'm giving this message a solid 10/10. Would read again! 📖";
      "This is better than my morning coffee, and that's saying something! ☕" ].

Definition _gentle_personality (name last_msg : string) : list string :=
  if PyStr.contains "?" last_msg then
    [ "That's such a thoughtful question, " +:+ name +:+ ". I really appreciate your curiosity";
      "What a wonderful thing to ask about. I'd love to explore that with you";
      "You ask such interesting questions, " +:+ name +:+ ". It really makes me think" ]
  else
    [ "Thank you for sharing that, " +:+ name +:+ ". It means a lot";
      "I really appreciate you opening up like that 🌸";
      "That's beautiful, " +:+ name +:+ ". You have such a wonderful perspective";
      "Your message really brightened my day. Thank you for that 😊" ].

Definition _intellectual_personality (name last_msg : string) : list string :=
  if PyStr.contains "?" last_msg then
    [ "Fascinating question, " +:+ name +:+ ". From a philosophical standpoint...";
      "That's quite thought-provoking. Have you considered the implications?";
      "An excellent inquiry, " +:+ name +:+ ". Let's explore this together" ]
  else
    [ "Your perspective is quite intriguing, " +:+ name +:+ ". I'd love to delve deeper";
      "That's a remarkably insightful observation. What led you to that conclusion?";
      "You raise an excellent point, " +:+ name +:+ ". The nuances here are fascinating" ].

(** [self.personalities.get(personality, self._default_personality)] *)
Definition personalities (personality : string) : string -> string -> list string :=
  if String.eqb personality "default" then _default_personality
  else if String.eqb personality "flirty" then _flirty_personality
  else if String.eqb personality "funny" then _funny_personality
  else if String.eqb personality "gentle" then _gentle_personality
  else if String.eqb personality "intellectual" then _intellectual_personality
  else _default_personality.

Definition generate_reply (env : Env) (draws : nat) (name bio : string)
    (chat_history : list Message) (personality : string) : result string * nat :=
  let last_msg := first_user_content (rev chat_history) in
  random_choice env draws (personalities personality name last_msg).

(** The table [openers] of [generate_opener], the default list with the
    openers the bio adds to it. *)
Definition default_openers (name bio : string) : list string :=
  [ "Hey " +:+ name +:+ "! How's your day going?";
    "Hi " +:+ name +:+ "! Nice to match with you 😊";
    "Hey there " +:+ name +:+ "! What are you up to today?" ]
  ++ (if PyStr.contains "coffee" (PyStr.lower bio)
      then ["Hey " +:+ name +:+ "! I see you're into coffee - what's your go-to order? ☕"]
      else [])
  ++ (if PyStr.contains "travel" (PyStr.lower bio)
      then ["Hi " +:+ name +:+ "! Where's your favorite place you've traveled to?"]
      else [])
  ++ (if PyStr.contains "dog" (PyStr.lower bio) || PyStr.contains "cat" (PyStr.lower bio)
      then ["Hey " +:+ name +:+ "! Your pet is adorable! What's their name? 🐾"]
      else []).

Definition openers (name bio personality : string) : list string :=
  if String.eqb personality "default" then default_openers name bio
  else if String.eqb personality "flirty" then
    [ "Hey " +:+ name +:+ ", you caught my eye! 😍";
      "Well hello there " +:+ name +:+ " 😉";
      "Hi " +:+ name +:+ "! Your smile is absolutely captivating ✨" ]
  else if String.eqb personality "funny" then
    [ "Hey " +:+ name +:+ "! On a scale of 1-10, how's your day? I'm at a solid 7.5 😄";
      "Hi " +:+ name +:+ "! Quick question: pineapple on pizza - yes or no? 🍕";
      "Hey " +:+ name +:+ "! I was going to use a pickup line, but I figured just saying hi might work better 😅" ]
  else if String.eqb personality "gentle" then
    [ "Hi " +:+ name +:+ ", hope you're having a lovely day 🌸";
      "Hello " +:+ name +:+ "! Your profile really resonated with me";
      "Hey " +:+ name +:+ ", would love to get to know you better 😊" ]
  else default_openers name bio.

Definition generate_opener (env : Env) (draws : nat) (name bio personality : string)
  : result string * nat :=
  random_choice env draws (openers name bio personality).

End TemplateGenerator.

(** ** Vocabulary of the properties *)

(** What [DataManager.cache_conversation] maintains, in memory and in the
    cache file. *)
Definition cache_bounded (dm : DataManager.t) : Prop :=
  size (DataManager.conversation_cache dm) <= 100
  /\ size (DataManager._load_conversation_cache (DataManager.disk dm)) <= 100.

(** Texts without an asterisk. *)
Fixpoint star_free (s : string) : bool :=
  match s with
  | EmptyString => true
  | String c s' => negb (Ascii.eqb c "*") && star_free s'
  end.

(** Texts without whitespace: no whitespace character begins anywhere in
    the text. *)
Fixpoint no_space (s : string) : bool :=
  match s with
  | EmptyString => true
  | String c s' => (PyStr.space_len s =? 0)%nat && no_space s'
  end.

(** The same for a text [cur] that is followed by [s]. *)
Fixpoint plain_before (s cur : string) : bool :=
  match cur with
  | EmptyString => true
  | String c cur' => (PyStr.space_len (cur +:+ s) =? 0)%nat && plain_before s cur'
  end.

(** A word: not empty, no whitespace. *)
Definition is_word (w : string) : Prop := w <> EmptyString /\ no_space w = true.

(** Whitespace only, as a sequence of whitespace characters. *)
Inductive blank : string -> Prop :=
| blank_nil : blank EmptyString
| blank_cons w s : w ∈ PyStr.spaces -> blank s -> blank (w +:+ s).

(** The bytes 128 to 191 are those that continue a character in UTF-8; a
    text begins a character when it does not begin with one of them.  The
    ASCII characters other than whitespace are bytes of no other
    character. *)
Definition continuation (c : ascii) : bool :=
  let n := nat_of_ascii c in ((128 <=? n) && (n <? 192))%nat.

Definition starts_char (s : string) : bool :=
  match s with
  | EmptyString => true
  | String c _ => negb (continuation c)
  end.

Definition solid (c : ascii) : bool :=
  let n := nat_of_ascii c in
  ((n <? 128)
   && negb (((9 <=? n) && (n <=? 13)) || ((28 <=? n) && (n <=? 32))))%nat.

Fixpoint all_bytes (P : ascii -> bool) (s : string) : bool :=
  match s with
  | EmptyString => true
  | String c s' => P c && all_bytes P s'
  end.

(** Texts of ASCII characters only. *)
Definition ascii_text (s : string) : bool :=
  all_bytes (fun c => (nat_of_ascii c <? 128)%nat) s.

Fixpoint some_byte (P : ascii -> bool) (s : string) : bool :=
  match s with
  | EmptyString => false
  | String c s' => P c || some_byte P s'
  end.

(** A reply laid out as plain text and stage directions: a stage direction
    [Action a] stands for the span made of an asterisk, [a] and an
    asterisk. *)
Inductive Piece : Type :=
| Plain (s : string)
| Action (a : string).

Fixpoint render (pieces : list Piece) : string :=
  match pieces with
  | [] => EmptyString
  | Plain s :: pieces' => s +:+ render pieces'
  | Action a :: pieces' => "*" +:+ a +:+ "*" +:+ render pieces'
  end.

Fixpoint plain_text (pieces : list Piece) : string :=
  match pieces with
  | [] => EmptyString
  | Plain s :: pieces' => s +:+ plain_text pieces'
  | Action _ :: pieces' => plain_text pieces'
  end.

(** No asterisk inside a piece, and no empty stage direction. *)
Fixpoint well_formed (pieces : list Piece) : bool :=
  match pieces with
  | [] => true
  | Plain s :: pieces' => star_free s && well_formed pieces'
  | Action a :: pieces' =>
      star_free a && negb (String.eqb a EmptyString) && well_formed pieces'
  end.

(** Whitespace reduced to single spaces between words: every whitespace
    character is a space, none is first, last or next to another one.
    [after_space] tells that the previous character was a space, or that
    there was none. *)
Fixpoint spaced_ok (after_space : bool) (s : string) : bool :=
  match s with
  | EmptyString => negb after_space
  | String c s' =>
      match PyStr.space_len s with
      | 0 => spaced_ok false s'
      | _ => Ascii.eqb c " " && negb after_space && spaced_ok true s'
      end
  end.

Definition single_spaced (s : string) : bool :=
  match s with
  | EmptyString => true
  | _ => spaced_ok true s
  end.

(** The last step of the sanitization on a text already cleaned. *)
Definition with_period (text : string) : string :=
  if negb (String.eqb text EmptyString) && negb (MessageGenerator.ends_sentence text)
  then text +:+ "."
  else text.

(** What the usage file records: the total and the count of one model,
    zero where the key or the file is missing. *)
Definition usage_total (f : MessageGenerator.UsageFile) : Z :=
  match f with
  | MessageGenerator.Stored u => default 0%Z (MessageGenerator.total_tokens u)
  | _ => 0%Z
  end.

Definition usage_of_model (f : MessageGenerator.UsageFile) (model : string) : Z :=
  match f with
  | MessageGenerator.Stored u =>
      default 0%Z (default ∅ (MessageGenerator.by_model u) !! model)
  | _ => 0%Z
  end.

(** The usage states: no file yet, or a file holding a usage object. *)
Definition is_usage_state (f : MessageGenerator.UsageFile) : bool :=
  match f with
  | MessageGenerator.Corrupt => false
  | _ => true
  end.

(** The most recent inbound turn of a history. *)
Definition latest_inbound (history : list Message) : option Message :=
  last (filter (fun m => role m = Some "user") history).

(** The media instruction was appended to the model input. *)
Definition media_appended (name bio : string) (history : list Message) : bool :=
  bool_decide (MessageGenerator._build_messages name bio history
               = MessageGenerator.history_messages name bio history
                 ++ [MessageGenerator.media_prompt name]).

(** A phrase that starts and ends with an ASCII character other than
    whitespace. *)
Definition tight (p : string) : bool :=
  match p with
  | EmptyString => false
  | String c _ =>
      solid c
      && match PyStr.last_char p with
         | Some c' => solid c'
         | None => false
         end
  end.

(** The answer of the backend to the request posted last. *)
Definition last_answer (env : MessageGenerator.Env) (w : MessageGenerator.World)
  : option MessageGenerator.Response :=
  match MessageGenerator.requests w with
  | (system_prompt, messages) :: earlier =>
      Some (MessageGenerator.backend env (length earlier) system_prompt messages)
  | [] => None
  end.

(** What the generator returns, by the answer of the backend to the last
    request it posted: a completion that is no refusal sanitized, a
    sanitized fallback reply after a refusal, a fallback reply after an
    error. *)
Definition reply_of_answer (name : string) (answer : MessageGenerator.Response)
    (reply : string) : Prop :=
  match answer with
  | MessageGenerator.Completion text _ =>
      if MessageGenerator._is_refusal text
      then exists fallback,
             fallback ∈ MessageGenerator.fallbacks name
             /\ reply = MessageGenerator._sanitize_reply fallback
      else reply = MessageGenerator._sanitize_reply text
  | MessageGenerator.Failure => reply ∈ MessageGenerator.fallbacks name
  end.

(** Every request to the backend raises. *)
Definition backend_down (env : MessageGenerator.Env) : Prop :=
  forall n system_prompt messages,
    MessageGenerator.backend env n system_prompt messages
    = MessageGenerator.Failure.

(** The conversation [c] of the rejected set is looked up under. *)
Definition conversation_id (m : Match) : string :=
  MessageHandler.fmt (match_id m).

(** The generator returns a reply whatever it is asked, and the sink
    reports a delivery whatever it is given. *)
Definition generator_returns (sv : MessageHandler.Services) : Prop :=
  forall g name bio history personality,
    exists reply, (MessageHandler.generate_reply sv g name bio history personality).1
                  = Ok reply.

Definition sink_succeeds (sv : MessageHandler.Services) : Prop :=
  forall a match_id message,
    (MessageHandler.send_message sv a match_id message).1 = Ok true.

(** The handler wired to the completion-backed generator and to a sink that
    reports the same outcome for every message. *)
Definition completion_services (env : MessageGenerator.Env) (delivered : bool)
  : MessageHandler.Services :=
  MessageHandler.mkServices MessageGenerator.World unit
    (fun wd name bio history personality =>
       MessageGenerator.generate_reply env wd name bio history personality)
    (fun a _ _ => (Ok delivered, a))
    (fun _ => "2026-01-01T00:00:00+00:00")
    (fun _ => 0%Q).

(** A backend that always completes with the same text, a fresh handler on
    it, and a match [C1] with one inbound message. *)
Definition steady_env (text : string) : MessageGenerator.Env :=
  MessageGenerator.mkEnv (fun _ _ _ => MessageGenerator.Completion text None)
    (fun _ => 0) "January 01, 2026" "12:00" (fun _ _ => Raise).

Definition fresh_handler (env : MessageGenerator.Env) (delivered : bool)
  : MessageHandler.t (completion_services env delivered) :=
  MessageHandler.init (completion_services env delivered) [] []
    (MessageGenerator.mkWorld [] MessageGenerator.Absent 0 []) tt.

Definition match_C1 : Match :=
  mkMatch (Some "C1") (Some "Ann") None
    [mkMessage (Some "user") (Some "hey!") (Some "T1")].

Definition auto_config : MessageHandler.Config :=
  MessageHandler.mkConfig "default" true (Some (3 # 1)%Q).

(** The draws of [random.uniform(-1, 1)] lie between -1 and 1. *)
Definition uniform_in_range (sv : MessageHandler.Services) : Prop :=
  forall n, (-(1) <= MessageHandler.uniform sv n <= 1)%Q.

(** A sink that keeps what it is called with: its state is that of the
    client together with the list of the calls made, each the id of the
    match and the message; and the calls a handler on it has made. *)
Definition recording (sv : MessageHandler.Services) : MessageHandler.Services :=
  MessageHandler.mkServices (MessageHandler.Gen sv)
    (MessageHandler.Api sv * list (option string * string))
    (MessageHandler.generate_reply sv)
    (fun a match_id message =>
       let '(outcome, a') := MessageHandler.send_message sv a.1 match_id message in
       (outcome, (a', a.2 ++ [(match_id, message)])))
    (MessageHandler.now sv)
    (MessageHandler.uniform sv).

Definition received {sv : MessageHandler.Services}
    (h : MessageHandler.t (recording sv)) : list (option string * string) :=
  (MessageHandler.api_client h).2.

(** The services with other draws of [random.uniform]. *)
Definition with_uniform (sv : MessageHandler.Services) (draw : nat -> Q)
  : MessageHandler.Services :=
  MessageHandler.mkServices (MessageHandler.Gen sv) (MessageHandler.Api sv)
    (MessageHandler.generate_reply sv) (MessageHandler.send_message sv)
    (MessageHandler.now sv) draw.

(** A data manager that has cached a hundred conversations, under the keys
    ["0"] to ["99"]. *)
Definition full_cache : DataManager.t :=
  foldr (fun n dm => DataManager.cache_conversation dm (pretty n) [])
        (DataManager.init DataManager.no_files) (seq 0 100).

(** The memory of a data manager is what a restart on its files loads. *)
Definition synced (dm : DataManager.t) : Prop :=
  DataManager.replied_messages dm = DataManager._load_replied (DataManager.disk dm)
  /\ DataManager.rejected_matches dm = DataManager._load_rejected (DataManager.disk dm)
  /\ DataManager.conversation_cache dm
     = DataManager._load_conversation_cache (DataManager.disk dm).

(** Templates without a brace. *)
Fixpoint brace_free (s : string) : bool :=
  match s with
  | EmptyString => true
  | String c s' =>
      negb (Ascii.eqb c "{") && negb (Ascii.eqb c "}") && brace_free s'
  end.

(** The name of the argument of a replacement field: the text of the field
    up to the first character that ends the name. *)
Fixpoint arg_name (f : string) : string :=
  match f with
  | EmptyString => EmptyString
  | String c f' =>
      if MessageGenerator.ends_arg_name c then EmptyString
      else String c (arg_name f')
  end.

(** The sum of the counts of all models in the usage file. *)
Definition usage_sum (f : MessageGenerator.UsageFile) : Z :=
  match f with
  | MessageGenerator.Stored u =>
      map_fold (fun _ v acc => (v + acc)%Z) 0%Z
               (default ∅ (MessageGenerator.by_model u))
  | _ => 0%Z
  end.

(** The tokens [_call_claude] records for a completion: the count the
    backend reports, or else the number of words of the text. *)
Definition tokens_of (text : string) (output_tokens : option Z) : Z :=
  default (Z.of_nat (length (PyStr.split text))) output_tokens.

(** The ids of the messages the sink was called for, in order. *)
Definition sent_ids (evs : list MessageHandler.Event) : list string :=
  omap (fun e => match e with
                 | MessageHandler.Send m _ _ => MessageHandler.msg_id_of m
                 | MessageHandler.Generate _ _ => None
                 end) evs.

(** The states of a handler: created on a chat log, then driven through
    passes and rounds of openers, under any configuration and on any
    matches. *)
Inductive handler_reachable (sv : MessageHandler.Services)
  : MessageHandler.t sv -> Prop :=
| hreach_init chat_log auto_approved g a :
    handler_reachable sv (MessageHandler.init sv chat_log auto_approved g a)
| hreach_pass h cfg matches :
    handler_reachable sv h ->
    handler_reachable sv (MessageHandler.process_new_messages sv cfg h matches).1
| hreach_openers h generate_opener cfg count matches :
    handler_reachable sv h ->
    handler_reachable sv
      (MessageHandler.send_to_unmatched sv generate_opener cfg h count matches).1.

(** The opener generator returns an opener whatever it is asked. *)
Definition opener_returns (sv : MessageHandler.Services)
    (generate_opener :
       MessageHandler.Gen sv -> string -> string -> string
       -> result string * MessageHandler.Gen sv) : Prop :=
  forall g name bio personality,
    exists opener, (generate_opener g name bio personality).1 = Ok opener.

(** What a handler keeps about the sink: it was called at most once for
    each message id, and every id it was called for is recorded. *)
Definition sends_recorded {sv : MessageHandler.Services}
    (h : MessageHandler.t sv) : Prop :=
  NoDup (sent_ids (MessageHandler.events h))
  /\ forall id, id ∈ sent_ids (MessageHandler.events h) ->
                id ∈ MessageHandler.processed_messages h.

(** A generator that raises on its first call and returns afterwards, its
    state being the number of calls made; and a handler on it. *)
Definition flaky_services : MessageHandler.Services :=
  MessageHandler.mkServices nat unit
    (fun calls _ _ _ _ =>
       match calls with
       | 0 => (Raise, 1)
       | S _ => (Ok "Hey there.", S calls)
       end)
    (fun a _ _ => (Ok true, a))
    (fun _ => "2026-01-01T00:00:00+00:00")
    (fun _ => 0%Q).

Definition flaky_handler : MessageHandler.t flaky_services :=
  MessageHandler.init flaky_services [] [] 0 tt.

(** The handler wired to the template generator, as
    [core/message_handler.py] imports it, and to a sink that reports the
    same outcome for every message. *)
Definition template_services (env : TemplateGenerator.Env) (delivered : bool)
  : MessageHandler.Services :=
  MessageHandler.mkServices nat unit
    (fun draws name bio history personality =>
       TemplateGenerator.generate_reply env draws name bio history personality)
    (fun a _ _ => (Ok delivered, a))
    (fun _ => "2026-01-01T00:00:00+00:00")
    (fun _ => 0%Q).

(** * Properties *)

(** ** The reply ledger and the conversation cache *)

Section DataManagerFacts.
Import DataManager.
Implicit Types (dm : DataManager.t) (cache : gmap string (list Message)).

Lemma has_replied_to_spec dm c ts :
  has_replied_to dm c ts = true <-> replied_messages dm !! c = Some ts.
Proof. unfold has_replied_to. apply bool_decide_eq_true. Qed.

Lemma replied_after_mark dm c ts :
  replied_messages (mark_replied dm c ts) !! c = Some ts.
Proof. simpl. apply lookup_insert_eq. Qed.

(** C5: after [mark_replied dm c ts] the query [has_replied_to _ c ts'] is
    true exactly when [ts' = ts], and marking the same message twice leaves
    the query for it true. *)
Theorem mark_replied_then_has_replied dm c ts ts' :
  (has_replied_to (mark_replied dm c ts) c ts' = true <-> ts' = ts)
  /\ has_replied_to (mark_replied (mark_replied dm c ts) c ts) c ts = true.
Proof.
  split.
  - rewrite has_replied_to_spec, replied_after_mark. split; congruence.
  - apply has_replied_to_spec, replied_after_mark.
Qed.

Lemma del_all_lookup oldest cache k :
  del_all oldest cache !! k = if decide (k ∈ oldest) then None else cache !! k.
Proof.
  unfold del_all. revert cache.
  induction oldest as [|key oldest IH]; intros cache.
  - destruct (decide (k ∈ [])) as [Hin|_]; [| done].
    by apply not_elem_of_nil in Hin.
  - change (foldl (fun c key => delete key c) (delete key cache) oldest !! k
            = if decide (k ∈ key :: oldest) then None else cache !! k).
    rewrite IH. destruct (decide (k = key)) as [->|Hne].
    + rewrite lookup_delete_eq.
      destruct (decide (key ∈ key :: oldest)) as [_|Hnin].
      * by case_decide.
      * exfalso. apply Hnin, list_elem_of_here.
    + rewrite lookup_delete_ne by done.
      destruct (decide (k ∈ oldest)) as [Hin|Hnin];
        destruct (decide (k ∈ key :: oldest)) as [Hin'|Hnin']; try done.
      * exfalso. apply Hnin'. by apply list_elem_of_further.
      * apply elem_of_cons in Hin' as [?|?]; done.
Qed.

Lemma del_all_filter oldest cache :
  del_all oldest cache = filter (fun kv => kv.1 ∉ oldest) cache.
Proof.
  apply map_eq; intros k. rewrite del_all_lookup.
  destruct (decide (k ∈ oldest)) as [Hin|Hnin].
  - symmetry. apply map_lookup_filter_None. right. intros v _ Hk. by apply Hk.
  - destruct (cache !! k) as [v|] eqn:Hk.
    + symmetry. by apply map_lookup_filter_Some.
    + symmetry. apply map_lookup_filter_None. by left.
Qed.

Lemma del_all_size oldest cache :
  NoDup oldest -> (forall k, k ∈ oldest -> k ∈ dom cache) ->
  size (del_all oldest cache) = size cache - length oldest.
Proof.
  unfold del_all. revert cache.
  induction oldest as [|key oldest IH]; intros cache Hnd Hin; simpl.
  - lia.
  - apply NoDup_cons in Hnd as [Hkey Hnd].
    assert (Hk : is_Some (cache !! key)).
    { apply elem_of_dom, Hin, list_elem_of_here. }
    rewrite IH; [| done |].
    + rewrite map_size_delete_Some by done. lia.
    + intros k Hk'. rewrite dom_delete. apply elem_of_difference. split.
      * apply Hin. by apply list_elem_of_further.
      * intros ->%elem_of_singleton. done.
Qed.

Lemma sorted_keys_perm cache : sorted_keys cache ≡ₚ elements (dom cache).
Proof. apply merge_sort_Permutation. Qed.

Lemma sorted_keys_elem cache k : k ∈ sorted_keys cache <-> k ∈ dom cache.
Proof. rewrite sorted_keys_perm. apply elem_of_elements. Qed.

Lemma sorted_keys_NoDup cache : NoDup (sorted_keys cache).
Proof. rewrite sorted_keys_perm. apply NoDup_elements. Qed.

Lemma sorted_keys_length cache : length (sorted_keys cache) = size cache.
Proof. rewrite sorted_keys_perm. by rewrite <- size_dom. Qed.

Lemma sorted_keys_sorted cache : StronglySorted String.le (sorted_keys cache).
Proof. apply StronglySorted_merge_sort; apply _. Qed.

(** The first [n] keys in sorted order lie strictly below all the others. *)
Lemma smallest_below_rest cache n e k :
  e ∈ take n (sorted_keys cache) -> k ∈ dom cache ->
  k ∉ take n (sorted_keys cache) -> String.le e k /\ e <> k.
Proof.
  intros He Hk Hnk.
  assert (Hdrop : k ∈ drop n (sorted_keys cache)).
  { apply sorted_keys_elem in Hk. rewrite <- (take_drop n (sorted_keys cache)) in Hk.
    apply elem_of_app in Hk as [?|?]; done. }
  split; [| intros ->; done].
  pose proof (sorted_keys_sorted cache) as Hs.
  rewrite <- (take_drop n (sorted_keys cache)) in Hs.
  by apply (StronglySorted_app_1_elem_of _ _ _ _ _ Hs).
Qed.

Lemma cache_conversation_evicts dm c ms :
  let cache := <[c := ms]> (conversation_cache dm) in
  100 < size cache ->
  conversation_cache (cache_conversation dm c ms)
  = del_all (take 20 (sorted_keys cache)) cache.
Proof. intros cache Hsz. subst cache. simpl. by rewrite decide_True. Qed.

Lemma cache_conversation_keeps dm c ms :
  let cache := <[c := ms]> (conversation_cache dm) in
  size cache <= 100 ->
  conversation_cache (cache_conversation dm c ms) = cache.
Proof. intros cache Hsz. subst cache. simpl. rewrite decide_False; [done | lia]. Qed.

Lemma size_insert_le cache c ms : size (<[c := ms]> cache) <= S (size cache).
Proof.
  destruct (cache !! c) eqn:Hc.
  - rewrite map_size_insert_Some; [lia | done].
  - rewrite map_size_insert_None; [lia | done].
Qed.

Lemma cache_conversation_size dm c ms :
  size (conversation_cache dm) <= 100 ->
  size (conversation_cache (cache_conversation dm c ms)) <= 100.
Proof.
  intros Hsz. pose proof (size_insert_le (conversation_cache dm) c ms) as Hins.
  destruct (decide (100 < size (<[c := ms]> (conversation_cache dm)))) as [Hbig|Hsmall].
  - rewrite cache_conversation_evicts by done.
    rewrite del_all_size.
    + rewrite length_take, sorted_keys_length. lia.
    + eapply sublist_NoDup; [apply sorted_keys_NoDup | apply sublist_take].
    + intros k Hk. apply sorted_keys_elem. by apply (subseteq_take 20).
  - rewrite cache_conversation_keeps; lia.
Qed.

Lemma reachable_cache_bounded dm : reachable dm -> cache_bounded dm.
Proof.
  unfold cache_bounded, _load_conversation_cache.
  induction 1 as [|dm _ [IH1 IH2]|dm c ts _ [IH1 IH2]|dm c _ [IH1 IH2]
                 |dm c _ [IH1 IH2]|dm c ms _ [IH1 IH2]|dm _ [IH1 IH2]].
  all: try (simpl; rewrite ?map_size_empty; split; first [done | lia]).
  - split; cbn; rewrite map_size_empty; lia.
  - pose proof (cache_conversation_size dm c ms IH1) as Hsz.
    split; [done |]. exact Hsz.
Qed.

(** C10: on every data manager that was created without a cache file or on
    the files a data manager left, [cache_conversation] leaves at most 100
    conversations in the cache and persists exactly what it leaves.  When
    the insertion brings the cache above 100 entries, 20 of its keys are
    evicted, each strictly below every key that stays, in the order of
    [sorted]; otherwise nothing is evicted. *)
Theorem cache_conversation_bounded dm c ms :
  reachable dm ->
  let cache := <[c := ms]> (conversation_cache dm) in
  let dm' := cache_conversation dm c ms in
  size (conversation_cache dm') <= 100
  /\ conversation_cache_file (disk dm') = Some (conversation_cache dm')
  /\ (size cache <= 100 -> conversation_cache dm' = cache)
  /\ (100 < size cache ->
      exists evicted : list string,
        evicted = take 20 (sorted_keys cache)
        /\ length evicted = 20 /\ NoDup evicted
        /\ (forall e, e ∈ evicted -> e ∈ dom cache)
        /\ conversation_cache dm' = filter (fun kv => kv.1 ∉ evicted) cache
        /\ size (conversation_cache dm') = size cache - 20
        /\ forall e k, e ∈ evicted -> k ∈ dom (conversation_cache dm') ->
                       String.le e k /\ e <> k).
Proof.
  intros Hreach cache dm'. subst cache dm'.
  apply reachable_cache_bounded in Hreach as [Hsz _].
  split; [by apply cache_conversation_size |].
  split; [done |].
  split; [apply cache_conversation_keeps |].
  intros Hbig. exists (take 20 (sorted_keys (<[c:=ms]> (conversation_cache dm)))).
  assert (Hlen : length (take 20 (sorted_keys (<[c:=ms]> (conversation_cache dm)))) = 20).
  { rewrite length_take, sorted_keys_length. lia. }
  assert (Hnd : NoDup (take 20 (sorted_keys (<[c:=ms]> (conversation_cache dm))))).
  { eapply sublist_NoDup; [apply sorted_keys_NoDup | apply sublist_take]. }
  assert (Hdom : forall e, e ∈ take 20 (sorted_keys (<[c:=ms]> (conversation_cache dm)))
                      -> e ∈ dom (<[c:=ms]> (conversation_cache dm))).
  { intros e He. apply sorted_keys_elem. by apply (subseteq_take 20). }
  rewrite cache_conversation_evicts by done.
  split; [done |]. split; [done |]. split; [done |]. split; [done |].
  split; [apply del_all_filter |].
  split; [rewrite del_all_size by done; by rewrite Hlen |].
  intros e k He Hk. apply elem_of_dom in Hk as [v Hv].
  rewrite del_all_lookup in Hv.
  destruct (decide (k ∈ take 20 (sorted_keys (<[c:=ms]> (conversation_cache dm)))))
    as [Hin|Hnin]; [done |].
  apply (smallest_below_rest (<[c:=ms]> (conversation_cache dm)) 20); [done | | done].
  apply elem_of_dom. by exists v.
Qed.

Lemma full_cache_reachable : reachable full_cache.
Proof.
  unfold full_cache. generalize (seq 0 100).
  induction l as [|n l IH]; [apply reach_init | by apply reach_cache].
Qed.

Lemma cache_conversation_bounded_witness :
  reachable full_cache
  /\ size (conversation_cache full_cache) = 100
  /\ size (conversation_cache (cache_conversation full_cache "zzz" [])) <= 100.
Proof.
  split; [apply full_cache_reachable |]. split; [reflexivity |].
  apply (cache_conversation_bounded full_cache "zzz" []).
  apply full_cache_reachable.
Defined.

(** The eviction at work: a hundred cached conversations and one more. *)
Example cache_conversation_evicts_smallest :
  let cache := conversation_cache (cache_conversation full_cache "zzz" []) in
  size cache = 81 /\ cache !! "0" = None /\ cache !! "26" = None
  /\ cache !! "27" = Some [] /\ cache !! "zzz" = Some [].
Proof. vm_compute. repeat split. Qed.

End DataManagerFacts.

(** ** Strings *)

Section StringFacts.
Import PyStr.
Implicit Types (s t u p r w cur : string) (c : ascii).

Lemma str_app_cons c s t : String c s +:+ t = String c (s +:+ t).
Proof. reflexivity. Qed.

Lemma str_app_nil_l s : "" +:+ s = s.
Proof. reflexivity. Qed.

Lemma str_app_nil_r s : s +:+ "" = s.
Proof. induction s as [|c s IH]; [done |]. by rewrite str_app_cons, IH. Qed.

Lemma str_app_assoc s t u : (s +:+ t) +:+ u = s +:+ (t +:+ u).
Proof. induction s as [|c s IH]; [done |]. by rewrite !str_app_cons, IH. Qed.

Lemma str_app_snoc cur c s : (cur +:+ String c "") +:+ s = cur +:+ String c s.
Proof. by rewrite str_app_assoc. Qed.

Lemma str_app_length s t :
  String.length (s +:+ t) = String.length s + String.length t.
Proof. induction s as [|c s IH]; [done |]. rewrite str_app_cons. simpl. by rewrite IH. Qed.

Lemma str_app_eq_nil s t : s +:+ t = "" -> s = "" /\ t = "".
Proof. destruct s; [done |]. by rewrite str_app_cons. Qed.

Lemma star_free_app s t : star_free (s +:+ t) = star_free s && star_free t.
Proof.
  induction s as [|c s IH]; [done |]. rewrite str_app_cons. simpl.
  by rewrite IH, andb_assoc.
Qed.

Lemma prefix_cons c c' p s :
  String.prefix (String c p) (String c' s)
  = if decide (c = c') then String.prefix p s else false.
Proof. simpl. destruct (ascii_dec c c'); by case_decide. Qed.

Lemma prefix_nil s : String.prefix "" s = true.
Proof. by destruct s. Qed.

Lemma prefix_app_l p s : String.prefix p (p +:+ s) = true.
Proof.
  induction p as [|c p IH]; [apply prefix_nil |].
  rewrite str_app_cons, prefix_cons. by case_decide.
Qed.

Lemma startswith_split p s : startswith p s = true <-> exists r, s = p +:+ r.
Proof.
  revert s. induction p as [|c p IH]; intros s; [split; [by exists s | done] |].
  destruct s as [|c' s]; [split; [done | by intros [r Hr]] |].
  cbn [startswith]. rewrite andb_true_iff, IH, Ascii.eqb_eq. split.
  - intros [-> [r ->]]. by exists r.
  - intros [r [= -> ->]]. split; [done | by exists r].
Qed.

(** *** The whitespace characters *)

Lemma spaces_bytes :
  Forall (fun w => w <> ""
                   /\ starts_char w = true
                   /\ star_free w = true
                   /\ all_bytes (fun c => negb (solid c)) w = true
                   /\ match w with
                      | String _ w' => all_bytes continuation w' = true
                      | EmptyString => True
                      end) spaces.
Proof. repeat constructor; done. Qed.

Lemma spaces_prefix :
  Forall (fun w => forall s, space_len (w +:+ s) = String.length w) spaces.
Proof. unfold spaces. cbn [fmap list_fmap of_bytes foldr]. repeat (constructor; [intros s; reflexivity |]). constructor. Qed.

Lemma space_len_space w s : w ∈ spaces -> space_len (w +:+ s) = String.length w.
Proof.
  intros Hw. pose proof spaces_prefix as H. rewrite Forall_forall in H. by apply H.
Qed.

Lemma space_in_nonempty w : w ∈ spaces -> w <> "".
Proof.
  intros Hw. pose proof spaces_bytes as H. rewrite Forall_forall in H.
  by destruct (H w Hw).
Qed.

Lemma space_in_bytes w :
  w ∈ spaces ->
  exists c w', w = String c w' /\ continuation c = false
               /\ all_bytes continuation w' = true
               /\ all_bytes (fun c => negb (solid c)) w = true
               /\ star_free w = true.
Proof.
  intros Hw. pose proof spaces_bytes as H. rewrite Forall_forall in H.
  destruct (H w Hw) as (Hne & Hs & Hsf & Hb & Hc). destruct w as [|c w']; [done |].
  exists c, w'. cbn in Hs. apply negb_true_iff in Hs. done.
Qed.

Lemma space_len_Some s n :
  space_len s = S n ->
  exists w r, w ∈ spaces /\ s = w +:+ r /\ String.length w = S n.
Proof.
  unfold space_len. destruct (List.find _ spaces) as [w|] eqn:Hf; [| done].
  apply List.find_some in Hf as [Hin Hp]. apply startswith_split in Hp as [r ->].
  intros Hn. exists w, r. split; [by apply list_elem_of_In | done].
Qed.

Lemma space_len_0 s w : space_len s = 0 -> w ∈ spaces -> startswith w s = false.
Proof.
  unfold space_len. destruct (List.find _ spaces) as [w'|] eqn:Hf.
  - apply List.find_some in Hf as [Hin _]. apply list_elem_of_In, space_in_nonempty in Hin.
    destruct w'; done.
  - intros _ Hw. apply list_elem_of_In in Hw.
    by apply (List.find_none _ _ Hf) in Hw.
Qed.

(** Texts are read one whitespace character or one other byte at a time. *)
Lemma space_ind (P : string -> Prop) :
  P "" ->
  (forall w s, w ∈ spaces -> P s -> P (w +:+ s)) ->
  (forall c s, space_len (String c s) = 0 -> P s -> P (String c s)) ->
  forall s, P s.
Proof.
  intros Hnil Hsp Hch s.
  assert (H : forall n s, String.length s <= n -> P s).
  { clear s. induction n as [|n IH]; intros s Hn.
    - destruct s; [done | simpl in Hn; lia].
    - destruct s as [|c s]; [done |].
      destruct (space_len (String c s)) as [|k] eqn:Hk.
      + apply Hch; [done |]. apply IH. simpl in Hn. lia.
      + apply space_len_Some in Hk as (w & r & Hw & Heq & Hlen).
        rewrite Heq. apply Hsp; [done |]. apply IH.
        apply (f_equal String.length) in Heq. rewrite str_app_length in Heq.
        simpl in Heq, Hn. lia. }
  by apply (H (String.length s)).
Qed.


Lemma space_len_mono u t n : space_len u = S n -> space_len (u +:+ t) = S n.
Proof.
  intros (w & r & Hw & -> & Hlen)%space_len_Some.
  by rewrite str_app_assoc, space_len_space.
Qed.

Lemma space_len_continuation c s : continuation c = true -> space_len (String c s) = 0.
Proof.
  intros Hc. destruct (space_len (String c s)) as [|n] eqn:Hn; [done |].
  apply space_len_Some in Hn as (w & r & Hw & Heq & _).
  apply space_in_bytes in Hw as (c' & w' & -> & Hc' & _).
  rewrite str_app_cons in Heq. injection Heq as <- _. congruence.
Qed.

Lemma str_app_eq_app u t w r :
  u +:+ t = w +:+ r ->
  (exists v, u = w +:+ v) \/ (exists v, v <> "" /\ w = u +:+ v /\ t = v +:+ r).
Proof.
  revert w. induction u as [|c u IH]; intros w.
  - rewrite str_app_nil_l. intros ->. destruct w as [|c w]; [left; by exists "" |].
    right. by exists (String c w).
  - destruct w as [|c' w]; [left; by exists (String c u) |].
    rewrite !str_app_cons. intros [= <- H]. apply IH in H as [[v ->]|(v & Hv & -> & ->)].
    + left. by exists v.
    + right. by exists v.
Qed.

Lemma all_bytes_app P s t : all_bytes P (s +:+ t) = all_bytes P s && all_bytes P t.
Proof.
  induction s as [|c s IH]; [done |]. rewrite str_app_cons. simpl.
  by rewrite IH, andb_assoc.
Qed.

(** A whitespace character does not begin in one text and end in the
    next when the next begins a character. *)
Lemma space_len_app_char u t :
  u <> "" -> space_len u = 0 -> starts_char t = true -> space_len (u +:+ t) = 0.
Proof.
  intros Hne Hu Ht. destruct (space_len (u +:+ t)) as [|n] eqn:Hn; [done |].
  apply space_len_Some in Hn as (w & r & Hw & Heq & _).
  apply str_app_eq_app in Heq as [[v ->]|(v & Hv & -> & ->)].
  - rewrite (space_len_space _ _ Hw) in Hu.
    apply space_in_nonempty in Hw. destruct w; done.
  - apply space_in_bytes in Hw as (c & w' & Heq & _ & Hcont & _).
    destruct u as [|c0 u]; [done |]. rewrite str_app_cons in Heq.
    injection Heq as _ <-. rewrite all_bytes_app in Hcont.
    apply andb_true_iff in Hcont as [_ Hv']. destruct v as [|c1 v]; [done |].
    rewrite str_app_cons in Ht. cbn in Hv', Ht.
    apply andb_true_iff in Hv' as [Hc1 _]. by rewrite Hc1 in Ht.
Qed.

(** *** [lstrip], [rstrip], [split] one character at a time *)

Lemma lstrip_go_skip u s : lstrip_go (String.length u) (u +:+ s) = lstrip_go 0 s.
Proof. induction u as [|c u IH]; [done |]. by rewrite str_app_cons. Qed.

Lemma lstrip_space w s : w ∈ spaces -> lstrip (w +:+ s) = lstrip s.
Proof.
  intros Hw. pose proof (space_len_space w s Hw) as Hlen.
  destruct w as [|c w]; [by apply space_in_nonempty in Hw |].
  unfold lstrip. rewrite str_app_cons in *. cbn [lstrip_go].
  rewrite Hlen. cbn [String.length]. apply lstrip_go_skip.
Qed.

Lemma lstrip_plain c s : space_len (String c s) = 0 -> lstrip (String c s) = String c s.
Proof. intros Hc. unfold lstrip. cbn [lstrip_go]. by rewrite Hc. Qed.

Lemma all_space_space w s : w ∈ spaces -> all_space (w +:+ s) = all_space s.
Proof. intros Hw. unfold all_space. by rewrite lstrip_space. Qed.

Lemma all_space_plain c s : space_len (String c s) = 0 -> all_space (String c s) = false.
Proof. intros Hc. unfold all_space. by rewrite lstrip_plain. Qed.

Lemma rstrip_plain c s :
  space_len (String c s) = 0 -> rstrip (String c s) = String c (rstrip s).
Proof. intros Hc. cbn [rstrip]. by rewrite all_space_plain. Qed.

Lemma rstrip_continuation u s :
  all_bytes continuation u = true -> rstrip (u +:+ s) = u +:+ rstrip s.
Proof.
  induction u as [|c u IH]; [done |]. cbn [all_bytes].
  intros [Hc Hu]%andb_true_iff. rewrite !str_app_cons.
  rewrite rstrip_plain by by apply space_len_continuation. by rewrite IH.
Qed.

Lemma rstrip_space w s :
  w ∈ spaces -> rstrip (w +:+ s) = if all_space s then "" else w +:+ rstrip s.
Proof.
  intros Hw. pose proof (all_space_space w s Hw) as Hall.
  apply space_in_bytes in Hw as (c & w' & -> & _ & Hcont & _).
  rewrite !str_app_cons in *. cbn [rstrip]. rewrite Hall.
  destruct (all_space s); [done |]. by rewrite rstrip_continuation.
Qed.

Lemma split_aux_skip u s : split_aux (String.length u) "" (u +:+ s) = split_aux 0 "" s.
Proof. induction u as [|c u IH]; [done |]. by rewrite str_app_cons. Qed.

Lemma split_aux_space w cur s :
  w ∈ spaces -> split_aux 0 cur (w +:+ s) = flush cur ++ split_aux 0 "" s.
Proof.
  intros Hw. pose proof (space_len_space w s Hw) as Hlen.
  destruct w as [|c w]; [by apply space_in_nonempty in Hw |].
  rewrite str_app_cons in *. cbn [split_aux].
  rewrite Hlen. cbn [String.length]. by rewrite split_aux_skip.
Qed.

Lemma split_aux_plain c cur s :
  space_len (String c s) = 0 ->
  split_aux 0 cur (String c s) = split_aux 0 (cur +:+ String c "") s.
Proof. intros Hc. cbn [split_aux]. by rewrite Hc. Qed.

(** *** Whitespace only *)

Lemma blank_app a b : blank a -> blank b -> blank (a +:+ b).
Proof.
  induction 1 as [|w s Hw Hs IH]; [done |]. intros Hb.
  rewrite str_app_assoc. constructor; [done | by apply IH].
Qed.

Lemma blank_space w : w ∈ spaces -> blank w.
Proof. intros Hw. rewrite <- (str_app_nil_r w). constructor; [done | constructor]. Qed.

Lemma blank_inv s :
  blank s -> s = "" \/ exists w r, w ∈ spaces /\ blank r /\ s = w +:+ r.
Proof. destruct 1 as [|w r Hw Hr]; [by left |]. right. by exists w, r. Qed.

Lemma blank_star_free s : blank s -> star_free s = true.
Proof.
  induction 1 as [|w s Hw Hs IH]; [done |]. rewrite star_free_app, IH.
  by apply space_in_bytes in Hw as (c & w' & _ & _ & _ & _ & ->).
Qed.

Lemma blank_not_solid s : blank s -> all_bytes (fun c => negb (solid c)) s = true.
Proof.
  induction 1 as [|w s Hw Hs IH]; [done |]. rewrite all_bytes_app, IH.
  by apply space_in_bytes in Hw as (c & w' & _ & _ & _ & -> & _).
Qed.

Lemma blank_starts_char s : blank s -> starts_char s = true.
Proof.
  destruct 1 as [|w s Hw Hs]; [done |].
  apply space_in_bytes in Hw as (c & w' & -> & Hc & _).
  rewrite str_app_cons. cbn. by rewrite Hc.
Qed.

Lemma lstrip_blank a s : blank a -> lstrip (a +:+ s) = lstrip s.
Proof.
  induction 1 as [|w a Hw Ha IH]; [done |]. by rewrite str_app_assoc, lstrip_space.
Qed.

Lemma all_space_blank s : all_space s = true <-> blank s.
Proof.
  split.
  - induction s as [|w s Hw IH|c s Hc IH] using space_ind; [constructor | |].
    + rewrite all_space_space by done. intros Hs. constructor; [done | by apply IH].
    + by rewrite all_space_plain.
  - intros Hs. unfold all_space. rewrite <- (str_app_nil_r s), lstrip_blank by done. done.
Qed.

Lemma lstrip_decomp s : exists a, blank a /\ s = a +:+ lstrip s.
Proof.
  induction s as [|w s Hw (a & Ha & IH)|c s Hc _] using space_ind.
  - exists "". split; [constructor | done].
  - exists (w +:+ a). split; [by constructor |].
    rewrite lstrip_space, str_app_assoc by done. by rewrite <- IH.
  - exists "". split; [constructor |]. by rewrite lstrip_plain.
Qed.

Lemma rstrip_decomp s : exists b, blank b /\ s = rstrip s +:+ b.
Proof.
  induction s as [|w s Hw (b & Hb & IH)|c s Hc (b & Hb & IH)] using space_ind.
  - exists "". split; [constructor | done].
  - rewrite rstrip_space by done. destruct (all_space s) eqn:Hs.
    + exists (w +:+ s). split; [| done]. constructor; [done |]. by apply all_space_blank.
    + exists b. split; [done |]. by rewrite str_app_assoc, <- IH.
  - exists b. split; [done |]. rewrite rstrip_plain by done.
    by rewrite str_app_cons, <- IH.
Qed.

Lemma strip_decomp s : exists a b, blank a /\ blank b /\ s = a +:+ strip s +:+ b.
Proof.
  destruct (lstrip_decomp s) as (a & Ha & Hs).
  destruct (rstrip_decomp (lstrip s)) as (b & Hb & Hl).
  exists a, b. split; [done |]. split; [done |]. unfold strip. by rewrite <- Hl.
Qed.

(** *** Words *)

Lemma split_aux_blank b cur : blank b -> split_aux 0 cur b = flush cur.
Proof.
  intros Hb. revert cur. induction Hb as [|w b Hw Hb IH]; intros cur; [done |].
  rewrite split_aux_space, IH by done. apply app_nil_r.
Qed.

Lemma split_blank_l a s : blank a -> split (a +:+ s) = split s.
Proof.
  unfold split. induction 1 as [|w a Hw Ha IH]; [done |].
  by rewrite str_app_assoc, split_aux_space.
Qed.

Lemma split_aux_blank_r s b cur : blank b -> split_aux 0 cur (s +:+ b) = split_aux 0 cur s.
Proof.
  intros Hb. revert cur.
  induction s as [|w s Hw IH|c s Hc IH] using space_ind; intros cur.
  - by rewrite str_app_nil_l, split_aux_blank.
  - rewrite str_app_assoc, (split_aux_space w cur (s +:+ b)),
      (split_aux_space w cur s) by done. by rewrite IH.
  - rewrite str_app_cons, !split_aux_plain; [apply IH | done |].
    rewrite <- str_app_cons. apply space_len_app_char; [done | done |].
    by apply blank_starts_char.
Qed.

Lemma split_blank_r s b : blank b -> split (s +:+ b) = split s.
Proof. apply split_aux_blank_r. Qed.

Lemma split_strip s : split (strip s) = split s.
Proof.
  destruct (strip_decomp s) as (a & b & Ha & Hb & Heq). rewrite Heq at 2.
  by rewrite split_blank_l, split_blank_r.
Qed.

Lemma split_aux_nil s cur : split_aux 0 cur s = [] <-> cur = "" /\ blank s.
Proof.
  revert cur. induction s as [|w s Hw IH|c s Hc IH] using space_ind; intros cur.
  - cbn. destruct cur; split; try done; [by split; [| constructor] | by intros []].
  - rewrite split_aux_space by done. rewrite app_nil, IH. split.
    + intros [Hf [_ Hs]]. split; [by destruct cur | by constructor].
    + intros [-> Hs]. split; [done |]. split; [done |].
      apply all_space_blank. rewrite <- (all_space_space w s Hw). by apply all_space_blank.
  - rewrite split_aux_plain by done. rewrite IH. split.
    + intros [[_ ?]%str_app_eq_nil _]. done.
    + intros [_ Hb%all_space_blank]. by rewrite all_space_plain in Hb.
Qed.

Lemma split_nil s : split s = [] <-> blank s.
Proof. unfold split. rewrite split_aux_nil. split; [by intros [_ ?] | by intros ?]. Qed.

End StringFacts.

(** ** The sanitization of a reply *)

Section SanitizeFacts.
Import PyStr MessageGenerator.
Implicit Types (s t u p r w a cur : string) (c : ascii).

Lemma match_action_plain c s : Ascii.eqb c "*" = false -> match_action (String c s) = None.
Proof. intros Hc. unfold match_action. by rewrite Hc. Qed.

(** Text without an asterisk is copied. *)
Lemma sub_actions_plain p r :
  star_free p = true -> sub_actions 0 (p +:+ r) = p +:+ sub_actions 0 r.
Proof.
  induction p as [|c p IH]; [done |]. simpl star_free.
  intros [Hc Hp]%andb_true_iff. apply negb_true_iff in Hc.
  rewrite !str_app_cons. cbn [sub_actions].
  rewrite (match_action_plain _ _ Hc). by rewrite IH.
Qed.

Lemma span_close_found a r n :
  star_free a = true ->
  span_close n (a +:+ String "*" r)
  = match n + String.length a with
    | 0 => None
    | _ => Some (n + String.length a + 2)
    end.
Proof.
  revert n. induction a as [|c a IH]; intros n.
  - intros _. rewrite str_app_nil_l. simpl. rewrite Nat.add_0_r. done.
  - simpl star_free. intros [Hc Ha]%andb_true_iff. apply negb_true_iff in Hc.
    rewrite str_app_cons. cbn [span_close]. rewrite Hc, IH by done.
    simpl String.length. by rewrite !Nat.add_succ_r.
Qed.

Lemma sub_actions_skip u r :
  sub_actions (String.length u) (u +:+ r) = sub_actions 0 r.
Proof. induction u as [|c u IH]; [done |]. by rewrite str_app_cons. Qed.

(** A stage direction is dropped, asterisks included. *)
Lemma sub_actions_action a r :
  star_free a = true -> a <> "" ->
  sub_actions 0 ("*" +:+ a +:+ "*" +:+ r) = sub_actions 0 r.
Proof.
  intros Ha Hne.
  change (sub_actions 0 (String "*" (a +:+ String "*" r)) = sub_actions 0 r).
  cbn [sub_actions match_action Ascii.eqb Bool.eqb]. rewrite span_close_found by done.
  destruct a as [|c a]; [done |].
  assert (Hlen : 0 + String.length (String c a) + 2 - 1
                 = String.length (String c a +:+ "*")).
  { rewrite str_app_length. simpl. lia. }
  cbn [String.length Nat.add] in Hlen |- *. rewrite Hlen.
  change (String c a +:+ String "*" r) with (String c a +:+ ("*" +:+ r)).
  rewrite <- str_app_assoc. apply sub_actions_skip.
Qed.

Lemma sub_actions_render pieces :
  well_formed pieces = true -> sub_actions 0 (render pieces) = plain_text pieces.
Proof.
  induction pieces as [|[p|a] pieces IH]; [done | |];
    cbn [render plain_text well_formed].
  - intros [Hp Hw]%andb_true_iff. by rewrite sub_actions_plain, IH.
  - intros [[Ha Hne]%andb_true_iff Hw]%andb_true_iff.
    rewrite sub_actions_action, IH; [done.. |].
    apply negb_true_iff in Hne. by apply String.eqb_neq in Hne.
Qed.


Lemma space_in_spaces : " " ∈ spaces.
Proof. unfold spaces. cbn [fmap list_fmap]. do 9 apply list_elem_of_further. apply list_elem_of_here. Qed.

Lemma plain_before_no_space s cur : plain_before s cur = true -> no_space cur = true.
Proof.
  induction cur as [|c cur IH]; [done |]. cbn [plain_before no_space].
  intros [Hc Hcur]%andb_true_iff. rewrite IH, andb_true_r by done.
  apply Nat.eqb_eq in Hc. apply Nat.eqb_eq.
  destruct (space_len (String c cur)) as [|n] eqn:Hn; [done |].
  by rewrite (space_len_mono _ s _ Hn) in Hc.
Qed.

Lemma plain_before_snoc s cur c :
  plain_before (String c s) cur = true -> space_len (String c s) = 0 ->
  plain_before s (cur +:+ String c "") = true.
Proof.
  intros Hcur Hc. induction cur as [|c0 cur IH].
  - rewrite str_app_nil_l. cbn [plain_before].
    change (String c "" +:+ s) with (String c s). by rewrite Hc.
  - cbn [plain_before] in Hcur. apply andb_true_iff in Hcur as [H0 Hcur].
    rewrite str_app_cons. cbn [plain_before].
    rewrite <- str_app_cons, str_app_snoc, H0. by apply IH.
Qed.

(** [split] yields words. *)
Lemma split_aux_words s cur :
  plain_before s cur = true -> Forall is_word (split_aux 0 cur s).
Proof.
  assert (Hflush : forall t cur, plain_before t cur = true -> Forall is_word (flush cur)).
  { intros t [|c cur'] Hp; [constructor |]. repeat constructor; [done |].
    by apply (plain_before_no_space t). }
  revert cur. induction s as [|w s Hw IH|c s Hc IH] using space_ind; intros cur Hcur.
  - by apply (Hflush "").
  - rewrite split_aux_space by done. apply Forall_app. split; [by eapply Hflush |].
    by apply IH.
  - rewrite split_aux_plain by done. by apply IH, plain_before_snoc.
Qed.

Lemma split_words s : Forall is_word (split s).
Proof. by apply split_aux_words. Qed.

Lemma split_aux_word_app w cur r :
  no_space w = true -> starts_char r = true ->
  split_aux 0 cur (w +:+ r) = split_aux 0 (cur +:+ w) r.
Proof.
  intros Hw Hr. revert cur Hw. induction w as [|c w IH]; intros cur.
  - by rewrite str_app_nil_r.
  - cbn [no_space]. intros [Hc Hw]%andb_true_iff. apply Nat.eqb_eq in Hc.
    rewrite str_app_cons, split_aux_plain.
    + rewrite IH by done. by rewrite str_app_snoc.
    + rewrite <- str_app_cons. by apply space_len_app_char.
Qed.

Lemma join_cons sep w w' ws :
  join sep (w :: w' :: ws) = w +:+ sep +:+ join sep (w' :: ws).
Proof. reflexivity. Qed.

(** Joining words with single spaces and splitting again gives the words. *)
Lemma split_join ws : Forall is_word ws -> split (join " " ws) = ws.
Proof.
  unfold split. induction 1 as [|w ws [Hne Hw] Hws IH]; [done |].
  destruct ws as [|w' ws]; [cbn [join] | rewrite join_cons].
  - rewrite <- (str_app_nil_r w) at 1. rewrite split_aux_word_app, str_app_nil_l by done.
    destruct w; done.
  - rewrite split_aux_word_app, str_app_nil_l by done.
    rewrite split_aux_space by apply space_in_spaces.
    rewrite IH. by destruct w.
Qed.

Lemma spaced_ok_plain b c s :
  space_len (String c s) = 0 -> spaced_ok b (String c s) = spaced_ok false s.
Proof. intros Hc. cbn [spaced_ok]. by rewrite Hc. Qed.

Lemma spaced_ok_space b s : spaced_ok b (" " +:+ s) = negb b && spaced_ok true s.
Proof.
  change (" " +:+ s) with (String " " s). cbn [spaced_ok].
  change (String " " s) with (" " +:+ s).
  by rewrite (space_len_space " " s space_in_spaces).
Qed.

Lemma spaced_ok_word w r b :
  no_space w = true -> w <> "" -> starts_char r = true ->
  spaced_ok b (w +:+ r) = spaced_ok false r.
Proof.
  intros Hw Hne Hr. revert b Hw Hne. induction w as [|c w IH]; intros b Hw Hne; [done |].
  cbn [no_space] in Hw. apply andb_true_iff in Hw as [Hc Hw]. apply Nat.eqb_eq in Hc.
  rewrite str_app_cons, spaced_ok_plain.
  - destruct w as [|c' w]; [done |]. by apply IH.
  - rewrite <- str_app_cons. by apply space_len_app_char.
Qed.

Lemma join_spaced ws b :
  Forall is_word ws -> ws <> [] -> spaced_ok b (join " " ws) = true.
Proof.
  intros Hws. revert b. induction Hws as [|w ws [Hne Hw] Hws IH]; intros b Hnil; [done |].
  destruct ws as [|w' ws]; [cbn [join] | rewrite join_cons].
  - rewrite <- (str_app_nil_r w). by rewrite spaced_ok_word.
  - rewrite spaced_ok_word, spaced_ok_space by done.
    rewrite IH by done. done.
Qed.

Lemma join_nonempty ws : Forall is_word ws -> ws <> [] -> join " " ws <> "".
Proof.
  intros Hws Hne. destruct Hws as [|w ws [Hw _] Hws]; [done |].
  destruct ws; [done |]. rewrite join_cons.
  intros [? _]%str_app_eq_nil. done.
Qed.

Lemma join_single_spaced ws : Forall is_word ws -> single_spaced (join " " ws) = true.
Proof.
  intros Hws. destruct ws as [|w ws]; [done |].
  pose proof (join_spaced (w :: ws) true Hws) as Hs.
  unfold single_spaced. destruct (join " " (w :: ws)); [done |]. by apply Hs.
Qed.

Lemma spaced_ok_starts c s : spaced_ok true (String c s) = true -> space_len (String c s) = 0.
Proof.
  cbn [spaced_ok]. destruct (space_len (String c s)); [done |].
  by rewrite andb_false_r.
Qed.

Lemma spaced_ok_not_blank s : spaced_ok true s = true -> all_space s = false.
Proof.
  destruct s as [|c s]; [done |]. intros Hs%spaced_ok_starts. by apply all_space_plain.
Qed.

Lemma rstrip_spaced s b : spaced_ok b s = true -> rstrip s = s.
Proof.
  revert b. induction s as [|c s IH]; intros b; [done |].
  destruct (space_len (String c s)) as [|n] eqn:Hc.
  - rewrite spaced_ok_plain, rstrip_plain by done. intros Hs. by rewrite (IH _ Hs).
  - cbn [spaced_ok]. rewrite Hc. intros [[Hsp _]%andb_true_iff Hs]%andb_true_iff.
    apply Ascii.eqb_eq in Hsp. subst c. change (String " " s) with (" " +:+ s).
    rewrite rstrip_space by apply space_in_spaces.
    by rewrite (spaced_ok_not_blank s Hs), (IH _ Hs).
Qed.

Lemma strip_spaced s : single_spaced s = true -> strip s = s.
Proof.
  destruct s as [|c s]; [done |]. unfold single_spaced, strip. intros Hs.
  rewrite lstrip_plain by by apply spaced_ok_starts.
  by apply (rstrip_spaced _ true).
Qed.

Lemma spaced_ok_period s b : spaced_ok b s = true -> spaced_ok b (s +:+ ".") = true.
Proof.
  revert b. induction s as [|c s IH]; intros b.
  - destruct b; done.
  - rewrite str_app_cons. destruct (space_len (String c s)) as [|n] eqn:Hc.
    + rewrite !spaced_ok_plain; [apply IH | | done].
      rewrite <- str_app_cons. by apply space_len_app_char.
    + cbn [spaced_ok]. rewrite <- str_app_cons, (space_len_mono _ "." _ Hc), Hc.
      intros [H1 H2]%andb_true_iff. rewrite H1. by apply IH.
Qed.

Lemma with_period_spaced s : single_spaced s = true -> single_spaced (with_period s) = true.
Proof.
  intros Hs. unfold with_period.
  destruct (negb (s =? "")%string && negb (ends_sentence s)) eqn:Hp; [| done].
  destruct s as [|c s]; [done |].
  unfold single_spaced in *. rewrite str_app_cons.
  rewrite <- str_app_cons. by apply spaced_ok_period.
Qed.

Lemma with_period_nonempty s : s <> "" -> with_period s <> "".
Proof.
  intros Hne. unfold with_period.
  destruct (negb (s =? "")%string && negb (ends_sentence s)); [| done].
  intros [? _]%str_app_eq_nil. done.
Qed.

(** The sanitization in one line: spans removed, words joined by single
    spaces, a period added where a sentence end is missing.  The closing
    [strip] finds nothing to remove. *)
Lemma sanitize_reply_unfold text :
  _sanitize_reply text = with_period (join " " (split (sub_actions 0 text))).
Proof.
  unfold _sanitize_reply. fold (with_period (join " " (split (sub_actions 0 text)))).
  apply strip_spaced, with_period_spaced, join_single_spaced, split_words.
Qed.

Lemma sanitize_reply_nonempty text :
  split (sub_actions 0 text) <> [] -> _sanitize_reply text <> "".
Proof.
  intros Hne. rewrite sanitize_reply_unfold.
  apply with_period_nonempty, join_nonempty; [apply split_words | done].
Qed.

Lemma sanitize_reply_empty text :
  split (sub_actions 0 text) = [] -> _sanitize_reply text = "".
Proof. intros He. by rewrite sanitize_reply_unfold, He. Qed.

End SanitizeFacts.

Section SanitizeTheorem.
Import PyStr MessageGenerator.

(** C7, as amended: the sanitization removes the spans that the pattern
    of an asterisk, one or more characters other than an asterisk, and an
    asterisk matches, leftmost first and without overlap: on a reply laid
    out as plain text and stage directions only the plain text is left.
    For every text, what is left is cut into its words at the whitespace
    (any whitespace character of Unicode), the words are joined by single
    spaces, and a period is appended when the result is not empty and does
    not end in a period, an exclamation mark or a question mark;
    ["Hey *winks* how are you"] becomes ["Hey how are you."]. *)
Theorem sanitize_reply_cleans (pieces : list Piece) (text : string) :
  well_formed pieces = true ->
  sub_actions 0 (render pieces) = plain_text pieces
  /\ _sanitize_reply (render pieces)
     = with_period (join " " (split (plain_text pieces)))
  /\ (let words := split (sub_actions 0 text) in
      let clean := join " " words in
      Forall is_word words
      /\ single_spaced clean = true
      /\ split clean = words
      /\ _sanitize_reply text = with_period clean)
  /\ (forall clean, clean <> "" -> ends_sentence clean = false ->
                    with_period clean = clean +:+ ".")
  /\ (forall clean, clean = "" \/ ends_sentence clean = true ->
                    with_period clean = clean)
  /\ _sanitize_reply "Hey *winks* how are you" = "Hey how are you.".
Proof.
  intros Hwf. split; [by apply sub_actions_render |].
  split; [by rewrite sanitize_reply_unfold, sub_actions_render |].
  split; [| split; [| split]].
  - pose proof (split_words (sub_actions 0 text)) as Hw.
    split; [done |]. split; [by apply join_single_spaced |].
    split; [by apply split_join | apply sanitize_reply_unfold].
  - intros clean Hne Hend. unfold with_period. rewrite Hend.
    apply String.eqb_neq in Hne. by rewrite Hne.
  - intros clean [-> | Hend]; [done |]. unfold with_period.
    by rewrite Hend, andb_false_r.
  - reflexivity.
Qed.

Lemma sanitize_reply_cleans_witness :
  well_formed [Plain "Hey "; Action "winks"; Plain " how are you"] = true
  /\ _sanitize_reply (render [Plain "Hey "; Action "winks"; Plain " how are you"])
     = with_period (join " " (split "Hey  how are you")).
Proof.
  split; [reflexivity |].
  apply (sanitize_reply_cleans
           [Plain "Hey "; Action "winks"; Plain " how are you"] "").
  reflexivity.
Defined.

(** C7 as stated fails: of two spans that share an asterisk only the first
    is matched, and the sanitized text still holds the second. *)
Lemma sanitize_reply_keeps_span :
  contains "*a*" "**a*x*" = true
  /\ contains "*x*" "**a*x*" = true
  /\ _sanitize_reply "**a*x*" = "*x*."
  /\ contains "*x*" (_sanitize_reply "**a*x*") = true.
Proof. repeat split; reflexivity. Qed.

(** The whitespace may be any of Unicode: a no-break space (U+00A0) and an
    em space (U+2003) separate words like a space does. *)
Example sanitize_reply_unicode_space :
  _sanitize_reply ("hi" +:+ of_bytes [194; 160] +:+ "there"
                   +:+ of_bytes [226; 128; 131] +:+ " you")
  = "hi there you.".
Proof. reflexivity. Qed.

End SanitizeTheorem.

(** ** The usage tracker *)

Section UsageFacts.
Import MessageGenerator.

Lemma track_usage_total f model tokens :
  is_usage_state f = true ->
  usage_total (_track_usage f model tokens) = (usage_total f + tokens)%Z.
Proof. destruct f as [| |u]; done. Qed.

Lemma track_usage_model f model tokens :
  is_usage_state f = true ->
  usage_of_model (_track_usage f model tokens) model
  = (usage_of_model f model + tokens)%Z.
Proof.
  destruct f as [| |u]; [| done |]; intros _; simpl; by rewrite lookup_insert_eq.
Qed.

Lemma track_usage_state f model tokens :
  is_usage_state f = true -> is_usage_state (_track_usage f model tokens) = true.
Proof. destruct f; done. Qed.

(** C8: from a usage state (no file yet, or a file holding a usage
    object), recording 10 and then 5 tokens for ["model-a"] leaves its count
    15 above the prior one, an absent count being 0, and the total 15 above
    the prior total. *)
Theorem track_usage_accumulates (f : UsageFile) :
  is_usage_state f = true ->
  let f' := _track_usage (_track_usage f "model-a" 10) "model-a" 5 in
  usage_of_model f' "model-a" = (usage_of_model f "model-a" + 15)%Z
  /\ usage_total f' = (usage_total f + 15)%Z.
Proof.
  intros Hf f'. subst f'.
  pose proof (track_usage_state f "model-a" 10 Hf) as Hf'.
  rewrite !track_usage_model, !track_usage_total by done. lia.
Qed.

Lemma track_usage_accumulates_witness :
  is_usage_state (Stored (mkUsage (Some 7%Z) None)) = true
  /\ usage_of_model
       (_track_usage (_track_usage (Stored (mkUsage (Some 7%Z) None)) "model-a" 10)
                     "model-a" 5) "model-a" = 15%Z
  /\ usage_total
       (_track_usage (_track_usage (Stored (mkUsage (Some 7%Z) None)) "model-a" 10)
                     "model-a" 5) = 22%Z.
Proof.
  split; [reflexivity |].
  apply (track_usage_accumulates (Stored (mkUsage (Some 7%Z) None))).
  reflexivity.
Defined.

End UsageFacts.

(** ** The model input *)

Section BuildMessagesFacts.
Import PyStr MessageGenerator.

Lemma last_snoc_ne {A} (l : list A) (x : A) : l ++ [x] <> l.
Proof.
  intros Heq. apply (f_equal length) in Heq. rewrite length_app in Heq.
  simpl in Heq. lia.
Qed.

Lemma last_last_n {A} (n : nat) (l : list A) :
  0 < n -> last (last_n n l) = last l.
Proof.
  intros Hn. unfold last_n. rewrite !last_lookup, lookup_drop, length_drop.
  f_equal. destruct l as [|x l]; [done |]. simpl length. lia.
Qed.

Lemma history_messages_last name bio history :
  exists final,
    last (history_messages name bio history) = Some final
    /\ (length (last_n 10 history) <= 2 -> final = opener_prompt name bio)
    /\ (2 < length (last_n 10 history) -> last history = Some final).
Proof.
  unfold history_messages.
  destruct (length (last_n 10 history) <=? 2) eqn:Hlen.
  - apply Nat.leb_le in Hlen. exists (opener_prompt name bio).
    rewrite last_snoc. split; [done |]. split; [done | lia].
  - apply Nat.leb_gt in Hlen.
    destruct (last (last_n 10 history)) as [final|] eqn:Hlast.
    + exists final. split; [done |]. split; [lia |].
      intros _. rewrite <- Hlast. symmetry. apply last_last_n. lia.
    + apply last_None in Hlast. rewrite Hlast in Hlen. simpl in Hlen. lia.
Qed.

Lemma media_appended_spec name bio history final :
  last (history_messages name bio history) = Some final ->
  media_appended name bio history = mentions_media final.
Proof.
  intros Hlast. unfold media_appended, _build_messages. rewrite Hlast.
  destruct (mentions_media final).
  - by apply bool_decide_eq_true.
  - apply bool_decide_eq_false. intros Heq. symmetry in Heq.
    by apply last_snoc_ne in Heq.
Qed.

(** What [_build_messages] tests: the last message of the list built so
    far, the keywords being looked for in its lower-cased content; that
    message is the opener prompt when the recent history has at most two
    turns, and the last turn of the history, inbound or outbound,
    otherwise. *)
Lemma media_instruction_on_last_message (name bio : string) (history : list Message) :
  exists final,
    last (history_messages name bio history) = Some final
    /\ (length (last_n 10 history) <= 2 -> final = opener_prompt name bio)
    /\ (2 < length (last_n 10 history) -> last history = Some final)
    /\ media_appended name bio history = mentions_media final
    /\ (mentions_media final = true <->
        exists word, word ∈ media_words
                     /\ contains word (lower (default "" (content final))) = true).
Proof.
  destruct (history_messages_last name bio history) as (final & Hlast & Hshort & Hlong).
  exists final. repeat (split; [done |]).
  split; [by apply media_appended_spec |].
  unfold mentions_media. rewrite existsb_exists.
  split; intros (word & Hin & Hc); exists word; (split; [| done]).
  - by apply list_elem_of_In.
  - by apply list_elem_of_In.
Qed.

(** Where the code does what C9 says: the history has more than two turns
    and ends with an inbound one. *)
Lemma media_instruction_on_long_history (name bio : string) (history : list Message)
    (m : Message) :
  2 < length (last_n 10 history) ->
  last history = Some m ->
  role m = Some "user" ->
  latest_inbound history = Some m
  /\ media_appended name bio history = mentions_media m.
Proof.
  intros Hlen Hlast Hrole. split.
  - unfold latest_inbound. apply last_Some in Hlast as [l ->].
    rewrite filter_app, filter_cons_True, filter_nil by done. apply last_snoc.
  - destruct (history_messages_last name bio history) as (final & Hfinal & _ & Hlong).
    rewrite (media_appended_spec name bio history final Hfinal).
    specialize (Hlong Hlen). congruence.
Qed.

(** C9 fails on the code in both directions.  The newest inbound turn
    mentions a photo, but the history is short, so that the opener prompt
    was appended before the test and is the message tested: no media
    instruction is appended.  And with no turn at all the opener prompt,
    which quotes the bio, is tested: a bio that mentions photos has the
    media instruction appended though there is no inbound turn. *)
Lemma media_instruction_not_on_inbound :
  let history := [mkMessage (Some "user") (Some "check out my photo") (Some "T1")] in
  (exists m, latest_inbound history = Some m /\ mentions_media m = true)
  /\ media_appended "Ann" "" history = false
  /\ latest_inbound [] = None
  /\ media_appended "Ann" "loves photos" [] = true.
Proof.
  split; [| repeat split; reflexivity].
  eexists. split; reflexivity.
Qed.

End BuildMessagesFacts.

(** ** Stripping a completion changes neither the refusal test nor the
    sanitized text *)

Section StripFacts.
Import PyStr MessageGenerator.
Implicit Types (s t u p r w a b m cur : string) (c : ascii).

(** *** Lower case *)

Lemma lower_spaces : Forall (fun w => forall s, lower (w +:+ s) = w +:+ lower s) spaces.
Proof.
  unfold spaces. cbn [fmap list_fmap of_bytes foldr].
  repeat (constructor; [intros s; reflexivity |]). constructor.
Qed.

Lemma lower_blank a s : blank a -> lower (a +:+ s) = a +:+ lower s.
Proof.
  induction 1 as [|w a Hw Ha IH]; [done |].
  pose proof lower_spaces as H. rewrite Forall_forall in H.
  by rewrite !str_app_assoc, (H w Hw), IH.
Qed.

Lemma not_continuation c c' :
  continuation c = false -> continuation c' = true -> Ascii.eqb c c' = false.
Proof. intros Hc Hc'. apply Ascii.eqb_neq. congruence. Qed.

(** Lower-casing two texts one after the other, when the second begins a
    character. *)
Lemma lower_app_char m t :
  starts_char t = true -> lower (m +:+ t) = lower m +:+ lower t.
Proof.
  destruct t as [|c' t']; [intros _; cbn [lower]; by rewrite !str_app_nil_r |].
  cbn [starts_char]. intros Hc'%negb_true_iff.
  assert (H : forall n m, String.length m <= n ->
                lower (m +:+ String c' t') = lower m +:+ lower (String c' t')).
  { clear m. induction n as [|n IH]; intros m Hn.
    { destruct m; [done | simpl in Hn; lia]. }
    destruct m as [|c m1]; [done |]. simpl in Hn.
    rewrite str_app_cons. cbn [lower].
    destruct (Ascii.eqb c "226") eqn:H226.
    - destruct m1 as [|c1 m2].
      + rewrite str_app_nil_l. rewrite (not_continuation c' "132") by done.
        by destruct t'.
      + rewrite str_app_cons. destruct m2 as [|c2 m3].
        * rewrite str_app_nil_l.
          rewrite (not_continuation c' "170"), andb_false_r by done.
          rewrite str_app_cons. f_equal.
          apply (IH (String c1 "")). simpl in *. lia.
        * rewrite str_app_cons.
          destruct (Ascii.eqb c1 "132" && Ascii.eqb c2 "170").
          -- rewrite IH by (simpl in Hn; lia). done.
          -- rewrite <- !str_app_cons, IH by (simpl in *; lia). done.
    - destruct (Ascii.eqb c "196") eqn:H196.
      + destruct m1 as [|c1 m2].
        * rewrite str_app_nil_l. by rewrite (not_continuation c' "176") by done.
        * rewrite str_app_cons. destruct (Ascii.eqb c1 "176").
          -- rewrite IH by (simpl in Hn; lia). done.
          -- rewrite <- str_app_cons, IH by (simpl in *; lia). done.
      + rewrite IH by lia. done. }
  by apply (H (String.length m)).
Qed.

(** *** Searching a phrase in a text with whitespace around it *)

Lemma contains_cons p c s :
  contains p (String c s) = String.prefix p (String c s) || contains p s.
Proof. reflexivity. Qed.

Lemma contains_drop_l p a s :
  tight p = true -> all_bytes (fun c => negb (solid c)) a = true ->
  contains p (a +:+ s) = contains p s.
Proof.
  destruct p as [|c0 p]; [done |]. intros [Hc0 _]%andb_true_iff.
  induction a as [|c a IH]; [done |]. cbn [all_bytes].
  intros [Hc Ha]%andb_true_iff. apply negb_true_iff in Hc.
  rewrite str_app_cons, contains_cons, prefix_cons, IH by done.
  case_decide; [congruence | done].
Qed.

Lemma prefix_not_solid p b :
  p <> "" -> (forall c, last_char p = Some c -> solid c = true) ->
  all_bytes (fun c => negb (solid c)) b = true ->
  String.prefix p b = false.
Proof.
  intros Hne Hlast. revert b. induction p as [|c0 p IH]; intros b Hb; [done |].
  destruct b as [|c b]; [done |]. cbn [all_bytes] in Hb.
  apply andb_true_iff in Hb as [Hc Hb]. apply negb_true_iff in Hc.
  rewrite prefix_cons. case_decide as Heq; [| done]. subst c.
  destruct p as [|c1 p].
  - rewrite (Hlast c0) in Hc; done.
  - apply IH; [done | | done]. intros c' Hc'. by apply Hlast.
Qed.

Lemma prefix_drop_r p u b :
  p <> "" -> (forall c, last_char p = Some c -> solid c = true) ->
  all_bytes (fun c => negb (solid c)) b = true ->
  String.prefix p (u +:+ b) = String.prefix p u.
Proof.
  intros Hne Hlast Hb. revert p Hne Hlast. induction u as [|c u IH]; intros p Hne Hlast.
  - rewrite str_app_nil_l, prefix_not_solid by done. by destruct p.
  - destruct p as [|c0 p]; [done |]. rewrite str_app_cons, !prefix_cons.
    case_decide; [| done]. destruct p as [|c1 p]; [by rewrite !prefix_nil |].
    apply IH; [done |]. intros c' Hc'. by apply Hlast.
Qed.

Lemma contains_drop_r p s b :
  tight p = true -> all_bytes (fun c => negb (solid c)) b = true ->
  contains p (s +:+ b) = contains p s.
Proof.
  intros Hp Hb.
  assert (Hne : p <> "") by by destruct p.
  assert (Hlast : forall c, last_char p = Some c -> solid c = true).
  { destruct p as [|c0 p]; [done |]. apply andb_true_iff in Hp as [_ Hp].
    intros c Hc. by rewrite Hc in Hp. }
  induction s as [|c s IH].
  - rewrite str_app_nil_l. rewrite <- (str_app_nil_r b), contains_drop_l by done. done.
  - rewrite str_app_cons, !contains_cons, IH. f_equal.
    rewrite <- str_app_cons. by apply prefix_drop_r.
Qed.

Lemma contains_lower_strip p s :
  tight p = true -> contains p (lower (strip s)) = contains p (lower s).
Proof.
  intros Hp. destruct (strip_decomp s) as (a & b & Ha & Hb & Heq).
  rewrite Heq at 2.
  rewrite lower_blank, lower_app_char by (done || by apply blank_starts_char).
  rewrite <- (str_app_nil_r b) at 1. rewrite lower_blank, str_app_nil_r by done.
  rewrite contains_drop_l, contains_drop_r by (done || by apply blank_not_solid).
  done.
Qed.

Lemma is_refusal_strip text : _is_refusal (strip text) = _is_refusal text.
Proof.
  unfold _is_refusal.
  assert (Htight : forallb tight refusal_patterns = true) by reflexivity.
  induction refusal_patterns as [|p ps IH]; [done |].
  simpl in Htight. apply andb_true_iff in Htight as [Hp Hps].
  simpl. by rewrite contains_lower_strip, IH.
Qed.

(** *** Removing the spans of a text with whitespace around it *)

Lemma span_close_none s n : star_free s = true -> span_close n s = None.
Proof.
  revert n. induction s as [|c s IH]; intros n; [done |]. simpl.
  intros [Hc Hs]%andb_true_iff. apply negb_true_iff in Hc. rewrite Hc. by apply IH.
Qed.

Lemma span_close_app_r m b n :
  star_free b = true -> span_close n (m +:+ b) = span_close n m.
Proof.
  intros Hb. revert n. induction m as [|c m IH]; intros n.
  - by rewrite str_app_nil_l, span_close_none.
  - rewrite str_app_cons. cbn [span_close]. by rewrite IH.
Qed.

Lemma span_close_le a n0 n : span_close n0 a = Some n -> n <= n0 + String.length a + 1.
Proof.
  revert n0. induction a as [|c a IH]; intros n0; [done |].
  cbn [span_close String.length]. destruct (Ascii.eqb c "*").
  - destruct n0; [done |]. intros [= <-]. lia.
  - intros Hn%IH. lia.
Qed.

Lemma sub_actions_star_free s : star_free s = true -> sub_actions 0 s = s.
Proof.
  intros Hs. rewrite <- (str_app_nil_r s) at 1.
  by rewrite sub_actions_plain, str_app_nil_r.
Qed.

(** Text without an asterisk after a text is left as it is. *)
Lemma sub_actions_app_r m b k :
  star_free b = true -> k <= String.length m ->
  sub_actions k (m +:+ b) = sub_actions k m +:+ b.
Proof.
  intros Hb. revert k. induction m as [|c m IH]; intros k Hk.
  - simpl in Hk. assert (k = 0) as -> by lia.
    by rewrite !str_app_nil_l, sub_actions_star_free.
  - simpl in Hk. rewrite str_app_cons. destruct k as [|k]; cbn [sub_actions].
    + unfold match_action. rewrite span_close_app_r by done.
      destruct (if Ascii.eqb c "*" then span_close 0 m else None) as [n|] eqn:Hm.
      * apply IH. destruct (Ascii.eqb c "*"); [| done].
        apply span_close_le in Hm. lia.
      * rewrite IH by lia. done.
    + apply IH. lia.
Qed.

Lemma split_sub_actions_strip s :
  split (sub_actions 0 (strip s)) = split (sub_actions 0 s).
Proof.
  destruct (strip_decomp s) as (a & b & Ha & Hb & Heq). rewrite Heq at 2.
  rewrite sub_actions_plain by by apply blank_star_free.
  rewrite sub_actions_app_r by (by apply blank_star_free || lia).
  by rewrite split_blank_l, split_blank_r.
Qed.

Lemma sanitize_reply_strip text : _sanitize_reply (strip text) = _sanitize_reply text.
Proof. by rewrite !sanitize_reply_unfold, split_sub_actions_strip. Qed.

End StripFacts.

(** ** The reply generator *)

Section GenerateFacts.
Import PyStr MessageGenerator.
Implicit Types (s t u p r w a cur ws : string) (c : ascii).
Implicit Types (env : Env) (wd : World).

Lemma span_close_bound t a n0 n :
  star_free t = true -> span_close n0 (a +:+ t) = Some n ->
  n <= n0 + String.length a + 1.
Proof.
  intros Ht. revert n0. induction a as [|c a IH]; intros n0.
  - rewrite str_app_nil_l, span_close_none by done. done.
  - rewrite str_app_cons. cbn [span_close String.length].
    destruct (Ascii.eqb c "*").
    + destruct n0; [done |]. intros [= <-]. lia.
    + intros Hn%IH. lia.
Qed.

(** Text without an asterisk at the end of a reply is still there after
    the spans are removed. *)
Lemma sub_actions_tail t a k :
  star_free t = true -> k <= String.length a ->
  exists x, sub_actions k (a +:+ t) = x +:+ t.
Proof.
  intros Ht. revert k. induction a as [|c a IH]; intros k Hk.
  - simpl in Hk. assert (k = 0) as -> by lia. exists "".
    rewrite !str_app_nil_l. rewrite <- (str_app_nil_r t) at 1.
    by rewrite sub_actions_plain, str_app_nil_r.
  - rewrite str_app_cons. simpl in Hk. destruct k as [|k]; cbn [sub_actions].
    + destruct (match_action (String c (a +:+ t))) as [n|] eqn:Hm.
      * apply IH. unfold match_action in Hm.
        destruct (Ascii.eqb c "*"); [| done].
        apply span_close_bound in Hm; [lia | done].
      * destruct (IH 0) as [x Hx]; [lia |]. exists (String c x).
        by rewrite Hx.
    + apply IH. lia.
Qed.

Lemma some_byte_not_all P s :
  some_byte P s = true -> all_bytes (fun c => negb (P c)) s = false.
Proof.
  induction s as [|c s IH]; [done |]. cbn. destruct (P c); [done |]. apply IH.
Qed.

(** A text that ends on asterisk-free text holding an ASCII character
    other than whitespace is not sanitized to nothing. *)
Lemma sanitize_tail_nonempty a t :
  star_free t = true -> some_byte solid t = true -> _sanitize_reply (a +:+ t) <> "".
Proof.
  intros Ht Hsolid. apply sanitize_reply_nonempty. intros Hnil.
  destruct (sub_actions_tail t a 0 Ht) as [x Hx]; [lia |].
  rewrite Hx in Hnil. apply split_nil, blank_not_solid in Hnil.
  rewrite all_bytes_app in Hnil. apply andb_true_iff in Hnil as [_ Hnil].
  by rewrite some_byte_not_all in Hnil.
Qed.

Lemma fallbacks_nonempty name r : r ∈ fallbacks name -> r <> "".
Proof.
  unfold fallbacks. rewrite !elem_of_cons, elem_of_nil.
  intros [-> | [-> | [-> | [-> | [-> | []]]]]]; try done.
  intros [_ ?]%str_app_eq_nil. done.
Qed.

(** Each fallback ends on a fixed text, so its sanitization is not
    empty whatever the name. *)
Lemma fallbacks_sanitized_nonempty name r :
  r ∈ fallbacks name -> _sanitize_reply r <> "".
Proof.
  unfold fallbacks. rewrite !elem_of_cons, elem_of_nil.
  intros [-> | [-> | [-> | [-> | [-> | []]]]]];
    rewrite <- ?str_app_assoc; by apply sanitize_tail_nonempty.
Qed.

Lemma generate_fallback_in env wd name :
  (_generate_fallback env wd name).1 ∈ fallbacks name.
Proof.
  unfold _generate_fallback. cbn [fst].
  destruct (fallbacks name !! (choice env (draws wd) mod length (fallbacks name)))
    as [r|] eqn:Hr.
  - simpl. by apply list_elem_of_lookup_2 in Hr.
  - apply lookup_ge_None in Hr.
    pose proof (Nat.mod_upper_bound (choice env (draws wd)) (length (fallbacks name))) as Hb.
    simpl in Hb, Hr. lia.
Qed.

Lemma call_claude_ok env wd system_prompt msgs reply wd' :
  _call_claude env wd system_prompt msgs = (Ok reply, wd') ->
  exists text tokens,
    backend env (length (requests wd)) system_prompt msgs = Completion text tokens
    /\ reply = strip text
    /\ requests wd' = (system_prompt, msgs) :: requests wd.
Proof.
  unfold _call_claude.
  destruct (backend env (length (requests wd)) system_prompt msgs) as [|text tokens];
    [done |].
  intros [= <- <-]. by exists text, tokens.
Qed.

Lemma call_claude_down env wd system_prompt msgs :
  backend_down env ->
  _call_claude env wd system_prompt msgs
  = (Raise, mkWorld ((system_prompt, msgs) :: requests wd) (usage_file wd)
                    (draws wd) (slept wd)).
Proof. intros Hdown. unfold _call_claude. by rewrite Hdown. Qed.

(** Every entry of the personality table renders: only the default profile
    has a template, and its two fields are the date and the time. *)
Lemma render_personality env personality :
  exists system_prompt,
    _render_time_aware_prompt env
      (prompt_or_profile (default default_profile
                            (personality_get PERSONALITIES personality)))
    = Ok system_prompt.
Proof.
  unfold PERSONALITIES. cbn [personality_get].
  repeat (match goal with
          | |- context [String.eqb ?k personality] => destruct (String.eqb k personality)
          end;
          [eexists; vm_compute; reflexivity |]).
  eexists; vm_compute; reflexivity.
Qed.

Lemma render_flirty env :
  _render_time_aware_prompt env (prompt_or_profile flirty_profile) = Ok "".
Proof. reflexivity. Qed.

Lemma last_answer_posted env wd system_prompt msgs usage draws slept :
  last_answer env (mkWorld ((system_prompt, msgs) :: requests wd) usage draws slept)
  = Some (backend env (length (requests wd)) system_prompt msgs).
Proof. reflexivity. Qed.

(** What a call of the backend leaves: one request more, answered by what
    the call came to. *)
Lemma call_claude_last env wd system_prompt msgs :
  let '(res, wd') := _call_claude env wd system_prompt msgs in
  length (requests wd') = S (length (requests wd))
  /\ match res with
     | Ok reply =>
         exists text tokens,
           last_answer env wd' = Some (Completion text tokens)
           /\ reply = strip text
     | Raise => last_answer env wd' = Some Failure
     end.
Proof.
  unfold _call_claude.
  destruct (backend env (length (requests wd)) system_prompt msgs)
    as [|text tokens] eqn:Hb.
  - split; [done |]. by rewrite last_answer_posted, Hb.
  - split; [done |]. exists text, tokens. by rewrite last_answer_posted, Hb.
Qed.

Lemma generate_fallback_requests env wd name :
  requests (_generate_fallback env wd name).2 = requests wd.
Proof. reflexivity. Qed.

Lemma last_answer_requests env wd wd' :
  requests wd' = requests wd -> last_answer env wd' = last_answer env wd.
Proof. unfold last_answer. by intros ->. Qed.

(** One attempt: it posts a request at least, and what it comes to goes by
    the answer to the last one. *)
Lemma attempt_last env wd system_prompt msgs name :
  let '(res, _, wd') := attempt env wd system_prompt msgs name in
  length (requests wd) < length (requests wd')
  /\ match res with
     | Ok reply =>
         exists answer, last_answer env wd' = Some answer
                        /\ reply_of_answer name answer reply
                        /\ answer <> Failure
     | Raise => last_answer env wd' = Some Failure
     end.
Proof.
  unfold attempt.
  pose proof (call_claude_last env wd system_prompt msgs) as H1.
  destruct (_call_claude env wd system_prompt msgs) as [[reply1|] wd1];
    destruct H1 as [Hlen1 H1]; [| split; [lia | done]].
  destruct H1 as (text1 & tok1 & Hlast1 & ->). rewrite is_refusal_strip.
  destruct (_is_refusal text1) eqn:Hr1.
  - rewrite render_flirty.
    pose proof (call_claude_last env wd1 "" msgs) as H2.
    destruct (_call_claude env wd1 "" msgs) as [[reply2|] wd2];
      destruct H2 as [Hlen2 H2]; [| split; [lia | done]].
    destruct H2 as (text2 & tok2 & Hlast2 & ->). rewrite is_refusal_strip.
    destruct (_is_refusal text2) eqn:Hr2.
    + pose proof (generate_fallback_in env wd2 name) as Hin.
      pose proof (generate_fallback_requests env wd2 name) as Hreq.
      destruct (_generate_fallback env wd2 name) as [fb wd3]. cbn [fst snd] in *.
      split; [rewrite Hreq; lia |].
      exists (Completion text2 tok2). rewrite (last_answer_requests _ _ _ Hreq).
      split; [done |]. split; [| done]. unfold reply_of_answer. rewrite Hr2. by exists fb.
    + split; [lia |]. exists (Completion text2 tok2). split; [done |].
      split; [| done]. unfold reply_of_answer. by rewrite Hr2, sanitize_reply_strip.
  - split; [lia |]. exists (Completion text1 tok1). split; [done |].
    split; [| done]. unfold reply_of_answer. by rewrite Hr1, sanitize_reply_strip.
Qed.

Lemma attempts_last env wd system_prompt msgs name range :
  let '(reply, wd') := attempts env wd system_prompt msgs name range in
  if range is [] then requests wd' = requests wd /\ reply ∈ fallbacks name
  else length (requests wd) < length (requests wd')
       /\ exists answer, last_answer env wd' = Some answer
                         /\ reply_of_answer name answer reply.
Proof.
  revert wd system_prompt. induction range as [|n range IH]; intros wd system_prompt.
  - cbn [attempts]. pose proof (generate_fallback_in env wd name) as Hin.
    pose proof (generate_fallback_requests env wd name) as Hreq.
    by destruct (_generate_fallback env wd name).
  - cbn [attempts].
    pose proof (attempt_last env wd system_prompt msgs name) as Ha.
    destruct (attempt env wd system_prompt msgs name) as [[[reply|] sp'] wd1];
      destruct Ha as [Hlen Ha].
    + split; [done |]. destruct Ha as (answer & Hlast & Hreply & _). by exists answer.
    + set (wd2 := if n <? max_retries - 1 then sleep wd1 (2 ^ Z.of_nat n) else wd1).
      assert (Hreq : requests wd2 = requests wd1) by (subst wd2; by destruct (n <? _)).
      specialize (IH wd2 sp').
      destruct (attempts env wd2 sp' msgs name range) as [reply wd'].
      destruct range as [|n' range].
      * destruct IH as [Hreq' Hin]. split; [rewrite Hreq', Hreq; lia |].
        exists Failure. split; [| done].
        rewrite (last_answer_requests _ wd2) by done.
        by rewrite (last_answer_requests _ wd1).
      * destruct IH as [Hlen' Hans]. split; [rewrite Hreq in Hlen'; lia | done].
Qed.

Lemma attempt_down env wd system_prompt msgs name :
  backend_down env ->
  exists wd', attempt env wd system_prompt msgs name = (Raise, system_prompt, wd').
Proof. intros Hdown. unfold attempt. rewrite call_claude_down by done. by eexists. Qed.

Lemma attempts_down env wd system_prompt msgs name range :
  backend_down env ->
  (attempts env wd system_prompt msgs name range).1 ∈ fallbacks name.
Proof.
  intros Hdown. revert wd. induction range as [|n range IH]; intros wd.
  - apply generate_fallback_in.
  - cbn [attempts].
    destruct (attempt_down env wd system_prompt msgs name Hdown) as [wd' ->].
    apply IH.
Qed.

(** The generator returns. *)
Lemma generate_reply_total env wd (name bio : string)
    (chat_history : list Message) (personality : string) :
  exists reply wd',
    generate_reply env wd name bio chat_history personality = (Ok reply, wd').
Proof.
  unfold generate_reply.
  destruct (render_personality env personality) as [system_prompt ->].
  destruct (attempts env wd system_prompt (_build_messages name bio chat_history)
              name (seq 0 max_retries)) as [reply wd'].
  by exists reply, wd'.
Qed.

Lemma reply_of_answer_empty name answer reply :
  reply_of_answer name answer reply ->
  (reply = "" <->
   exists text tokens, answer = Completion text tokens
                       /\ _is_refusal text = false /\ _sanitize_reply text = "").
Proof.
  destruct answer as [|text tokens]; unfold reply_of_answer.
  - intros Hin. split; [| by intros (? & ? & ? & _)].
    intros ->. by apply fallbacks_nonempty in Hin.
  - destruct (_is_refusal text) eqn:Hr.
    + intros (fb & Hin & ->). split.
      * intros He. by apply (fallbacks_sanitized_nonempty name) in Hin.
      * intros (? & ? & [= <- _] & ? & _). congruence.
    + intros ->. split.
      * intros He. by exists text, tokens.
      * by intros (? & ? & [= <- _] & _ & ?).
Qed.

(** C3, as amended: [generate_reply] raises for no input and returns a
    string.  It posts a request at least, and the string goes by the
    answer of the backend to the last one it posted: a completion that is
    no refusal is returned sanitized, a refusal gives a sanitized fallback
    reply, an error a fallback reply.  So the string is empty exactly when
    that last answer is a completion that is no refusal and that the
    sanitization reduces to nothing; and it is one of the fallback replies,
    which are not empty, when every backend call raises. *)
Theorem generate_reply_returns env wd (name bio : string)
    (chat_history : list Message) (personality : string) :
  exists reply wd' answer,
    generate_reply env wd name bio chat_history personality = (Ok reply, wd')
    /\ length (requests wd) < length (requests wd')
    /\ last_answer env wd' = Some answer
    /\ (forall text tokens,
          answer = Completion text tokens -> _is_refusal text = false ->
          reply = _sanitize_reply text)
    /\ (forall text tokens,
          answer = Completion text tokens -> _is_refusal text = true ->
          reply <> ""
          /\ exists fallback, fallback ∈ fallbacks name
                              /\ reply = _sanitize_reply fallback)
    /\ (answer = Failure -> reply ∈ fallbacks name /\ reply <> "")
    /\ (reply = "" <->
        exists text tokens,
          answer = Completion text tokens
          /\ _is_refusal text = false /\ _sanitize_reply text = "")
    /\ (backend_down env -> reply ∈ fallbacks name /\ reply <> "").
Proof.
  unfold generate_reply.
  destruct (render_personality env personality) as [system_prompt ->].
  pose proof (attempts_last env wd system_prompt
                (_build_messages name bio chat_history) name (seq 0 max_retries)) as Hlast.
  pose proof (attempts_down env wd system_prompt
                (_build_messages name bio chat_history) name (seq 0 max_retries)) as Hdown.
  destruct (attempts env wd system_prompt (_build_messages name bio chat_history)
              name (seq 0 max_retries)) as [reply wd'].
  cbn [max_retries seq] in Hlast. destruct Hlast as (Hlen & answer & Hans & Hreply).
  exists reply, wd', answer. split; [done |]. split; [done |]. split; [done |].
  split; [| split; [| split; [| split]]].
  - intros text tokens -> Hr. unfold reply_of_answer in Hreply. by rewrite Hr in Hreply.
  - intros text tokens -> Hr. unfold reply_of_answer in Hreply. rewrite Hr in Hreply.
    destruct Hreply as (fb & Hin & ->). split; [| by exists fb].
    by apply (fallbacks_sanitized_nonempty name).
  - intros ->. unfold reply_of_answer in Hreply. split; [done |]. by eapply fallbacks_nonempty.
  - by apply (reply_of_answer_empty name).
  - intros Hd. cbn [fst] in Hdown. split; [by apply Hdown |].
    eapply fallbacks_nonempty. by apply Hdown.
Qed.

(** C3 as stated fails: the backend answers with a stage direction only,
    which is no refusal, and the reply returned is the empty string. *)
Lemma generate_reply_empty :
  let env := mkEnv (fun _ _ _ => Completion "*smiles*" None) (fun _ => 0)
                   "January 01, 2026" "12:00" (fun _ _ => Raise) in
  (generate_reply env (mkWorld [] Absent 0 []) "Ann" "" [] "default").1 = Ok "".
Proof. vm_compute. reflexivity. Qed.

(** So does a completion of whitespace only, here a no-break space. *)
Example generate_reply_empty_space :
  let env := mkEnv (fun _ _ _ => Completion (of_bytes [194; 160]) None) (fun _ => 0)
                   "January 01, 2026" "12:00" (fun _ _ => Raise) in
  (generate_reply env (mkWorld [] Absent 0 []) "Ann" "" [] "default").1 = Ok "".
Proof. vm_compute. reflexivity. Qed.

(** C6, as amended: when the first completion is a refusal and the second
    is not, the generator posts exactly two requests, the second with the
    prompt of the alternate profile in place of the first, and returns the
    sanitized second completion.  (The refusal test is made on the second
    completion as the backend gave it, not on what is returned.) *)
Theorem refusal_recovery env wd (name bio : string) (chat_history : list Message)
    (personality : string) (text1 text2 : string) (tokens1 tokens2 : option Z) :
  (forall system_prompt msgs,
     backend env (length (requests wd)) system_prompt msgs = Completion text1 tokens1) ->
  _is_refusal text1 = true ->
  (forall system_prompt msgs,
     backend env (S (length (requests wd))) system_prompt msgs = Completion text2 tokens2) ->
  _is_refusal text2 = false ->
  exists system_prompt alternate wd',
    _render_time_aware_prompt env
      (prompt_or_profile (default default_profile
                            (personality_get PERSONALITIES personality)))
    = Ok system_prompt
    /\ _render_time_aware_prompt env (prompt_or_profile flirty_profile) = Ok alternate
    /\ generate_reply env wd name bio chat_history personality
       = (Ok (_sanitize_reply text2), wd')
    /\ requests wd'
       = [(alternate, _build_messages name bio chat_history);
          (system_prompt, _build_messages name bio chat_history)] ++ requests wd.
Proof.
  intros Hb1 Hr1 Hb2 Hr2.
  destruct (render_personality env personality) as [system_prompt Hsp].
  exists system_prompt, "". eexists. split; [done |]. split; [done |].
  unfold generate_reply. rewrite Hsp. cbn [max_retries seq attempts].
  unfold attempt, _call_claude at 1. rewrite Hb1, is_refusal_strip, Hr1, render_flirty.
  unfold _call_claude. cbn [requests length]. rewrite Hb2, is_refusal_strip, Hr2.
  rewrite sanitize_reply_strip. split; reflexivity.
Qed.

Lemma refusal_recovery_witness :
  let env := mkEnv (fun n _ _ => match n with
                                 | 0 => Completion "I'm sorry, as an AI I cannot" None
                                 | _ => Completion " Hey *winks* how are you " (Some 6%Z)
                                 end)
                   (fun _ => 0) "January 01, 2026" "12:00" (fun _ _ => Raise) in
  exists wd',
    generate_reply env (mkWorld [] Absent 0 []) "Ann" "" [] "default"
    = (Ok "Hey how are you.", wd').
Proof.
  intros env.
  destruct (refusal_recovery env (mkWorld [] Absent 0 []) "Ann" "" [] "default"
              "I'm sorry, as an AI I cannot" " Hey *winks* how are you "
              None (Some 6%Z))
    as (system_prompt & alternate & wd' & _ & _ & Hgen & _);
    [reflexivity | reflexivity | reflexivity | reflexivity |].
  exists wd'. exact Hgen.
Defined.

(** C6 as stated fails: the first completion is a refusal, the second is
    not, and what is returned is the text of the first, a refusal: the
    sanitization of the second removes the span that kept its words
    apart. *)
Lemma refusal_text_returned :
  let env := mkEnv (fun n _ _ => match n with
                                 | 0 => Completion "I'm sorry." None
                                 | _ => Completion "I'm *x* sorry" None
                                 end)
                   (fun _ => 0) "January 01, 2026" "12:00" (fun _ _ => Raise) in
  _is_refusal "I'm sorry." = true
  /\ _is_refusal "I'm *x* sorry" = false
  /\ (generate_reply env (mkWorld [] Absent 0 []) "Ann" "" [] "default").1
     = Ok "I'm sorry."
  /\ _is_refusal (_sanitize_reply "I'm *x* sorry") = true.
Proof. repeat split; vm_compute; reflexivity. Qed.

End GenerateFacts.

(** ** The message pipeline *)

Section PipelineFacts.
Import MessageHandler.
Context (sv : Services) (cfg : Config).
Implicit Types (h : t sv) (m : Match) (id : string).

Lemma msg_id_of_Some m id :
  msg_id_of m = Some id <->
  exists newest, last_user_msg m = Some newest
                 /\ id = make_msg_id (match_id m) (default "" (timestamp newest)).
Proof.
  unfold msg_id_of. destruct (last_user_msg m) as [newest|]; simpl.
  - split; [intros [= <-]; by eexists | intros (? & [= <-] & ->); done].
  - split; [done | intros (? & ? & _); done].
Qed.

(** A match without inbound message is skipped. *)
Lemma process_match_no_inbound h m :
  msg_id_of m = None -> process_match sv cfg h m = (h, None).
Proof.
  unfold msg_id_of, process_match. by destruct (last_user_msg m).
Qed.

(** A match of which the newest inbound message is recorded is skipped. *)
Lemma process_match_seen h m id :
  msg_id_of m = Some id -> id ∈ processed_messages h ->
  process_match sv cfg h m = (h, None).
Proof.
  intros (newest & Hlast & ->)%msg_id_of_Some Hin.
  unfold process_match. rewrite Hlast. by rewrite decide_True.
Qed.

(** What one match adds to the events, and to the recorded ids. *)
Lemma process_match_effect h m :
  exists new,
    events (process_match sv cfg h m).1 = events h ++ new
    /\ processed_messages h ⊆ processed_messages (process_match sv cfg h m).1
    /\ (forall e, e ∈ new ->
         event_match e = m
         /\ exists id, msg_id_of m = Some id /\ id ∉ processed_messages h).
Proof.
  destruct (msg_id_of m) as [id|] eqn:Hid.
  2: { rewrite process_match_no_inbound by done. exists [].
       rewrite app_nil_r. split; [done |]. split; [done |].
       intros e []%elem_of_nil. }
  destruct (decide (id ∈ processed_messages h)) as [Hin|Hnin].
  { rewrite (process_match_seen h m id) by done. exists [].
    rewrite app_nil_r. split; [done |]. split; [done |].
    intros e []%elem_of_nil. }
  pose proof Hid as (newest & Hlast & ->)%msg_id_of_Some.
  unfold process_match. rewrite Hlast, decide_False by done.
  destruct (generate_reply sv (generator h) _ _ _ _) as [[reply|] g].
  - destruct (auto_approve cfg).
    + destruct (_send_reply sv cfg (length (events h)) (api_client h) (match_id m) reply) as [success a].
      exists [Generate m (personality cfg); Send m reply success]. cbn.
      split; [by rewrite <- app_assoc |]. split; [set_solver |].
      intros e. rewrite !elem_of_cons, elem_of_nil.
      intros [-> | [-> | []]]; (split; [done | by eexists]).
    + exists [Generate m (personality cfg)]. cbn.
      split; [done |]. split; [set_solver |].
      intros e ->%list_elem_of_singleton. split; [done | by eexists].
  - exists [Generate m (personality cfg)]. cbn.
    split; [done |]. split; [done |].
    intros e ->%list_elem_of_singleton. split; [done | by eexists].
Qed.

Lemma step_events_spec h m new :
  events (process_match sv cfg h m).1 = events h ++ new ->
  step_events sv cfg h m = new.
Proof. intros Hev. unfold step_events. by rewrite Hev, drop_app_length. Qed.

(** What a pass adds: every event is for a match of which the newest
    inbound message was not recorded when the pass began. *)
Lemma process_matches_effect h matches :
  exists new,
    events (process_matches sv cfg h matches).1 = events h ++ new
    /\ processed_messages h ⊆ processed_messages (process_matches sv cfg h matches).1
    /\ (forall e, e ∈ new ->
         exists id, msg_id_of (event_match e) = Some id
                    /\ id ∉ processed_messages h).
Proof.
  revert h. induction matches as [|m matches IH]; intros h.
  - exists []. rewrite app_nil_r. split; [done |]. split; [done |].
    intros e []%elem_of_nil.
  - cbn [process_matches].
    destruct (process_match_effect h m) as (new1 & Hev1 & Hsub1 & Hnew1).
    destruct (process_match sv cfg h m) as [h1 entry]. cbn [fst] in *.
    destruct (IH h1) as (new2 & Hev2 & Hsub2 & Hnew2).
    destruct (process_matches sv cfg h1 matches) as [h2 processed]. cbn [fst] in *.
    exists (new1 ++ new2). split; [by rewrite Hev2, Hev1, <- app_assoc |].
    split; [by etrans |].
    intros e [He|He]%elem_of_app.
    + destruct (Hnew1 e He) as (Hm & id & Hid & Hnin). rewrite Hm. by exists id.
    + destruct (Hnew2 e He) as (id & Hid & Hnin). exists id. split; [done |].
      intros Hin. by apply Hnin, Hsub1.
Qed.


(** A match with a new inbound message has the generator called. *)
Lemma process_match_generates h m id :
  msg_id_of m = Some id -> id ∉ processed_messages h ->
  exists rest,
    events (process_match sv cfg h m).1
    = events h ++ Generate m (personality cfg) :: rest.
Proof.
  intros (newest & Hlast & ->)%msg_id_of_Some Hnin.
  unfold process_match. rewrite Hlast, decide_False by done.
  destruct (generate_reply sv (generator h) _ _ _ _) as [[reply|] g].
  - destruct (auto_approve cfg).
    + destruct (_send_reply sv cfg (length (events h)) (api_client h) (match_id m) reply) as [success a].
      exists [Send m reply success]. cbn. by rewrite <- app_assoc.
    + by exists [].
  - by exists [].
Qed.



(** C4, as amended: the pipeline does not look a conversation up in the
    rejected set.  For a conversation of the set, as for any other, the
    generator is called exactly when the conversation has an inbound
    message of which the newest is not recorded yet. *)
Theorem rejected_not_consulted (dm : DataManager.t) h (m : Match) :
  DataManager.is_rejected dm (conversation_id m) = true ->
  (Generate m (personality cfg) ∈ step_events sv cfg h m
   <-> exists id, msg_id_of m = Some id /\ id ∉ processed_messages h).
Proof.
  intros _. destruct (process_match_effect h m) as (new & Hev & _ & Hnew).
  rewrite (step_events_spec h m new Hev). split.
  - intros He. by destruct (Hnew _ He) as (_ & Hid).
  - intros (id & Hid & Hnin).
    destruct (process_match_generates h m id Hid Hnin) as [rest Hrest].
    rewrite Hrest in Hev. apply app_inv_head in Hev. subst new.
    apply list_elem_of_here.
Qed.

End PipelineFacts.

(** ** The calls the sink receives *)

Section SinkFacts.
Import MessageHandler.

(** With a typing delay of one second at least the pause does not raise. *)
Lemma typing_pause_ok (delay jitter : Q) :
  (1 <= delay)%Q -> (-(1) <= jitter)%Q -> typing_pause (Some delay) jitter = Ok tt.
Proof.
  intros Hd Hj. unfold typing_pause.
  assert (H : (0 <= delay + jitter)%Q).
  { apply Qle_trans with (1 + -(1))%Q; [done |]. by apply Qplus_le_compat. }
  apply Qle_bool_iff in H. by rewrite H.
Qed.

(** A pause that raises ends [_send_reply] before the client is called. *)
Lemma send_reply_no_pause (sv : Services) (cfg : Config) n a match_id message :
  typing_pause (typing_delay cfg) (uniform sv n) = Raise ->
  _send_reply sv cfg n a match_id message = (false, a).
Proof. intros Hp. unfold _send_reply. by rewrite Hp. Qed.

(** What [_send_reply] does on a sink that records its calls and always
    reports a delivery, when the pause does not raise. *)
Lemma send_reply_recorded (sv : Services) (cfg : Config) n
    (a : Api (recording sv)) match_id message :
  typing_pause (typing_delay cfg) (uniform sv n) = Ok tt ->
  sink_succeeds sv ->
  exists a', _send_reply (recording sv) cfg n a match_id message
             = (true, (a', a.2 ++ [(match_id, message)])).
Proof.
  intros Hp Hsink. unfold _send_reply. cbn [uniform recording send_message].
  rewrite Hp. pose proof (Hsink a.1 match_id message) as Hs.
  destruct (send_message sv a.1 match_id message) as [o a'].
  cbn [fst] in Hs. subst o. by exists a'.
Qed.

(** One conversation [C1] of which the newest inbound message has the
    timestamp [T1] and is not recorded yet, auto-approve on, a typing delay
    of one second at least, a sink that always delivers: the pass calls
    the sink once, for [C1] and with the reply the generator returned,
    records the message under the id made of [C1] and [T1], and writes the
    reply as sent to both logs; a second pass over the same list, under any
    configuration, changes nothing, so the sink is not called again. *)
Theorem single_conversation_sent_once (sv : Services) (cfg : Config)
    (h : t (recording sv)) (c1 : Match) (newest : Message) (C1 T1 : string)
    (delay : Q) :
  auto_approve cfg = true ->
  typing_delay cfg = Some delay ->
  (1 <= delay)%Q ->
  uniform_in_range sv ->
  generator_returns sv ->
  sink_succeeds sv ->
  match_id c1 = Some C1 ->
  last_user_msg c1 = Some newest ->
  timestamp newest = Some T1 ->
  C1 +:+ "_" +:+ T1 ∉ processed_messages h ->
  let h1 := (process_new_messages (recording sv) cfg h [c1]).1 in
  (exists reply g entry,
     generate_reply sv (generator h) (default "Unknown" (name c1))
       (default "" (bio c1)) (messages c1) (personality cfg) = (Ok reply, g)
     /\ received h1 = received h ++ [(Some C1, reply)]
     /\ chat_log_file h1 = chat_log_file h ++ [entry]
     /\ auto_approved_file h1 = auto_approved_file h ++ [entry]
     /\ log_match_id entry = Some C1 /\ bot_reply entry = reply
     /\ sent entry = true)
  /\ processed_messages h1 = {[ C1 +:+ "_" +:+ T1 ]} ∪ processed_messages h
  /\ (forall cfg', process_new_messages (recording sv) cfg' h1 [c1] = (h1, [])).
Proof.
  intros Hauto Hdelay Hone Hrange Hgen Hsink Hc1 Hlast Hts Hnin h1.
  assert (Hid : msg_id_of c1 = Some (C1 +:+ "_" +:+ T1)).
  { apply msg_id_of_Some. exists newest. split; [done |].
    unfold make_msg_id. by rewrite Hc1, Hts. }
  destruct (Hgen (generator h) (default "Unknown" (name c1)) (default "" (bio c1))
              (messages c1) (personality cfg)) as [reply Hreply].
  destruct (generate_reply sv (generator h) _ _ _ _) as [r g] eqn:Hg.
  cbn [fst] in Hreply. subst r.
  assert (Hpause : typing_pause (typing_delay cfg) (uniform sv (length (events h)))
                   = Ok tt).
  { rewrite Hdelay. apply typing_pause_ok; [done | apply Hrange]. }
  destruct (send_reply_recorded sv cfg (length (events h)) (api_client h)
              (match_id c1) reply Hpause Hsink) as [a' Hsend].
  assert (Hh1 : h1 = (process_match (recording sv) cfg h c1).1).
  { subst h1. unfold process_new_messages. cbn [process_matches].
    by destruct (process_match (recording sv) cfg h c1). }
  assert (Hstep : process_match (recording sv) cfg h c1
                  = (@mk (recording sv)
                        ({[ C1 +:+ "_" +:+ T1 ]} ∪ processed_messages h)
                        (chat_log_file h
                         ++ [mkLogEntry (match_id c1) (default "Unknown" (name c1))
                               (default "" (content newest)) reply
                               (now sv (length (chat_log_file h)))
                               (personality cfg) true true])
                        (auto_approved_file h
                         ++ [mkLogEntry (match_id c1) (default "Unknown" (name c1))
                               (default "" (content newest)) reply
                               (now sv (length (chat_log_file h)))
                               (personality cfg) true true])
                        g (a', (api_client h).2 ++ [(match_id c1, reply)])
                        ((events h ++ [Generate c1 (personality cfg)])
                         ++ [Send c1 reply true]),
                     Some (mkLogEntry (match_id c1) (default "Unknown" (name c1))
                             (default "" (content newest)) reply
                             (now sv (length (chat_log_file h)))
                             (personality cfg) true true))).
  { unfold process_match. rewrite Hlast. unfold make_msg_id. rewrite Hc1, Hts.
    cbn [fmt default]. rewrite decide_False by done.
    cbn [generate_reply recording]. rewrite Hg, Hauto.
    rewrite Hc1 in Hsend. rewrite Hsend. reflexivity. }
  rewrite Hstep in Hh1. cbn [fst] in Hh1.
  split; [| split].
  - exists reply, g. eexists. split; [done |]. rewrite Hh1. unfold received.
    cbn [api_client chat_log_file auto_approved_file snd].
    rewrite Hc1. split; [done |]. split; [reflexivity |]. split; [reflexivity |].
    done.
  - by rewrite Hh1.
  - intros cfg'. unfold process_new_messages. cbn [process_matches].
    rewrite (process_match_seen (recording sv) cfg' h1 c1 _ Hid); [done |].
    rewrite Hh1. cbn [processed_messages]. apply elem_of_union_l.
    by apply elem_of_singleton.
Qed.

End SinkFacts.

(** ** The pipeline on the completion-backed generator *)

Section PipelineExamples.
Import MessageHandler.

Lemma completion_generator_returns env delivered :
  generator_returns (completion_services env delivered).
Proof.
  intros wd name bio history personality. cbn.
  destruct (generate_reply_total env wd name bio history personality)
    as (reply & wd' & Heq).
  exists reply. by rewrite Heq.
Qed.

(** The pipeline on the completion-backed generator and a sink that
    records its calls and always delivers, the draws of [random.uniform]
    being all 0. *)
Lemma single_conversation_sent_once_witness :
  let env := steady_env "Hey there" in
  let sv := completion_services env true in
  let h := init (recording sv) [] [] (MessageGenerator.mkWorld [] MessageGenerator.Absent 0 [])
             (tt, []) in
  let h1 := (process_new_messages (recording sv) auto_config h [match_C1]).1 in
  received h1 = received h ++ [(Some "C1", "Hey there.")]
  /\ processed_messages h1 = {[ "C1_T1" ]} ∪ processed_messages h
  /\ process_new_messages (recording sv) auto_config h1 [match_C1] = (h1, []).
Proof.
  intros env sv h h1.
  destruct (single_conversation_sent_once sv auto_config h match_C1
              (mkMessage (Some "user") (Some "hey!") (Some "T1")) "C1" "T1" (3 # 1)%Q)
    as ((reply & g & entry & Hgen & Hrec & _) & Hproc & Hsecond).
  - reflexivity.
  - reflexivity.
  - done.
  - intros n. done.
  - apply completion_generator_returns.
  - intros a mid message. reflexivity.
  - reflexivity.
  - reflexivity.
  - reflexivity.
  - apply not_elem_of_empty.
  - split; [| split; [exact Hproc | apply Hsecond]].
    vm_compute in Hgen. injection Hgen as Hr _. subst reply. exact Hrec.
Defined.

(** C2 fails on the code when the typing delay is below one second: with a
    delay of half a second and a draw of -0.8 the pause raises inside
    [_send_reply], the sink, which would deliver, is never called, and the
    message is recorded all the same, so that no later pass sends the
    reply. *)
Lemma short_typing_delay_skips_send :
  let env := steady_env "Hey there" in
  let sv := recording (with_uniform (completion_services env true)
                         (fun _ => (-4 # 5)%Q)) in
  let cfg := mkConfig "default" true (Some (1 # 2)%Q) in
  let h := init sv [] [] (MessageGenerator.mkWorld [] MessageGenerator.Absent 0 [])
             (tt, []) in
  let h1 := (process_new_messages sv cfg h [match_C1]).1 in
  sink_succeeds sv
  /\ pass_events sv cfg h [match_C1]
     = [Generate match_C1 "default"; Send match_C1 "Hey there." false]
  /\ received h1 = []
  /\ processed_messages h1 = {[ "C1_T1" ]} ∪ ∅
  /\ process_new_messages sv cfg h1 [match_C1] = (h1, [])
  /\ received (process_new_messages sv cfg h1 [match_C1]).1 = [].
Proof.
  intros env sv cfg h h1.
  assert (Hh1 : processed_messages h1 = {[ "C1_T1" ]} ∪ ∅) by reflexivity.
  assert (Hsecond : process_new_messages sv cfg h1 [match_C1] = (h1, [])).
  { unfold process_new_messages. cbn [process_matches].
    rewrite (process_match_seen sv cfg h1 match_C1 "C1_T1"); [done | reflexivity |].
    rewrite Hh1. apply elem_of_union_l. by apply elem_of_singleton. }
  split; [intros a mid message; reflexivity |].
  split; [reflexivity |]. split; [reflexivity |]. split; [exact Hh1 |].
  split; [exact Hsecond |]. by rewrite Hsecond.
Qed.

(** With the default delay of three seconds the same pass calls the sink
    once. *)
Example default_typing_delay_sends :
  let env := steady_env "Hey there" in
  let sv := recording (with_uniform (completion_services env true)
                         (fun _ => (-4 # 5)%Q)) in
  let h := init sv [] [] (MessageGenerator.mkWorld [] MessageGenerator.Absent 0 [])
             (tt, []) in
  received (process_new_messages sv auto_config h [match_C1]).1
  = [(Some "C1", "Hey there.")].
Proof. reflexivity. Qed.



Lemma rejected_not_consulted_witness :
  let env := steady_env "Hey there" in
  let sv := completion_services env true in
  let h := fresh_handler env true in
  let dm := DataManager.mark_rejected (DataManager.init DataManager.no_files) "C1" in
  DataManager.is_rejected dm (conversation_id match_C1) = true
  /\ (Generate match_C1 "default" ∈ step_events sv auto_config h match_C1
      <-> exists id, msg_id_of match_C1 = Some id /\ id ∉ processed_messages h).
Proof.
  intros env sv h dm.
  assert (Hrej : DataManager.is_rejected dm (conversation_id match_C1) = true).
  { apply bool_decide_eq_true. apply elem_of_union_r. by apply elem_of_singleton. }
  split; [exact Hrej |].
  exact (rejected_not_consulted sv auto_config dm h match_C1 Hrej).
Defined.

(** C4 as stated fails: [C1] is in the rejected set and the pass calls the
    generator for it, and sends the reply. *)
Lemma rejected_conversation_generated :
  let env := steady_env "Hey there" in
  let sv := completion_services env true in
  let dm := DataManager.mark_rejected (DataManager.init DataManager.no_files) "C1" in
  DataManager.is_rejected dm (conversation_id match_C1) = true
  /\ pass_events sv auto_config (fresh_handler env true) [match_C1]
     = [Generate match_C1 "default"; Send match_C1 "Hey there." true].
Proof.
  intros env sv dm. split; [| reflexivity].
  apply bool_decide_eq_true. apply elem_of_union_r. by apply elem_of_singleton.
Qed.

End PipelineExamples.

(** ** More on the data manager *)

Section DataManagerMore.
Import DataManager.
Implicit Types (dm : DataManager.t) (c : string).

Lemma reachable_synced dm : reachable dm -> synced dm.
Proof.
  unfold synced, _load_replied, _load_rejected, _load_conversation_cache.
  induction 1 as [|dm _ (IH1 & IH2 & IH3)|dm c ts _ (IH1 & IH2 & IH3)
                 |dm c _ (IH1 & IH2 & IH3)|dm c _ (IH1 & IH2 & IH3)
                 |dm c ms _ (IH1 & IH2 & IH3)|dm _ (IH1 & IH2 & IH3)];
    cbn; try done.
  - split; [done |]. split; [| done]. by rewrite list_to_set_elements_L.
  - split; [done |]. split; [| done]. by rewrite list_to_set_elements_L.
Qed.

(** X1: a data manager that started without files, or on the files a data
    manager left, loses nothing on a restart: creating a data manager on
    its files gives the same replied map, rejected set and cache. *)
Theorem restart_keeps_state dm : reachable dm -> init (disk dm) = dm.
Proof.
  intros (H1 & H2 & H3)%reachable_synced. unfold init.
  destruct dm as [r j k d]. cbn in *. by rewrite <- H1, <- H2, <- H3.
Qed.

Lemma restart_keeps_state_witness :
  reachable (mark_rejected (mark_replied (init no_files) "C1" "T1") "C2")
  /\ init (disk (mark_rejected (mark_replied (init no_files) "C1" "T1") "C2"))
     = mark_rejected (mark_replied (init no_files) "C1" "T1") "C2".
Proof.
  assert (Hr : reachable (mark_rejected (mark_replied (init no_files) "C1" "T1") "C2")).
  { apply reach_mark_rejected, reach_mark_replied, reach_init. }
  split; [exact Hr |]. exact (restart_keeps_state _ Hr).
Defined.

(** X2: the rejected set behaves as a set: after [mark_rejected] an id is
    rejected when it is the marked one or was rejected before; after
    [remove_rejected] when it is another one and was rejected before, so
    that removing an id that was never rejected changes no answer; marking
    and then removing an id leaves it not rejected. *)
Theorem rejected_set_laws dm c c' :
  (is_rejected (mark_rejected dm c) c' = true
   <-> c' = c \/ is_rejected dm c' = true)
  /\ (is_rejected (remove_rejected dm c) c' = true
      <-> c' <> c /\ is_rejected dm c' = true)
  /\ is_rejected (remove_rejected (mark_rejected dm c) c) c = false.
Proof.
  unfold is_rejected. rewrite !bool_decide_eq_true. cbn.
  split; [| split].
  - rewrite elem_of_union, elem_of_singleton. tauto.
  - rewrite elem_of_difference, elem_of_singleton. tauto.
  - apply bool_decide_eq_false. rewrite elem_of_difference, elem_of_singleton. tauto.
Qed.

(** X3: the ledger keeps one timestamp per conversation.  Marking a
    conversation makes it ever replied and leaves the answers for every
    other conversation as they were; a second mark with another timestamp
    replaces the first, which then counts as not replied; a message that is
    replied belongs to a conversation that is ever replied. *)
Theorem ledger_one_timestamp dm c c' ts ts' :
  has_ever_replied_to (mark_replied dm c ts) c = true
  /\ (c' <> c ->
      has_replied_to (mark_replied dm c ts) c' ts' = has_replied_to dm c' ts'
      /\ has_ever_replied_to (mark_replied dm c ts) c' = has_ever_replied_to dm c')
  /\ (ts' <> ts ->
      has_replied_to (mark_replied (mark_replied dm c ts) c ts') c ts = false)
  /\ (has_replied_to dm c ts = true -> has_ever_replied_to dm c = true).
Proof.
  unfold has_replied_to, has_ever_replied_to. cbn.
  split; [| split; [| split]].
  - apply bool_decide_eq_true. rewrite lookup_insert_eq. by eexists.
  - intros Hne. by rewrite !lookup_insert_ne.
  - intros Hne. apply bool_decide_eq_false. rewrite lookup_insert_eq. congruence.
  - rewrite !bool_decide_eq_true. intros ->. by eexists.
Qed.

(** X4: reading back a conversation that was just cached.  A key the cache
    does not hold reads as the empty list.  When the insertion leaves at
    most 100 entries the cached messages are read back; when it leaves
    more, they are read back unless the key is one of the 20 evicted ones,
    in which case the conversation just cached is already gone. *)
Theorem cached_conversation_read_back dm c (ms : list Message) :
  let cache := <[c := ms]> (conversation_cache dm) in
  (conversation_cache dm !! c = None -> get_cached_conversation dm c = [])
  /\ (size cache <= 100 ->
      get_cached_conversation (cache_conversation dm c ms) c = ms)
  /\ (100 < size cache ->
      get_cached_conversation (cache_conversation dm c ms) c
      = if decide (c ∈ take 20 (sorted_keys cache)) then [] else ms).
Proof.
  intros cache. subst cache. unfold get_cached_conversation.
  split; [by intros -> |]. split.
  - intros Hsz. rewrite cache_conversation_keeps by done.
    by rewrite lookup_insert_eq.
  - intros Hsz. rewrite cache_conversation_evicts by done.
    rewrite del_all_lookup. case_decide; [done |]. by rewrite lookup_insert_eq.
Qed.

(** The conversation cached last can be the one evicted: a hundred
    conversations under the keys ["0"] to ["99"], and one more under
    ["!"], which sorts first. *)
Example cached_conversation_lost :
  get_cached_conversation
    (cache_conversation full_cache "!" [mkMessage (Some "user") (Some "hey!") (Some "T1")])
    "!" = [].
Proof. vm_compute. reflexivity. Qed.

End DataManagerMore.

(** ** More on the reply generator: requests, pauses, prompts *)

Section GenerateMore.
Import PyStr MessageGenerator.
Implicit Types (env : Env) (wd : World).

Lemma call_claude_world env wd system_prompt msgs :
  let wd' := (_call_claude env wd system_prompt msgs).2 in
  requests wd' = (system_prompt, msgs) :: requests wd
  /\ slept wd' = slept wd /\ draws wd' = draws wd.
Proof.
  unfold _call_claude.
  by destruct (backend env (length (requests wd)) system_prompt msgs).
Qed.

(** One attempt posts one or two requests and does not pause. *)
Lemma attempt_world env wd system_prompt msgs name :
  let wd' := (attempt env wd system_prompt msgs name).2 in
  exists posted,
    requests wd' = posted ++ requests wd
    /\ Forall (fun r => r.2 = msgs) posted
    /\ 1 <= length posted <= 2
    /\ slept wd' = slept wd.
Proof.
  unfold attempt.
  pose proof (call_claude_world env wd system_prompt msgs) as (Hr1 & Hs1 & _).
  destruct (_call_claude env wd system_prompt msgs) as [[reply1|] wd1];
    cbn [snd] in *.
  2: { exists [(system_prompt, msgs)]. cbn. rewrite Hr1.
       split; [done |]. split; [by repeat constructor |]. split; [lia | done]. }
  destruct (_is_refusal reply1).
  2: { exists [(system_prompt, msgs)]. cbn. rewrite Hr1.
       split; [done |]. split; [by repeat constructor |]. split; [lia | done]. }
  rewrite render_flirty.
  pose proof (call_claude_world env wd1 "" msgs) as (Hr2 & Hs2 & _).
  destruct (_call_claude env wd1 "" msgs) as [[reply2|] wd2]; cbn [snd] in *.
  2: { exists [("", msgs); (system_prompt, msgs)]. cbn. rewrite Hr2, Hr1.
       split; [done |]. split; [by repeat constructor |].
       split; [lia | congruence]. }
  exists [("", msgs); (system_prompt, msgs)].
  destruct (_is_refusal reply2); cbn; rewrite ?Hr2, ?Hr1;
    (split; [done |]; split; [by repeat constructor |];
     split; [lia | congruence]).
Qed.

(** The attempts of a range post at most two requests each. *)
Lemma attempts_requests env range wd system_prompt msgs name :
  let wd' := (attempts env wd system_prompt msgs name range).2 in
  exists posted,
    requests wd' = posted ++ requests wd
    /\ Forall (fun r => r.2 = msgs) posted
    /\ length posted <= 2 * length range
    /\ (range <> [] -> 1 <= length posted).
Proof.
  revert wd system_prompt. induction range as [|n range IH]; intros wd system_prompt.
  - exists []. cbn. split; [done |]. split; [constructor |]. split; [lia | done].
  - cbn [attempts].
    pose proof (attempt_world env wd system_prompt msgs name)
      as (p1 & Hp1 & F1 & Hl1 & _).
    destruct (attempt env wd system_prompt msgs name) as [[[reply|] sp1] wd1];
      cbn [snd] in *.
    + exists p1. split; [done |]. split; [done |]. cbn [length]. split; lia.
    + destruct (IH (if (n <? max_retries - 1)%nat
                    then sleep wd1 (2 ^ Z.of_nat n) else wd1) sp1)
        as (p2 & Hp2 & F2 & Hl2 & _).
      exists (p2 ++ p1). split.
      * rewrite Hp2. destruct (n <? max_retries - 1)%nat; cbn [sleep requests];
          by rewrite Hp1, app_assoc.
      * split; [by apply Forall_app |]. rewrite length_app. cbn [length].
        split; lia.
Qed.

(** The pauses of the three attempts. *)
Lemma attempts_slept env wd system_prompt msgs name :
  let wd' := (attempts env wd system_prompt msgs name (seq 0 max_retries)).2 in
  slept wd' = slept wd
  \/ slept wd' = 1%Z :: slept wd
  \/ slept wd' = 2%Z :: 1%Z :: slept wd.
Proof.
  cbn [max_retries seq attempts].
  pose proof (attempt_world env wd system_prompt msgs name) as (_ & _ & _ & _ & Hs1).
  destruct (attempt env wd system_prompt msgs name) as [[[r1|] sp1] wd1];
    cbn [snd] in *; [by left |].
  change (0 <? max_retries - 1)%nat with true.
  change (1 <? max_retries - 1)%nat with true.
  change (2 <? max_retries - 1)%nat with false. cbn iota.
  pose proof (attempt_world env (sleep wd1 (2 ^ Z.of_nat 0)) sp1 msgs name)
    as (_ & _ & _ & _ & Hs2).
  destruct (attempt env (sleep wd1 (2 ^ Z.of_nat 0)) sp1 msgs name)
    as [[[r2|] sp2] wd2]; cbn [snd] in *.
  { right; left. rewrite Hs2. cbn. by rewrite Hs1. }
  pose proof (attempt_world env (sleep wd2 (2 ^ Z.of_nat 1)) sp2 msgs name)
    as (_ & _ & _ & _ & Hs3).
  destruct (attempt env (sleep wd2 (2 ^ Z.of_nat 1)) sp2 msgs name)
    as [[[r3|] sp3] wd3]; cbn [snd] in *.
  - right; right. rewrite Hs3. cbn. rewrite Hs2. cbn. by rewrite Hs1.
  - right; right. cbn. rewrite Hs3. cbn. rewrite Hs2. cbn. by rewrite Hs1.
Qed.

(** X5: one call of [generate_reply] posts at least one and at most six
    requests to the backend, all with the messages built from the history,
    and pauses for at most 1 and then 2 seconds. *)
Theorem generate_reply_bounded env wd (name bio : string)
    (chat_history : list Message) (personality : string) :
  let wd' := (generate_reply env wd name bio chat_history personality).2 in
  exists posted,
    requests wd' = posted ++ requests wd
    /\ 1 <= length posted <= 6
    /\ Forall (fun r => r.2 = _build_messages name bio chat_history) posted
    /\ (slept wd' = slept wd
        \/ slept wd' = 1%Z :: slept wd
        \/ slept wd' = 2%Z :: 1%Z :: slept wd).
Proof.
  unfold generate_reply.
  destruct (render_personality env personality) as [sp ->].
  pose proof (attempts_requests env (seq 0 max_retries) wd sp
                (_build_messages name bio chat_history) name)
    as (posted & Hp & F & Hl & Hl').
  pose proof (attempts_slept env wd sp (_build_messages name bio chat_history) name)
    as Hs.
  destruct (attempts env wd sp (_build_messages name bio chat_history) name
              (seq 0 max_retries)) as [reply wd'].
  cbn [snd] in *. exists posted. split; [done |]. split.
  - cbn in Hl. split; [by apply Hl' | lia].
  - by split.
Qed.

Lemma attempt_down_world env wd system_prompt msgs name :
  backend_down env ->
  attempt env wd system_prompt msgs name
  = (Raise, system_prompt,
     mkWorld ((system_prompt, msgs) :: requests wd) (usage_file wd)
             (draws wd) (slept wd)).
Proof. intros Hdown. unfold attempt. by rewrite call_claude_down. Qed.

(** X6: when every request to the backend raises, [generate_reply] posts
    exactly three requests with the prompt of the configured personality,
    pauses 1 and then 2 seconds between them, leaves the usage file as it
    is and returns the fallback reply picked by one random draw. *)
Theorem generate_reply_backend_down env wd (name bio : string)
    (chat_history : list Message) (personality : string) :
  backend_down env ->
  exists system_prompt reply,
    _render_time_aware_prompt env
      (prompt_or_profile (default default_profile
                            (personality_get PERSONALITIES personality)))
    = Ok system_prompt
    /\ fallbacks name !! (choice env (draws wd) mod 5) = Some reply
    /\ generate_reply env wd name bio chat_history personality
       = (Ok reply,
          mkWorld (replicate 3 (system_prompt, _build_messages name bio chat_history)
                   ++ requests wd)
                  (usage_file wd) (S (draws wd)) (2%Z :: 1%Z :: slept wd)).
Proof.
  intros Hdown. destruct (render_personality env personality) as [sp Hsp].
  destruct (fallbacks name !! (choice env (draws wd) mod 5)) as [reply|] eqn:Hfb.
  2: { apply lookup_ge_None in Hfb.
       pose proof (Nat.mod_upper_bound (choice env (draws wd)) 5) as Hb.
       simpl in Hfb. lia. }
  exists sp, reply. split; [done |]. split; [done |].
  unfold generate_reply. rewrite Hsp. cbn [max_retries seq attempts].
  rewrite attempt_down_world by done.
  change (0 <? max_retries - 1)%nat with true. cbn iota.
  rewrite attempt_down_world by done.
  change (1 <? max_retries - 1)%nat with true. cbn iota.
  rewrite attempt_down_world by done.
  change (2 <? max_retries - 1)%nat with false. cbn iota.
  unfold _generate_fallback. cbn [draws sleep requests usage_file slept].
  change (length (fallbacks name)) with 5. rewrite Hfb. reflexivity.
Qed.

Lemma generate_reply_backend_down_witness :
  let env := mkEnv (fun _ _ _ => Failure) (fun _ => 7) "January 01, 2026" "12:00"
                   (fun _ _ => Raise) in
  backend_down env
  /\ exists wd',
      generate_reply env (mkWorld [] Absent 0 []) "Ann" "" [] "flirty"
      = (Ok "Ann! Love the vibe of your profile. What's been the highlight of your week?",
         wd').
Proof.
  intros env. assert (Hdown : backend_down env) by (intros n sp msgs; reflexivity).
  split; [exact Hdown |].
  destruct (generate_reply_backend_down env (mkWorld [] Absent 0 []) "Ann" "" []
              "flirty" Hdown) as (sp & reply & _ & Hfb & Hgen).
  eexists. rewrite Hgen. vm_compute in Hfb. by injection Hfb as <-.
Defined.

(** X7: the prompt of the alternate profile stays for the rest of the
    call.  When the first completion is a refusal and the retry with the
    alternate prompt raises, the next attempt, after a pause of one second,
    posts the alternate prompt again and not the prompt of the configured
    personality; its completion, no refusal, is sanitized and returned. *)
Theorem alternate_prompt_persists env wd (name bio : string)
    (chat_history : list Message) (personality : string)
    (text1 text3 : string) (tokens1 tokens3 : option Z) :
  (forall system_prompt msgs,
     backend env (length (requests wd)) system_prompt msgs = Completion text1 tokens1) ->
  _is_refusal text1 = true ->
  (forall system_prompt msgs,
     backend env (S (length (requests wd))) system_prompt msgs = Failure) ->
  (forall system_prompt msgs,
     backend env (S (S (length (requests wd)))) system_prompt msgs
     = Completion text3 tokens3) ->
  _is_refusal text3 = false ->
  exists system_prompt alternate wd',
    _render_time_aware_prompt env
      (prompt_or_profile (default default_profile
                            (personality_get PERSONALITIES personality)))
    = Ok system_prompt
    /\ _render_time_aware_prompt env (prompt_or_profile flirty_profile) = Ok alternate
    /\ generate_reply env wd name bio chat_history personality
       = (Ok (_sanitize_reply text3), wd')
    /\ requests wd'
       = [(alternate, _build_messages name bio chat_history);
          (alternate, _build_messages name bio chat_history);
          (system_prompt, _build_messages name bio chat_history)] ++ requests wd
    /\ slept wd' = 1%Z :: slept wd.
Proof.
  intros Hb1 Hr1 Hb2 Hb3 Hr3.
  destruct (render_personality env personality) as [sp Hsp].
  exists sp, "". eexists. split; [done |]. split; [done |].
  unfold generate_reply. rewrite Hsp. cbn [max_retries seq attempts].
  unfold attempt at 1. unfold _call_claude at 1.
  rewrite Hb1, is_refusal_strip, Hr1, render_flirty.
  unfold _call_claude at 1. cbn [requests length]. rewrite Hb2.
  change (0 <? max_retries - 1)%nat with true. cbn iota.
  unfold attempt at 1. unfold _call_claude at 1. cbn [sleep requests length].
  rewrite Hb3, is_refusal_strip, Hr3, sanitize_reply_strip.
  repeat split; reflexivity.
Qed.

Lemma alternate_prompt_persists_witness :
  let env := mkEnv (fun n _ _ => match n with
                                 | 0 => Completion "As an AI, I cannot" None
                                 | 1 => Failure
                                 | _ => Completion "Hello you" None
                                 end)
                   (fun _ => 0) "January 01, 2026" "12:00" (fun _ _ => Raise) in
  exists wd',
    generate_reply env (mkWorld [] Absent 0 []) "Ann" "" [] "default"
    = (Ok "Hello you.", wd')
    /\ slept wd' = [1%Z].
Proof.
  intros env.
  destruct (alternate_prompt_persists env (mkWorld [] Absent 0 []) "Ann" "" []
              "default" "As an AI, I cannot" "Hello you" None None)
    as (sp & alt & wd' & _ & _ & Hgen & _ & Hslept);
    [reflexivity | reflexivity | reflexivity | reflexivity | reflexivity |].
  exists wd'. split; [exact Hgen | exact Hslept].
Defined.

End GenerateMore.

(** ** More on the usage tracker *)

Section UsageMore.
Import PyStr MessageGenerator.

Lemma usage_sum_insert (models : gmap string Z) model (v : Z) :
  map_fold (fun _ v acc => (v + acc)%Z) 0%Z (<[model := v]> models)
  = (v - default 0 (models !! model)
     + map_fold (fun _ v acc => (v + acc)%Z) 0%Z models)%Z.
Proof.
  destruct (models !! model) as [old|] eqn:Hm.
  - rewrite <- insert_delete_eq.
    rewrite (map_fold_delete_L _ _ model old models); [| intros; lia | done].
    rewrite map_fold_insert_L; [cbn; lia | intros; lia | apply lookup_delete_eq].
  - rewrite map_fold_insert_L; [cbn; lia | intros; lia | done].
Qed.

(** X8: recording tokens for a model leaves the count of every other model
    as it is, does not depend on the order of two recordings, and keeps the
    total equal to the sum of the counts of all models when it was so
    before. *)
Theorem track_usage_by_model (f : UsageFile) (model model' : string) (tokens tokens' : Z) :
  is_usage_state f = true ->
  (model' <> model ->
   usage_of_model (_track_usage f model tokens) model' = usage_of_model f model')
  /\ _track_usage (_track_usage f model tokens) model' tokens'
     = _track_usage (_track_usage f model' tokens') model tokens
  /\ (usage_total f = usage_sum f ->
      usage_total (_track_usage f model tokens)
      = usage_sum (_track_usage f model tokens)).
Proof.
  intros Hf. split; [| split].
  - intros Hne. destruct f as [| |u]; [| done |]; cbn; by rewrite lookup_insert_ne.
  - destruct f as [| |u]; [| done |]; cbn; f_equal; f_equal.
    + f_equal. lia.
    + f_equal. destruct (decide (model = model')) as [->|Hne].
      * rewrite !lookup_insert_eq, !insert_insert_eq. cbn. f_equal. lia.
      * rewrite !lookup_insert_ne by done. by rewrite insert_insert_ne.
    + f_equal. lia.
    + f_equal. destruct (decide (model = model')) as [->|Hne].
      * rewrite !lookup_insert_eq, !insert_insert_eq. cbn. f_equal. lia.
      * rewrite !lookup_insert_ne by done. by rewrite insert_insert_ne.
  - destruct f as [| |u]; [| done |]; cbn; intros Hsum;
      rewrite usage_sum_insert; [rewrite lookup_empty, map_fold_empty; cbn; lia |].
    cbn in Hsum. lia.
Qed.

Lemma track_usage_by_model_witness :
  is_usage_state Absent = true
  /\ _track_usage (_track_usage Absent "model-a" 10) "model-b" 5
     = _track_usage (_track_usage Absent "model-b" 5) "model-a" 10.
Proof.
  split; [reflexivity |].
  apply (track_usage_by_model Absent "model-a" "model-b" 10 5). reflexivity.
Defined.

End UsageMore.

(** ** More on the texts: refusals, sanitization, templates, fallbacks *)

Section TextMore.
Import PyStr MessageGenerator.
Implicit Types (s t u p r w a b cur ws : string) (c : ascii).

(** Lower-casing a text that begins with ASCII characters. *)
Lemma lower_ascii_app p t :
  ascii_text p = true -> lower (p +:+ t) = lower p +:+ lower t.
Proof.
  induction p as [|c p IH]; [done |]. cbn [ascii_text all_bytes].
  intros [Hc Hp]%andb_true_iff. rewrite str_app_cons. cbn [lower].
  assert (H226 : Ascii.eqb c "226" = false).
  { apply Ascii.eqb_neq. by intros ->. }
  assert (H196 : Ascii.eqb c "196" = false).
  { apply Ascii.eqb_neq. by intros ->. }
  rewrite H226, H196, IH by done. done.
Qed.

Lemma contains_nil_l s : contains "" s = true.
Proof. by destruct s. Qed.

Lemma prefix_app p t b : String.prefix p t = true -> String.prefix p (t +:+ b) = true.
Proof.
  revert t. induction p as [|c p IH]; intros t; [intros _; apply prefix_nil |].
  destruct t as [|c' t]; [done |]. rewrite str_app_cons, !prefix_cons.
  case_decide; [apply IH | done].
Qed.

Lemma contains_app_l p t b : contains p t = true -> contains p (t +:+ b) = true.
Proof.
  induction t as [|c t IH].
  - destruct p; [intros _; apply contains_nil_l | by cbn].
  - rewrite str_app_cons, !contains_cons. intros [Hp|Hc]%orb_true_iff.
    + by rewrite <- str_app_cons, prefix_app.
    + rewrite IH by done. apply orb_true_r.
Qed.

Lemma contains_app_r p a t : contains p t = true -> contains p (a +:+ t) = true.
Proof.
  intros Ht. induction a as [|c a IH]; [done |].
  rewrite str_app_cons, contains_cons, IH. apply orb_true_r.
Qed.

Lemma contains_middle p a b : contains p (a +:+ p +:+ b) = true.
Proof.
  apply contains_app_r, contains_app_l.
  destruct p as [|c p]; [done |]. rewrite contains_cons.
  assert (Hp : forall q, String.prefix q q = true).
  { induction q as [|c' q IH]; [done |]. rewrite prefix_cons. by case_decide. }
  by rewrite Hp.
Qed.

(** X9: a refusal phrase anywhere in a text, in any letter case, makes the
    text a refusal: a text that holds one of the phrases, each of its
    letters in upper or in lower case, is a refusal whatever comes before
    and after the phrase. *)
Theorem refusal_anywhere (pattern phrase before after : string) :
  pattern ∈ refusal_patterns ->
  ascii_text phrase = true ->
  lower phrase = pattern ->
  _is_refusal (before +:+ phrase +:+ after) = true.
Proof.
  intros Hin Hascii Hlower. unfold _is_refusal. rewrite existsb_exists.
  exists pattern. split; [by apply list_elem_of_In |].
  assert (Hne : phrase <> "").
  { intros ->. cbn in Hlower. subst pattern. revert Hin. unfold refusal_patterns.
    rewrite !elem_of_cons, elem_of_nil.
    intros H. repeat (destruct H as [H|H]; [discriminate H |]). destruct H. }
  rewrite lower_app_char.
  - rewrite lower_ascii_app, Hlower by done. apply contains_middle.
  - destruct phrase as [|c phrase]; [done |].
    rewrite str_app_cons. cbn [ascii_text all_bytes starts_char] in Hascii |- *.
    apply andb_true_iff in Hascii as [Hc _]. apply negb_true_iff.
    unfold continuation. cbn zeta. apply Nat.ltb_lt in Hc.
    apply andb_false_iff. left. apply Nat.leb_gt. lia.
Qed.

Lemma refusal_anywhere_witness :
  _is_refusal ("Sorry I was " +:+ "UnAbLe tO" +:+ " sleep last night") = true.
Proof.
  apply (refusal_anywhere "unable to" "UnAbLe tO" "Sorry I was " " sleep last night").
  - unfold refusal_patterns. do 2 apply list_elem_of_further. apply list_elem_of_here.
  - reflexivity.
  - reflexivity.
Defined.

Lemma last_char_app_period s : last_char (s +:+ ".") = Some "."%char.
Proof.
  induction s as [|c s IH]; [done |]. rewrite str_app_cons. cbn [last_char].
  destruct (s +:+ ".") eqn:Hs; [| done].
  by apply str_app_eq_nil in Hs as [_ ?].
Qed.

Lemma with_period_ends s : with_period s = "" \/ ends_sentence (with_period s) = true.
Proof.
  unfold with_period. destruct s as [|c s]; [by left |]. right.
  cbn [String.eqb negb andb].
  destruct (ends_sentence (String c s)) eqn:He; cbn [negb]; [done |].
  unfold ends_sentence. by rewrite last_char_app_period.
Qed.

Lemma with_period_idemp s : with_period (with_period s) = with_period s.
Proof.
  destruct (with_period_ends s) as [He|He].
  - by rewrite He.
  - unfold with_period at 1. by rewrite He, andb_false_r.
Qed.

(** A text with single spaces between its words is the words joined. *)
Lemma join_split_aux s cur :
  spaced_ok (if cur is EmptyString then true else false) s = true ->
  join " " (split_aux 0 cur s) = cur +:+ s.
Proof.
  revert cur. induction s as [|c s IH]; intros cur.
  - destruct cur; [done |]. intros _. cbn [split_aux flush join].
    by rewrite str_app_nil_r.
  - destruct (space_len (String c s)) as [|n] eqn:Hc.
    + rewrite spaced_ok_plain, split_aux_plain by done. intros Hs.
      rewrite IH; [by rewrite str_app_snoc |]. by destruct cur.
    + cbn [spaced_ok]. rewrite Hc.
      destruct cur as [|c0 cur]; [by rewrite andb_false_r |].
      intros [[Hsp _]%andb_true_iff Hs]%andb_true_iff.
      apply Ascii.eqb_eq in Hsp. subst c.
      change (String " " s) with (" " +:+ s) at 1.
      rewrite split_aux_space by apply space_in_spaces.
      pose proof (IH "" Hs) as Hj. rewrite str_app_nil_l in Hj.
      cbn [flush app]. destruct (split_aux 0 "" s) as [|w l] eqn:Hl.
      * cbn in Hj. subst s. done.
      * rewrite join_cons, Hj. done.
Qed.

Lemma join_split_normal s : single_spaced s = true -> join " " (split s) = s.
Proof.
  destruct s as [|c s]; [done |]. unfold single_spaced, split. intros Hs.
  by rewrite join_split_aux.
Qed.

Lemma sanitize_reply_spaced text : single_spaced (_sanitize_reply text) = true.
Proof.
  rewrite sanitize_reply_unfold.
  apply with_period_spaced, join_single_spaced, split_words.
Qed.

(** X10: a sanitized reply is empty or ends with a period, an exclamation
    mark or a question mark; and sanitizing it again changes nothing when
    it has no asterisk left. *)
Theorem sanitize_reply_stable (text : string) :
  (_sanitize_reply text = "" \/ ends_sentence (_sanitize_reply text) = true)
  /\ (star_free (_sanitize_reply text) = true ->
      _sanitize_reply (_sanitize_reply text) = _sanitize_reply text).
Proof.
  split.
  - rewrite sanitize_reply_unfold. apply with_period_ends.
  - intros Hsf. rewrite (sanitize_reply_unfold (_sanitize_reply text)).
    rewrite sub_actions_star_free by done.
    rewrite join_split_normal by apply sanitize_reply_spaced.
    rewrite sanitize_reply_unfold. apply with_period_idemp.
Qed.

(** Without that proviso a second sanitization can remove more: the first
    one leaves a span that its own removals put together. *)
Example sanitize_reply_twice :
  _sanitize_reply "**a*x*" = "*x*." /\ _sanitize_reply "*x*." = ".".
Proof. split; reflexivity. Qed.

Lemma format_go_plain other date time a s :
  brace_free a = true ->
  format_go other date time None (a +:+ s)
  = match format_go other date time None s with
    | Ok r => Ok (a +:+ r)
    | Raise => Raise
    end.
Proof.
  induction a as [|c a IH].
  { intros _. rewrite str_app_nil_l. by destruct (format_go other date time None s). }
  cbn [brace_free]. intros [[Ho Hc]%andb_true_iff Ha]%andb_true_iff.
  apply negb_true_iff in Ho, Hc. apply Ascii.eqb_neq in Ho, Hc.
  rewrite str_app_cons.
  assert (Hstep : format_go other date time None (String c (a +:+ s))
                  = match format_go other date time None (a +:+ s) with
                    | Ok r => Ok (String c r)
                    | Raise => Raise
                    end).
  { destruct c as [[] [] [] [] [] [] [] []]; try done; by destruct (a +:+ s). }
  rewrite Hstep, IH by done. by destruct (format_go other date time None s).
Qed.

(** Entering a field: an opening brace that no other one follows. *)
Lemma format_go_open other date time c s :
  Ascii.eqb c "{" = false ->
  format_go other date time None (String "{" (String c s))
  = format_go other date time (Some "") (String c s).
Proof.
  intros Hc. apply Ascii.eqb_neq in Hc.
  destruct c as [[] [] [] [] [] [] [] []]; done.
Qed.

(** Reading the name of the argument. *)
Lemma format_go_name other date time acc f s :
  brace_free f = true -> arg_name f = f ->
  format_go other date time (Some acc) (f +:+ s)
  = format_go other date time (Some (acc +:+ f)) s.
Proof.
  revert acc. induction f as [|c f IH]; intros acc; [by rewrite str_app_nil_r |].
  cbn [brace_free arg_name]. intros [[_ Hc]%andb_true_iff Hf]%andb_true_iff.
  apply negb_true_iff in Hc. apply Ascii.eqb_neq in Hc.
  destruct (ends_arg_name c) eqn:He; [done |]. intros [= Harg].
  rewrite str_app_cons.
  assert (Hstep : format_go other date time (Some acc) (String c (f +:+ s))
                  = format_go other date time (Some (acc +:+ String c "")) (f +:+ s)).
  { cbn [format_go]. rewrite He.
    destruct c as [[] [] [] [] [] [] [] []]; done. }
  rewrite Hstep, IH by done. by rewrite str_app_snoc.
Qed.

(** The end of the name of the argument: the end of the field, or a
    character that ends the name. *)
Lemma arg_name_split f :
  exists rest,
    f = arg_name f +:+ rest
    /\ arg_name (arg_name f) = arg_name f
    /\ (rest = "" \/ exists c rest', rest = String c rest' /\ ends_arg_name c = true).
Proof.
  induction f as [|c f (rest & Hf & Hn & Hrest)]; [by exists ""; auto |].
  cbn [arg_name]. destruct (ends_arg_name c) eqn:He.
  - exists (String c f). split; [done |]. split; [done |]. right. by exists c, f.
  - exists rest. rewrite str_app_cons, <- Hf. split; [done |].
    cbn [arg_name]. by rewrite He, Hn.
Qed.

Lemma brace_free_app s t : brace_free (s +:+ t) = brace_free s && brace_free t.
Proof.
  induction s as [|c s IH]; [done |]. rewrite str_app_cons. cbn [brace_free].
  by rewrite IH, andb_assoc.
Qed.

Lemma format_go_other_field other date time f s :
  brace_free f = true -> is_keyword (arg_name f) = false ->
  format_go other date time None ("{" +:+ f +:+ "}" +:+ s) = Raise.
Proof.
  intros Hf Hkey. destruct (arg_name_split f) as (rest & Heq & Hn & Hrest).
  assert (Hfield : format_go other date time (Some "") (f +:+ "}" +:+ s) = Raise).
  { rewrite Heq in Hf |- *. rewrite brace_free_app in Hf.
    apply andb_true_iff in Hf as [Hfn Hfr].
    rewrite str_app_assoc, format_go_name, str_app_nil_l by done.
    destruct Hrest as [-> | (c & rest' & -> & He)].
    - rewrite str_app_nil_l.
      change ("}" +:+ s) with (String "}" s). cbn [format_go].
      unfold is_keyword in Hkey. apply orb_false_iff in Hkey as [-> ->].
      by destruct (format_go other date time None s).
    - rewrite str_app_cons. cbn [format_go]. rewrite He, Hkey.
      cbn [brace_free] in Hfr.
      apply andb_true_iff in Hfr as [[_ Hc]%andb_true_iff _].
      apply negb_true_iff, Ascii.eqb_neq in Hc.
      destruct c as [[] [] [] [] [] [] [] []]; done. }
  change ("{" +:+ f +:+ "}" +:+ s) with (String "{" (f +:+ "}" +:+ s)).
  destruct f as [|c f]; [done |].
  rewrite !str_app_cons in *. rewrite format_go_open; [done |].
  cbn [brace_free] in Hf. apply andb_true_iff in Hf as [[Hc _]%andb_true_iff _].
  by apply negb_true_iff in Hc.
Qed.

Lemma format_go_open_field other date time f :
  brace_free f = true -> arg_name f = f ->
  format_go other date time None ("{" +:+ f) = Raise.
Proof.
  intros Hf Hn.
  assert (Hfield : format_go other date time (Some "") f = Raise).
  { rewrite <- (str_app_nil_r f). by rewrite format_go_name. }
  change ("{" +:+ f) with (String "{" f).
  destruct f as [|c f]; [done |]. rewrite format_go_open; [done |].
  cbn [brace_free] in Hf. apply andb_true_iff in Hf as [[Hc _]%andb_true_iff _].
  by apply negb_true_iff in Hc.
Qed.

(** X11: how a template is rendered.  Text without braces is copied; the
    fields [{current_date}] and [{current_time}] are replaced by the date
    and the time; a field whose argument, named by the text of the field up
    to the first of the characters [.], [[], [!] and [:], is anything else
    raises, as does a template that ends inside the name of a field. *)
Theorem format_fields (other : string -> string -> result string)
    (date time a f s : string) :
  brace_free a = true ->
  brace_free f = true ->
  format other a date time = Ok a
  /\ format other (a +:+ "{current_date}" +:+ s) date time
     = match format other s date time with
       | Ok r => Ok (a +:+ date +:+ r)
       | Raise => Raise
       end
  /\ format other (a +:+ "{current_time}" +:+ s) date time
     = match format other s date time with
       | Ok r => Ok (a +:+ time +:+ r)
       | Raise => Raise
       end
  /\ (is_keyword (arg_name f) = false ->
      format other (a +:+ "{" +:+ f +:+ "}" +:+ s) date time = Raise)
  /\ (arg_name f = f -> format other (a +:+ "{" +:+ f) date time = Raise).
Proof.
  intros Ha Hf. unfold format. split; [| split; [| split; [| split]]].
  - rewrite <- (str_app_nil_r a) at 1. rewrite format_go_plain by done.
    cbn. by rewrite str_app_nil_r.
  - rewrite format_go_plain by done.
    change (format_go other date time None ("{current_date}" +:+ s))
      with (match format_go other date time None s with
            | Ok r => Ok (date +:+ r) | Raise => Raise end).
    by destruct (format_go other date time None s).
  - rewrite format_go_plain by done.
    change (format_go other date time None ("{current_time}" +:+ s))
      with (match format_go other date time None s with
            | Ok r => Ok (time +:+ r) | Raise => Raise end).
    by destruct (format_go other date time None s).
  - intros Hkey. by rewrite format_go_plain, format_go_other_field.
  - intros Hn. by rewrite format_go_plain, format_go_open_field.
Qed.

Lemma format_fields_witness :
  format (fun _ _ => Raise)
         ("Current time: " +:+ "{current_time}" +:+ " on {current_date}.")
         "January 01, 2026" "12:00"
  = Ok "Current time: 12:00 on January 01, 2026."
  /\ format (fun _ _ => Ok "")
            ("Current time: " +:+ "{" +:+ "name!r" +:+ "}" +:+ " on {current_date}.")
            "January 01, 2026" "12:00"
     = Raise.
Proof.
  destruct (format_fields (fun _ _ => Raise) "January 01, 2026" "12:00"
              "Current time: " "" " on {current_date}." eq_refl eq_refl)
    as (_ & _ & Htime & _).
  destruct (format_fields (fun _ _ => Ok "") "January 01, 2026" "12:00"
              "Current time: " "name!r" " on {current_date}." eq_refl eq_refl)
    as (_ & _ & _ & Hname & _).
  split; [by rewrite Htime | by apply Hname].
Defined.

(** Where the name of a keyword is followed by a conversion, a format
    specification, an attribute or an index, the result is the one given
    for the rest of the template. *)
Example format_conversion other (s r : string) :
  other "current_date" ("!r} " +:+ s) = Ok r ->
  format other ("on " +:+ "{current_date" +:+ "!r} " +:+ s) "January 01, 2026" "12:00"
  = Ok ("on " +:+ r).
Proof. intros Hr. cbv in Hr |- *. by rewrite Hr. Qed.

(** X12: every fallback reply is made for the recipient: it contains the
    name it was asked for, and some text besides. *)
Theorem fallbacks_mention_name (name r : string) :
  r ∈ fallbacks name -> contains name r = true /\ r <> name.
Proof.
  unfold fallbacks. rewrite !elem_of_cons, elem_of_nil.
  intros [-> | [-> | [-> | [-> | [-> | []]]]]]; split;
    try (apply contains_middle);
    try (rewrite <- (str_app_nil_l (name +:+ _)); apply contains_middle);
    try (intros Heq; apply (f_equal String.length) in Heq;
         rewrite ?str_app_length in Heq; cbn in Heq; lia).
Qed.

Lemma fallbacks_mention_name_witness :
  "Hi Ann! You seem interesting. Tell me something random about yourself?"
    ∈ fallbacks "Ann"
  /\ contains "Ann"
       "Hi Ann! You seem interesting. Tell me something random about yourself?"
     = true.
Proof.
  assert (Hin : "Hi Ann! You seem interesting. Tell me something random about yourself?"
                ∈ fallbacks "Ann").
  { unfold fallbacks. do 3 apply list_elem_of_further. apply list_elem_of_here. }
  split; [exact Hin |].
  apply (fallbacks_mention_name "Ann" _ Hin).
Defined.

End TextMore.

(** ** More on the model input and on the usage of a call *)

Section InputMore.
Import PyStr MessageGenerator.
Implicit Types (env : Env) (wd : World).

Lemma last_n_length {A} (n : nat) (l : list A) : length (last_n n l) = length l `min` n.
Proof. unfold last_n. rewrite length_drop. lia. Qed.

Lemma last_n_all {A} (n : nat) (l : list A) : length l <= n -> last_n n l = l.
Proof. intros Hl. unfold last_n. by replace (length l - n) with 0 by lia. Qed.

(** X13: the model input is the last ten turns of the history, or all of
    them when there are fewer, followed by the opener prompt exactly when
    the history has at most two turns, and then possibly by the media
    instruction; it has between one and eleven messages. *)
Theorem build_messages_shape (name bio : string) (history : list Message) :
  exists media,
    _build_messages name bio history
    = last_n 10 history
      ++ (if decide (length history <= 2) then [opener_prompt name bio] else [])
      ++ media
    /\ (media = [] \/ media = [media_prompt name])
    /\ 1 <= length (_build_messages name bio history) <= 11
    /\ (length history <= 10 -> last_n 10 history = history).
Proof.
  pose proof (last_n_length 10 history) as Hlen.
  assert (Hbase : history_messages name bio history
                  = last_n 10 history
                    ++ (if decide (length history <= 2)
                        then [opener_prompt name bio] else [])).
  { unfold history_messages.
    destruct (length (last_n 10 history) <=? 2) eqn:Hl.
    - apply Nat.leb_le in Hl. rewrite decide_True by lia. done.
    - apply Nat.leb_gt in Hl. rewrite decide_False by lia. by rewrite app_nil_r. }
  assert (Hblen : 1 <= length (history_messages name bio history) <= 10).
  { rewrite Hbase, length_app, Hlen. case_decide; cbn; lia. }
  unfold _build_messages.
  destruct (last (history_messages name bio history)) as [m|] eqn:Hlast.
  - destruct (mentions_media m).
    + exists [media_prompt name]. rewrite Hbase at 1. rewrite <- app_assoc.
      split; [done |]. split; [by right |]. rewrite length_app. cbn.
      split; [lia | apply last_n_all].
    + exists []. rewrite Hbase at 1. rewrite app_nil_r.
      split; [done |]. split; [by left |]. split; [lia | apply last_n_all].
  - apply last_None in Hlast. rewrite Hlast in Hblen. cbn in Hblen. lia.
Qed.

(** X14: the tokens of a refused completion are recorded like those of an
    accepted one.  When the first completion is a refusal and the second is
    not, the call adds to the total of the usage file, and to the count of
    the model, the tokens of both: for each the count the backend reports,
    or else the number of words of the text. *)
Theorem refused_completion_counted env wd (name bio : string)
    (chat_history : list Message) (personality : string)
    (text1 text2 : string) (tokens1 tokens2 : option Z) :
  is_usage_state (usage_file wd) = true ->
  (forall system_prompt msgs,
     backend env (length (requests wd)) system_prompt msgs = Completion text1 tokens1) ->
  _is_refusal text1 = true ->
  (forall system_prompt msgs,
     backend env (S (length (requests wd))) system_prompt msgs = Completion text2 tokens2) ->
  _is_refusal text2 = false ->
  let wd' := (generate_reply env wd name bio chat_history personality).2 in
  usage_total (usage_file wd')
  = (usage_total (usage_file wd) + tokens_of text1 tokens1 + tokens_of text2 tokens2)%Z
  /\ usage_of_model (usage_file wd') model_name
     = (usage_of_model (usage_file wd) model_name
        + tokens_of text1 tokens1 + tokens_of text2 tokens2)%Z.
Proof.
  intros Hstate Hb1 Hr1 Hb2 Hr2. cbn zeta.
  assert (Hw : usage_file (generate_reply env wd name bio chat_history personality).2
               = _track_usage
                   (_track_usage (usage_file wd) model_name (tokens_of text1 tokens1))
                   model_name (tokens_of text2 tokens2)).
  { destruct (render_personality env personality) as [sp Hsp].
    unfold generate_reply. rewrite Hsp. cbn [max_retries seq attempts].
    unfold attempt, _call_claude at 1.
    rewrite Hb1, is_refusal_strip, Hr1, render_flirty.
    unfold _call_claude. cbn [requests length]. rewrite Hb2, is_refusal_strip, Hr2.
    cbn [snd usage_file]. unfold tokens_of. by rewrite !split_strip. }
  rewrite Hw.
  pose proof (track_usage_state (usage_file wd) model_name
                (tokens_of text1 tokens1) Hstate) as Hst.
  rewrite !track_usage_total, !track_usage_model by done. lia.
Qed.

Lemma refused_completion_counted_witness :
  let env := mkEnv (fun n _ _ => match n with
                                 | 0 => Completion "I'm sorry, as an AI I cannot" None
                                 | _ => Completion " Hey *winks* how are you " (Some 6%Z)
                                 end)
                   (fun _ => 0) "January 01, 2026" "12:00" (fun _ _ => Raise) in
  usage_total
    (usage_file (generate_reply env (mkWorld [] Absent 0 []) "Ann" "" [] "default").2)
  = 13%Z.
Proof.
  intros env.
  destruct (refused_completion_counted env (mkWorld [] Absent 0 []) "Ann" "" []
              "default" "I'm sorry, as an AI I cannot" " Hey *winks* how are you "
              None (Some 6%Z)) as [Htotal _];
    [reflexivity | reflexivity | reflexivity | reflexivity | reflexivity |].
  exact Htotal.
Defined.

End InputMore.

(** ** More on the message pipeline *)

Section PipelineMore.
Import MessageHandler.
Context (sv : Services).
Implicit Types (cfg : Config) (h : t sv) (m : Match) (id : string).

(** All that one match does to the handler. *)
Lemma process_match_outcome cfg h m :
  let h1 := (process_match sv cfg h m).1 in
  let entry := (process_match sv cfg h m).2 in
  (h1 = h /\ entry = None
   /\ (msg_id_of m = None
       \/ exists id, msg_id_of m = Some id /\ id ∈ processed_messages h))
  \/ (exists id, msg_id_of m = Some id /\ (id ∉ processed_messages h)
      /\ ((exists g,
             generate_reply sv (generator h) (default "Unknown" (name m))
               (default "" (bio m)) (messages m) (personality cfg) = (Raise, g)
             /\ h1 = mk (processed_messages h) (chat_log_file h)
                        (auto_approved_file h) g (api_client h)
                        (events h ++ [Generate m (personality cfg)])
             /\ entry = None)
          \/ (exists reply g success a e,
                generate_reply sv (generator h) (default "Unknown" (name m))
                  (default "" (bio m)) (messages m) (personality cfg) = (Ok reply, g)
                /\ (if auto_approve cfg
                    then _send_reply sv cfg (length (events h)) (api_client h) (match_id m) reply = (success, a)
                    else success = false /\ a = api_client h)
                /\ entry = Some e
                /\ bot_reply e = reply /\ sent e = success
                /\ auto e = auto_approve cfg /\ log_match_id e = match_id m
                /\ log_personality e = personality cfg
                /\ log_timestamp e = now sv (length (chat_log_file h))
                /\ h1 = mk ({[id]} ∪ processed_messages h)
                           (chat_log_file h ++ [e])
                           (if success then auto_approved_file h ++ [e]
                            else auto_approved_file h)
                           g a
                           (events h
                            ++ (Generate m (personality cfg)
                                :: (if auto_approve cfg
                                    then [Send m reply success] else [])))))).
Proof.
  cbn zeta. destruct (msg_id_of m) as [id|] eqn:Hid.
  2: { left. rewrite process_match_no_inbound by done. split; [done |].
       split; [done | by left]. }
  destruct (decide (id ∈ processed_messages h)) as [Hin|Hnin].
  { left. rewrite (process_match_seen sv cfg h m id) by done. split; [done |].
    split; [done |]. right. by exists id. }
  right. exists id. split; [done |]. split; [done |].
  pose proof Hid as (newest & Hlast & ->)%msg_id_of_Some.
  unfold process_match. rewrite Hlast, decide_False by done.
  destruct (generate_reply sv (generator h) _ _ _ _) as [[reply|] g].
  - right. destruct (auto_approve cfg) eqn:Hauto.
    + destruct (_send_reply sv cfg (length (events h)) (api_client h) (match_id m) reply)
        as [success a] eqn:Hsend.
      exists reply, g, success, a. eexists. cbn.
      split; [reflexivity |]. split; [exact Hsend |].
      repeat (split; [reflexivity |]). by rewrite <- app_assoc.
    + exists reply, g, false, (api_client h). eexists. cbn.
      split; [done |]. split; [done |]. repeat (split; [reflexivity |]). done.
  - left. exists g. done.
Qed.

Lemma process_match_records cfg h m id :
  generator_returns sv -> msg_id_of m = Some id ->
  id ∈ processed_messages (process_match sv cfg h m).1.
Proof.
  intros Hgen Hid.
  destruct (process_match_outcome cfg h m)
    as [(-> & _ & [Hnone | (id' & Hid' & Hin)])
       | (id' & Hid' & Hnin & [(g & Hraise & _) | (reply & g & success & a & e & Hrest)])].
  - congruence.
  - congruence.
  - destruct (Hgen (generator h) (default "Unknown" (name m)) (default "" (bio m))
                (messages m) (personality cfg)) as [reply Hreply].
    rewrite Hraise in Hreply. done.
  - destruct Hrest as (_ & _ & _ & _ & _ & _ & _ & _ & _ & ->). cbn.
    apply elem_of_union_l, elem_of_singleton. congruence.
Qed.

Lemma process_matches_records cfg h matches m id :
  generator_returns sv -> m ∈ matches -> msg_id_of m = Some id ->
  id ∈ processed_messages (process_matches sv cfg h matches).1.
Proof.
  intros Hgen Hin Hid. revert h.
  induction matches as [|m' matches IH]; intros h; [by apply elem_of_nil in Hin |].
  cbn [process_matches].
  pose proof (process_match_records cfg h m' id Hgen) as Hrec.
  destruct (process_match sv cfg h m') as [h1 entry]. cbn [fst] in Hrec.
  apply elem_of_cons in Hin as [<- | Hin].
  - destruct (process_matches_effect sv cfg h1 matches) as (_ & _ & Hsub & _).
    destruct (process_matches sv cfg h1 matches) as [h2 processed].
    cbn [fst] in *. by apply Hsub, Hrec.
  - specialize (IH Hin h1).
    by destruct (process_matches sv cfg h1 matches) as [h2 processed].
Qed.

Lemma process_matches_all_seen cfg h matches :
  (forall m id, m ∈ matches -> msg_id_of m = Some id -> id ∈ processed_messages h) ->
  process_matches sv cfg h matches = (h, []).
Proof.
  induction matches as [|m matches IH]; intros Hseen; [done |].
  cbn [process_matches].
  assert (Hm : process_match sv cfg h m = (h, None)).
  { destruct (msg_id_of m) as [id|] eqn:Hid.
    - apply (process_match_seen sv cfg h m id Hid).
      apply (Hseen m); [apply list_elem_of_here | done].
    - by apply process_match_no_inbound. }
  rewrite Hm, IH; [done |].
  intros m' id Hin. apply Hseen. by apply list_elem_of_further.
Qed.

(** X15: when the generator returns for every match, a pass leaves nothing
    to do on the same list: a second pass over it changes nothing in the
    handler, calls neither the generator nor the sink and returns no log
    entry, whether the sends of the first pass succeeded or not and whether
    auto-approve was on or off. *)
Theorem second_pass_silent cfg cfg' h (matches : list Match) :
  generator_returns sv ->
  let h1 := (process_new_messages sv cfg h matches).1 in
  process_new_messages sv cfg' h1 matches = (h1, [])
  /\ pass_events sv cfg' h1 matches = [].
Proof.
  intros Hgen h1.
  assert (Hsilent : process_new_messages sv cfg' h1 matches = (h1, [])).
  { apply process_matches_all_seen. intros m id Hin Hid.
    by apply (process_matches_records cfg h matches m). }
  split; [done |]. unfold pass_events. rewrite Hsilent. cbn [fst].
  by rewrite drop_all.
Qed.

(** X16: with auto-approve off a pass never calls the sink and writes
    nothing to the auto-approved log, and every reply it drafts is logged
    as not sent and not automatic; the message is recorded all the same. *)
Theorem pending_replies_not_sent cfg h (matches : list Match) :
  auto_approve cfg = false ->
  let h1 := (process_new_messages sv cfg h matches).1 in
  let entries := (process_new_messages sv cfg h matches).2 in
  pass_sends sv cfg h matches = []
  /\ api_client h1 = api_client h
  /\ auto_approved_file h1 = auto_approved_file h
  /\ chat_log_file h1 = chat_log_file h ++ entries
  /\ Forall (fun e => sent e = false /\ auto e = false) entries.
Proof.
  intros Hauto. cbn zeta. unfold pass_sends, pass_events, process_new_messages.
  assert (Hgoal : exists new,
             events (process_matches sv cfg h matches).1 = events h ++ new
             /\ filter (fun e => is_send e = true) new = []
             /\ api_client (process_matches sv cfg h matches).1 = api_client h
             /\ auto_approved_file (process_matches sv cfg h matches).1
                = auto_approved_file h
             /\ chat_log_file (process_matches sv cfg h matches).1
                = chat_log_file h ++ (process_matches sv cfg h matches).2
             /\ Forall (fun e => sent e = false /\ auto e = false)
                  (process_matches sv cfg h matches).2).
  { revert h. induction matches as [|m matches IH]; intros h.
    - exists []. cbn. rewrite !app_nil_r. repeat split; done.
    - cbn [process_matches].
      pose proof (process_match_outcome cfg h m) as Hm. cbn zeta in Hm.
      destruct (process_match sv cfg h m) as [h1 entry]. cbn [fst snd] in Hm.
      destruct (IH h1) as (new2 & Hev2 & Hf2 & Ha2 & Hp2 & Hc2 & Hall2).
      destruct (process_matches sv cfg h1 matches) as [h2 entries].
      cbn [fst snd] in *.
      destruct Hm as [(-> & -> & _)
                     | (id & _ & _ & [(g & _ & -> & ->)
                                     | (reply & g & success & a & e & _ & Hsend & ->
                                        & _ & Hsent & Hautoe & _ & _ & _ & ->)])].
      + exists new2. cbn. repeat split; done.
      + exists (Generate m (personality cfg) :: new2). cbn in *.
        rewrite Hev2, <- app_assoc. repeat split; try done.
      + rewrite Hauto in *. destruct Hsend as [-> ->]. cbn in *.
        exists (Generate m (personality cfg) :: new2).
        rewrite Hev2, <- app_assoc. split; [done |]. split; [done |].
        split; [done |]. split; [done |].
        split; [by rewrite Hc2, <- app_assoc |]. by constructor. }
  destruct Hgoal as (new & Hev & Hf & Ha & Hp & Hc & Hall).
  rewrite Hev, drop_app_length. done.
Qed.

Lemma sent_ids_app evs evs' : sent_ids (evs ++ evs') = sent_ids evs ++ sent_ids evs'.
Proof. unfold sent_ids. apply omap_app. Qed.

Lemma process_match_sends_recorded cfg h m :
  sends_recorded h -> sends_recorded (process_match sv cfg h m).1.
Proof.
  intros [Hnd Hrec].
  destruct (process_match_outcome cfg h m)
    as [(-> & _ & _)
       | (id & Hid & Hnin & [(g & _ & -> & _)
                            | (reply & g & success & a & e & _ & _ & _ & _ & _ & _
                               & _ & _ & _ & ->)])].
  - done.
  - split; cbn; rewrite sent_ids_app; cbn; rewrite app_nil_r; done.
  - assert (Hfresh : id ∉ sent_ids (events h)) by (intros Hin; by apply Hnin, Hrec).
    destruct (auto_approve cfg); split; cbn; rewrite sent_ids_app; cbn;
      rewrite ?Hid; cbn; rewrite ?app_nil_r.
    + apply NoDup_app. split; [done |]. split; [| apply NoDup_singleton].
      intros x Hx ->%list_elem_of_singleton. done.
    + intros x [Hx | ->%list_elem_of_singleton]%elem_of_app.
      * apply elem_of_union_r. by apply Hrec.
      * apply elem_of_union_l. by apply elem_of_singleton.
    + done.
    + intros x Hx. apply elem_of_union_r. by apply Hrec.
Qed.

Lemma process_matches_sends_recorded cfg h matches :
  sends_recorded h -> sends_recorded (process_matches sv cfg h matches).1.
Proof.
  revert h. induction matches as [|m matches IH]; intros h Hh; [done |].
  cbn [process_matches].
  pose proof (process_match_sends_recorded cfg h m Hh) as H1.
  destruct (process_match sv cfg h m) as [h1 entry]. cbn [fst] in H1.
  specialize (IH h1 H1).
  by destruct (process_matches sv cfg h1 matches) as [h2 entries].
Qed.

Lemma unmatched_no_messages count matches m :
  m ∈ unmatched count matches -> messages m = [].
Proof.
  unfold unmatched, py_take. intros Hin.
  assert (Hf : m ∈ filter (fun m => messages m = []) matches).
  { destruct (0 <=? count)%Z; by eapply subseteq_take. }
  by apply list_elem_of_filter in Hf as [? _].
Qed.

Lemma msg_id_of_no_messages m : messages m = [] -> msg_id_of m = None.
Proof. intros Hm. unfold msg_id_of, last_user_msg. by rewrite Hm. Qed.

Lemma unmatched_step_eq generate_opener cfg h sent failed m :
  unmatched_step sv generate_opener cfg (h, (sent, failed)) m
  = match generate_opener (generator h) (default "Unknown" (name m))
            (default "" (bio m)) (personality cfg) with
    | (Raise, g) =>
        (mk (processed_messages h) (chat_log_file h) (auto_approved_file h)
            g (api_client h) (events h ++ [Generate m (personality cfg)]),
         (sent, S failed))
    | (Ok opener, g) =>
        let '(success, a) := _send_reply sv cfg (length (events h)) (api_client h) (match_id m) opener in
        (mk (processed_messages h) (chat_log_file h) (auto_approved_file h)
            g a ((events h ++ [Generate m (personality cfg)])
                 ++ [Send m opener success]),
         if success then (S sent, failed) else (sent, S failed))
    end.
Proof. reflexivity. Qed.

(** What a round of openers does, on the matches it writes to. *)
Lemma unmatched_fold generate_opener cfg ms h sent failed :
  (forall m, m ∈ ms -> messages m = []) ->
  let r := foldl (unmatched_step sv generate_opener cfg) (h, (sent, failed)) ms in
  processed_messages r.1 = processed_messages h
  /\ chat_log_file r.1 = chat_log_file h
  /\ auto_approved_file r.1 = auto_approved_file h
  /\ r.2.1 + r.2.2 = sent + failed + length ms
  /\ (exists new, events r.1 = events h ++ new
                  /\ sent_ids new = []
                  /\ Forall (fun e => event_match e ∈ ms) new)
  /\ sent <= r.2.1.
Proof.
  revert h sent failed. induction ms as [|m ms IH]; intros h sent failed Hms.
  - cbn. split; [done |]. split; [done |]. split; [done |]. split; [lia |].
    split; [| lia]. exists []. rewrite app_nil_r.
    split; [done |]. split; [done | constructor].
  - cbn [foldl]. cbn zeta.
    assert (Hm : msg_id_of m = None).
    { apply msg_id_of_no_messages, Hms, list_elem_of_here. }
    assert (Hms' : forall m', m' ∈ ms -> messages m' = []).
    { intros m' Hin. apply Hms. by apply list_elem_of_further. }
    assert (Hmono : forall new : list Event,
               Forall (fun e => event_match e ∈ ms) new ->
               Forall (fun e => event_match e ∈ m :: ms) new).
    { intros new Hall. eapply Forall_impl; [exact Hall |]. intros e He.
      by apply list_elem_of_further. }
    rewrite unmatched_step_eq.
    destruct (generate_opener (generator h) _ _ _) as [[opener|] g].
    + destruct (_send_reply sv cfg (length (events h)) (api_client h) (match_id m) opener) as [success a].
      match goal with
      | |- context [foldl _ (?h', (?s', ?f')) ms] =>
          destruct (IH h' s' f' Hms')
            as (H1 & H2 & H3 & H4 & (new & Hev & Hids & Hall) & Hle)
      | |- context [foldl _ (?h', ?c) ms] =>
          destruct success;
          match goal with
          | |- context [foldl _ (?h', (?s', ?f')) ms] =>
              destruct (IH h' s' f' Hms')
                as (H1 & H2 & H3 & H4 & (new & Hev & Hids & Hall) & Hle)
          end
      end;
        cbn [processed_messages chat_log_file auto_approved_file events] in *;
        (split; [done |]; split; [done |]; split; [done |]; split; [cbn [length]; lia |];
         split; [| lia]).
      * exists (Generate m (personality cfg) :: Send m opener true :: new).
        rewrite Hev, <- !app_assoc. split; [done |]. split.
        { cbn. by rewrite Hm. }
        constructor; [apply list_elem_of_here |].
        constructor; [apply list_elem_of_here |]. by apply Hmono.
      * exists (Generate m (personality cfg) :: Send m opener false :: new).
        rewrite Hev, <- !app_assoc. split; [done |]. split.
        { cbn. by rewrite Hm. }
        constructor; [apply list_elem_of_here |].
        constructor; [apply list_elem_of_here |]. by apply Hmono.
    + destruct (IH (mk (processed_messages h) (chat_log_file h)
                       (auto_approved_file h) g (api_client h)
                       (events h ++ [Generate m (personality cfg)]))
                  sent (S failed) Hms')
        as (H1 & H2 & H3 & H4 & (new & Hev & Hids & Hall) & Hle).
      cbn [processed_messages chat_log_file auto_approved_file events] in *.
      split; [done |]. split; [done |]. split; [done |]. split; [cbn [length]; lia |].
      split; [| lia].
      exists (Generate m (personality cfg) :: new).
      rewrite Hev, <- !app_assoc. split; [done |]. split; [done |].
      constructor; [apply list_elem_of_here |]. by apply Hmono.
Qed.

Lemma send_to_unmatched_sends_recorded generate_opener cfg h count matches :
  sends_recorded h ->
  sends_recorded (send_to_unmatched sv generate_opener cfg h count matches).1.
Proof.
  intros [Hnd Hrec]. unfold send_to_unmatched. destruct matches as [matches|]; [| done].
  destruct (unmatched_fold generate_opener cfg (unmatched count matches) h 0 0
              (unmatched_no_messages count matches))
    as (Hp & _ & _ & _ & (new & Hev & Hids & _) & _).
  unfold sends_recorded. rewrite Hev, Hp, sent_ids_app, Hids, app_nil_r. done.
Qed.

(** X17: over the life of a handler the sink is called at most once for
    each message: the ids of the messages sends were attempted for, through
    any number of passes and rounds of openers under any configuration, are
    all different, and each of them is recorded as processed. *)
Theorem one_send_per_message h :
  handler_reachable sv h ->
  NoDup (sent_ids (events h))
  /\ (forall id, id ∈ sent_ids (events h) -> id ∈ processed_messages h).
Proof.
  induction 1 as [chat_log auto_approved g a | h cfg matches _ IH
                 | h generate_opener cfg count matches _ IH].
  - split; [constructor |]. intros id []%elem_of_nil.
  - by apply process_matches_sends_recorded.
  - by apply send_to_unmatched_sends_recorded.
Qed.

(** X18: an exception of the generator leaves the match for the next pass:
    nothing is recorded, logged or sent for it, and the next time the loop
    reaches the match the generator is called for it again. *)
Theorem generator_failure_retried cfg cfg' h (m : Match) (id : string) (g : Gen sv) :
  msg_id_of m = Some id ->
  id ∉ processed_messages h ->
  generate_reply sv (generator h) (default "Unknown" (name m))
    (default "" (bio m)) (messages m) (personality cfg) = (Raise, g) ->
  let h1 := (process_match sv cfg h m).1 in
  (process_match sv cfg h m).2 = None
  /\ step_events sv cfg h m = [Generate m (personality cfg)]
  /\ processed_messages h1 = processed_messages h
  /\ chat_log_file h1 = chat_log_file h
  /\ auto_approved_file h1 = auto_approved_file h
  /\ api_client h1 = api_client h
  /\ Generate m (personality cfg') ∈ step_events sv cfg' h1 m.
Proof.
  intros Hid Hnin Hraise. cbn zeta.
  pose proof Hid as (newest & Hlast & ->)%msg_id_of_Some.
  assert (Hstep : process_match sv cfg h m
                  = (mk (processed_messages h) (chat_log_file h) (auto_approved_file h)
                        g (api_client h) (events h ++ [Generate m (personality cfg)]),
                     None)).
  { unfold process_match. by rewrite Hlast, decide_False, Hraise. }
  rewrite Hstep. cbn [fst snd].
  split; [done |]. split.
  { apply step_events_spec. by rewrite Hstep. }
  repeat (split; [done |]).
  destruct (process_match_generates sv cfg'
              (mk (processed_messages h) (chat_log_file h) (auto_approved_file h)
                  g (api_client h) (events h ++ [Generate m (personality cfg)]))
              m _ Hid Hnin) as [rest Hrest].
  rewrite (step_events_spec sv cfg' _ m _ Hrest). apply list_elem_of_here.
Qed.

(** X19: a round of openers writes to the first [count] matches that have
    no message at all, and to no other.  Its counters [sent] and [failed]
    add up to their number; it records nothing:
    the processed set and the two logs are as before, so that a second
    round on the same matches writes to the same ones again. *)
Theorem send_to_unmatched_counts generate_opener cfg h (count : Z)
    (matches : list Match) :
  let r := send_to_unmatched sv generate_opener cfg h count (Ok matches) in
  r.2.1 + r.2.2 = length (unmatched count matches)
  /\ ((0 <= count)%Z ->
      length (unmatched count matches)
      = Z.to_nat count `min` length (filter (fun m => messages m = []) matches))
  /\ processed_messages r.1 = processed_messages h
  /\ chat_log_file r.1 = chat_log_file h
  /\ auto_approved_file r.1 = auto_approved_file h
  /\ unmatched count matches
     = py_take count (filter (fun m => messages m = []) matches)
  /\ (forall e, e ∈ drop (length (events h)) (events r.1) ->
                event_match e ∈ unmatched count matches
                /\ messages (event_match e) = []).
Proof.
  cbn zeta. unfold send_to_unmatched.
  destruct (unmatched_fold generate_opener cfg (unmatched count matches) h 0 0
              (unmatched_no_messages count matches))
    as (Hp & Hc & Ha & Hsum & (new & Hev & _ & Hall) & _).
  split; [by rewrite Hsum |]. split.
  { intros Hcount. unfold unmatched, py_take.
    assert ((0 <=? count)%Z = true) as -> by lia. rewrite length_take. lia. }
  repeat (split; [done |]).
  intros e. rewrite Hev, drop_app_length. intros He.
  rewrite Forall_forall in Hall. split; [by apply Hall |].
  eapply unmatched_no_messages. by apply Hall.
Qed.

(** X20: the entries a pass returns are the lines it appends to the chat
    log, in order; those of them that were sent are the lines it appends
    to the auto-approved log; and an entry is marked sent only under
    auto-approve. *)
Theorem pass_log_entries cfg h (matches : list Match) :
  let h1 := (process_new_messages sv cfg h matches).1 in
  let entries := (process_new_messages sv cfg h matches).2 in
  chat_log_file h1 = chat_log_file h ++ entries
  /\ auto_approved_file h1
     = auto_approved_file h ++ filter (fun e => sent e = true) entries
  /\ Forall (fun e => auto e = auto_approve cfg
                      /\ log_personality e = personality cfg
                      /\ (sent e = true -> auto_approve cfg = true)) entries.
Proof.
  cbn zeta. unfold process_new_messages. revert h.
  induction matches as [|m matches IH]; intros h.
  - cbn. by rewrite !app_nil_r.
  - cbn [process_matches].
    pose proof (process_match_outcome cfg h m) as Hm. cbn zeta in Hm.
    destruct (process_match sv cfg h m) as [h1 entry]. cbn [fst snd] in Hm.
    destruct (IH h1) as (Hc2 & Ha2 & Hall2).
    destruct (process_matches sv cfg h1 matches) as [h2 entries].
    cbn [fst snd] in *.
    destruct Hm as [(-> & -> & _)
                   | (id & _ & _ & [(g & _ & -> & ->)
                                   | (reply & g & success & a & e & _ & Hsend & ->
                                      & _ & Hsent & Hautoe & _ & Hpers & _ & ->)])].
    + done.
    + done.
    + cbn in *. rewrite Hc2, Ha2, <- !app_assoc. split; [done |]. split.
      * rewrite Hsent. destruct success.
        -- rewrite decide_True by done. by rewrite <- app_assoc.
        -- rewrite decide_False by congruence. done.
      * constructor; [| done]. split; [done |]. split; [done |].
        rewrite Hsent. intros ->. destruct (auto_approve cfg); [done |].
        by destruct Hsend.
Qed.

(** X21: the processed set is rebuilt from the chat log under the time of
    logging, not under the timestamp of the message.  A handler created on
    the chat log that a pass over one conversation left does not hold the
    id of the message that pass recorded, unless the clock read the very
    timestamp of the message, and its next pass calls the generator for the
    conversation again. *)
Theorem restart_forgets_processed cfg cfg' (g : Gen sv) (a : Api sv)
    (c1 : Match) (newest : Message) (C1 T1 : string) :
  generator_returns sv ->
  match_id c1 = Some C1 ->
  last_user_msg c1 = Some newest ->
  timestamp newest = Some T1 ->
  now sv 0 <> T1 ->
  let h1 := (process_new_messages sv cfg (init sv [] [] g a) [c1]).1 in
  let h2 := init sv (chat_log_file h1) (auto_approved_file h1)
                 (generator h1) (api_client h1) in
  C1 +:+ "_" +:+ T1 ∈ processed_messages h1
  /\ processed_messages h2 = {[ C1 +:+ "_" +:+ now sv 0 ]}
  /\ (C1 +:+ "_" +:+ T1 ∉ processed_messages h2)
  /\ Generate c1 (personality cfg') ∈ pass_events sv cfg' h2 [c1].
Proof.
  intros Hgen Hc1 Hlast Hts Hnow. cbn zeta.
  assert (Hid : msg_id_of c1 = Some (C1 +:+ "_" +:+ T1)).
  { apply msg_id_of_Some. exists newest. split; [done |].
    unfold make_msg_id. by rewrite Hc1, Hts. }
  unfold process_new_messages. cbn [process_matches].
  pose proof (process_match_outcome cfg (init sv [] [] g a) c1) as Hm.
  cbn zeta in Hm.
  destruct (process_match sv cfg (init sv [] [] g a) c1) as [h1 entry].
  cbn [fst snd] in *.
  destruct Hm as [(_ & _ & [Hnone | (id & Hid' & Hin)])
                 | (id & Hid' & _ & [(g' & Hraise & _)
                                    | (reply & g' & success & a' & e & _ & _ & _
                                       & _ & _ & _ & Hmid & _ & Hlts & ->)])].
  - congruence.
  - by apply not_elem_of_empty in Hin.
  - destruct (Hgen (generator (init sv [] [] g a)) (default "Unknown" (name c1))
                (default "" (bio c1)) (messages c1) (personality cfg)) as [r Hr].
    rewrite Hraise in Hr. done.
  - assert (id = C1 +:+ "_" +:+ T1) as -> by congruence.
    cbn [processed_messages chat_log_file auto_approved_file generator api_client
         init app] in *.
    assert (Hp2 : _load_processed_messages [e] = {[ C1 +:+ "_" +:+ now sv 0 ]}).
    { unfold _load_processed_messages. cbn. rewrite Hmid, Hlts, Hc1. cbn.
      unfold make_msg_id. cbn. apply (right_id_L ∅ (∪)). }
    assert (Hnin : C1 +:+ "_" +:+ T1 ∉ _load_processed_messages [e]).
    { rewrite Hp2. intros Heq%elem_of_singleton.
      apply (inj (String.app C1)) in Heq. apply (inj (String.app "_")) in Heq.
      congruence. }
    split; [apply elem_of_union_l; by apply elem_of_singleton |].
    split; [done |]. split; [done |].
    destruct (process_match_generates sv cfg'
                (mk (_load_processed_messages [e]) [e]
                    (if success then [e] else []) g' a' [])
                c1 _ Hid Hnin) as [rest Hrest].
    unfold pass_events, process_new_messages. cbn [process_matches].
    destruct (process_match sv cfg' _ c1) as [h3 entry3]. cbn [fst events] in *.
    rewrite Hrest. cbn. apply list_elem_of_here.
Qed.

End PipelineMore.

Section PipelineMoreExamples.
Import MessageHandler.

Lemma pending_replies_not_sent_witness :
  let env := steady_env "Hey there" in
  let sv := completion_services env true in
  let cfg := mkConfig "default" false (Some (3 # 1)%Q) in
  pass_sends sv cfg (fresh_handler env true) [match_C1] = []
  /\ processed_messages
       (process_new_messages sv cfg (fresh_handler env true) [match_C1]).1
     = {[ "C1_T1" ]} ∪ ∅.
Proof.
  intros env sv cfg. split; [| reflexivity].
  apply (pending_replies_not_sent sv cfg (fresh_handler env true) [match_C1]).
  reflexivity.
Defined.


Lemma second_pass_silent_witness :
  let env := steady_env "Hey there" in
  let sv := completion_services env false in
  let h1 := (process_new_messages sv auto_config (fresh_handler env false)
               [match_C1; match_C1]).1 in
  generator_returns sv
  /\ process_new_messages sv auto_config h1 [match_C1; match_C1] = (h1, []).
Proof.
  intros env sv h1.
  split; [apply completion_generator_returns |].
  apply (second_pass_silent sv auto_config auto_config (fresh_handler env false)
           [match_C1; match_C1]).
  apply completion_generator_returns.
Defined.

Lemma one_send_per_message_witness :
  let env := steady_env "Hey there" in
  let sv := completion_services env false in
  let h2 := (process_new_messages sv auto_config
               (process_new_messages sv auto_config (fresh_handler env false)
                  [match_C1]).1 [match_C1]).1 in
  handler_reachable sv h2 /\ NoDup (sent_ids (events h2)).
Proof.
  intros env sv h2.
  assert (Hr : handler_reachable sv h2).
  { apply hreach_pass, hreach_pass, hreach_init. }
  split; [exact Hr |]. apply (one_send_per_message sv h2 Hr).
Defined.

Lemma generator_failure_retried_witness :
  (process_match flaky_services auto_config flaky_handler match_C1).2 = None
  /\ processed_messages
       (process_match flaky_services auto_config flaky_handler match_C1).1 = ∅
  /\ (process_match flaky_services auto_config
        (process_match flaky_services auto_config flaky_handler match_C1).1
        match_C1).2 <> None.
Proof.
  destruct (generator_failure_retried flaky_services auto_config auto_config
              flaky_handler match_C1 "C1_T1" 1)
    as (Hnone & _ & Hproc & _); [reflexivity | apply not_elem_of_empty | reflexivity |].
  split; [exact Hnone |]. split; [exact Hproc |]. vm_compute. discriminate.
Defined.

Lemma restart_forgets_processed_witness :
  let env := steady_env "Hey there" in
  let sv := completion_services env true in
  let h1 := (process_new_messages sv auto_config (fresh_handler env true)
               [match_C1]).1 in
  let h2 := init sv (chat_log_file h1) (auto_approved_file h1)
                 (generator h1) (api_client h1) in
  "C1_T1" ∈ processed_messages h1 /\ "C1_T1" ∉ processed_messages h2.
Proof.
  intros env sv.
  destruct (restart_forgets_processed sv auto_config auto_config
              (MessageGenerator.mkWorld [] MessageGenerator.Absent 0 []) tt
              match_C1 (mkMessage (Some "user") (Some "hey!") (Some "T1")) "C1" "T1")
    as (Hin & _ & Hnin & _).
  - apply completion_generator_returns.
  - reflexivity.
  - reflexivity.
  - reflexivity.
  - discriminate.
  - split; [exact Hin | exact Hnin].
Defined.

End PipelineMoreExamples.

(** ** The template generator *)

Section TemplateFacts.
Import PyStr TemplateGenerator.
Implicit Types (env : Env) (draws : nat).

Lemma random_choice_in env draws (l : list string) :
  l <> [] ->
  exists x, random_choice env draws l = (Ok x, S draws) /\ x ∈ l.
Proof.
  intros Hne. unfold random_choice.
  destruct (l !! (choice env draws mod length l)) as [x|] eqn:Hx.
  - exists x. split; [done |]. by apply list_elem_of_lookup_2 in Hx.
  - apply lookup_ge_None in Hx.
    pose proof (Nat.mod_upper_bound (choice env draws) (length l)) as Hb.
    destruct l; [done |]. cbn [length] in *. lia.
Qed.

Lemma random_choice_empty env draws : random_choice env draws [] = (Raise, S draws).
Proof. reflexivity. Qed.

(** The responses of every personality, for every name and message: the
    list is not empty and holds no empty reply. *)
Lemma personalities_responses personality name last_msg :
  personalities personality name last_msg <> []
  /\ forall r, r ∈ personalities personality name last_msg -> r <> "".
Proof.
  unfold personalities.
  repeat match goal with
         | |- context [String.eqb personality ?k] => destruct (String.eqb personality k)
         end;
    unfold _default_personality, _flirty_personality, _funny_personality,
      _gentle_personality, _intellectual_personality;
    repeat match goal with
           | |- context [if ?b then _ else _] => destruct b
           end;
    (split; [done |]);
    intros r; rewrite ?elem_of_cons, elem_of_nil;
    intros Hr; repeat (destruct Hr as [-> | Hr]); done.
Qed.

Lemma template_reply_total env draws (name bio : string)
    (chat_history : list Message) (personality : string) :
  exists reply,
    generate_reply env draws name bio chat_history personality = (Ok reply, S draws).
Proof.
  unfold generate_reply.
  destruct (personalities_responses personality name
              (first_user_content (rev chat_history))) as [Hne _].
  destruct (random_choice_in env draws _ Hne) as (reply & Heq & _).
  by exists reply.
Qed.

(** X22: the template generator never raises and never returns an empty
    reply: whatever the name, the history and the personality, the list it
    draws from is not empty, the reply is one of its members and one draw
    is made. *)
Theorem template_reply_returns env draws (name bio : string)
    (chat_history : list Message) (personality : string) :
  exists reply,
    generate_reply env draws name bio chat_history personality = (Ok reply, S draws)
    /\ reply <> ""
    /\ reply ∈ personalities personality name
                 (first_user_content (rev chat_history)).
Proof.
  unfold generate_reply.
  destruct (personalities_responses personality name
              (first_user_content (rev chat_history))) as [Hne Hall].
  destruct (random_choice_in env draws _ Hne) as (reply & Heq & Hin).
  exists reply. split; [done |]. split; [by apply Hall | done].
Qed.

Lemma first_user_content_rev (history : list Message) :
  first_user_content (rev history)
  = default "" (m ← latest_inbound history; content m).
Proof.
  unfold latest_inbound.
  induction history as [|m history IH] using rev_ind; [done |].
  rewrite rev_unit. cbn [first_user_content]. rewrite filter_app, filter_cons, filter_nil.
  destruct (decide (role m = Some "user")) as [Hu|Hu].
  - by rewrite last_snoc.
  - by rewrite app_nil_r.
Qed.

(** X23: the reply of the template generator depends on the conversation
    only through its newest inbound message: two histories with the same
    newest inbound message, whatever else they hold and whatever the bio,
    get the same reply from the same draw; and for a personality other
    than the default one, two messages that both hold a question mark, or
    both hold none, get the same reply. *)
Theorem template_reply_by_newest_inbound env draws (name bio bio' : string)
    (history history' : list Message) (personality : string) :
  latest_inbound history = latest_inbound history' ->
  generate_reply env draws name bio history personality
  = generate_reply env draws name bio' history' personality
  /\ forall last_msg last_msg',
      personality ∈ ["flirty"; "funny"; "gentle"; "intellectual"] ->
      contains "?" last_msg = contains "?" last_msg' ->
      personalities personality name last_msg
      = personalities personality name last_msg'.
Proof.
  intros Hlast. split.
  - unfold generate_reply. by rewrite !first_user_content_rev, Hlast.
  - intros last_msg last_msg'. rewrite !elem_of_cons, elem_of_nil.
    intros [-> | [-> | [-> | [-> | []]]]] Hq; cbn;
      unfold _flirty_personality, _funny_personality, _gentle_personality,
        _intellectual_personality; by rewrite Hq.
Qed.

Lemma template_reply_by_newest_inbound_witness :
  let asked := mkMessage (Some "user") (Some "so what do you do?") (Some "T2") in
  let history := [mkMessage (Some "user") (Some "hey") (Some "T1"); asked;
                  mkMessage (Some "assistant") (Some "guess") (Some "T3")] in
  latest_inbound history = latest_inbound [asked]
  /\ generate_reply (mkEnv (fun _ => 1)) 0 "Ann" "likes cats" history "default"
     = generate_reply (mkEnv (fun _ => 1)) 0 "Ann" "" [asked] "default".
Proof.
  intros asked history. split; [reflexivity |].
  apply (template_reply_by_newest_inbound (mkEnv (fun _ => 1)) 0 "Ann"
           "likes cats" "" history [asked] "default").
  reflexivity.
Defined.

Lemma default_openers_spec name bio r :
  r ∈ default_openers name bio -> contains name r = true.
Proof.
  unfold default_openers.
  repeat match goal with
         | |- context [if ?b then _ else _] => destruct b
         end;
    cbn [app]; rewrite ?elem_of_cons, elem_of_nil;
    intros Hr; repeat (destruct Hr as [-> | Hr]); try done; apply contains_middle.
Qed.

Lemma openers_spec name bio personality :
  openers name bio personality <> []
  /\ forall r, r ∈ openers name bio personality -> contains name r = true.
Proof.
  unfold openers.
  repeat match goal with
         | |- context [String.eqb personality ?k] => destruct (String.eqb personality k)
         end;
    (split; [by unfold default_openers |]);
    try apply default_openers_spec;
    intros r; rewrite ?elem_of_cons, elem_of_nil;
    intros Hr; repeat (destruct Hr as [-> | Hr]); try done; apply contains_middle.
Qed.

(** X24: the opener generator never raises, and the opener it returns
    contains the name.  For the flirty, funny and gentle personalities the
    opener does not depend on the bio; every other personality, known or
    not, draws from the default openers, to which the bio adds one opener
    for each of coffee, travel and a pet that it mentions. *)
Theorem template_opener_returns env draws (name bio personality : string) :
  (exists opener,
     generate_opener env draws name bio personality = (Ok opener, S draws)
     /\ contains name opener = true)
  /\ (personality ∈ ["flirty"; "funny"; "gentle"] ->
      forall bio', openers name bio personality = openers name bio' personality)
  /\ (personality ∉ ["flirty"; "funny"; "gentle"] ->
      openers name bio personality = default_openers name bio)
  /\ 3 <= length (default_openers name bio) <= 6.
Proof.
  split; [| split; [| split]].
  - destruct (openers_spec name bio personality) as [Hne Hall].
    destruct (random_choice_in env draws _ Hne) as (opener & Heq & Hin).
    exists opener. split; [done | by apply Hall].
  - rewrite !elem_of_cons, elem_of_nil. by intros [-> | [-> | [-> | []]]] bio'.
  - rewrite !elem_of_cons, elem_of_nil. intros Hnot. unfold openers.
    destruct (String.eqb personality "default"); [done |].
    destruct (String.eqb_spec personality "flirty") as [-> | _]; [tauto |].
    destruct (String.eqb_spec personality "funny") as [-> | _]; [tauto |].
    destruct (String.eqb_spec personality "gentle") as [-> | _]; [tauto | done].
  - unfold default_openers. rewrite !length_app.
    repeat match goal with
           | |- context [if ?b then _ else _] => destruct b
           end; cbn; lia.
Qed.

Lemma template_generator_returns env delivered :
  generator_returns (template_services env delivered).
Proof.
  intros draws name bio history personality. cbn.
  destruct (template_reply_total env draws name bio history personality)
    as (reply & Heq). exists reply. by rewrite Heq.
Qed.

End TemplateFacts.

(** ** The system prompt of each personality *)

Section PromptFacts.
Import PyStr MessageGenerator.

(** X25: the system prompt posted for a personality.  For the profiles of
    the table that only carry a modifier (flirty, funny, gentle, dominant,
    casual) it is the empty string: the modifier is never sent.  For every
    other name, in the table or not, it is the default template with the
    time and the date put in its last line. *)
Theorem system_prompt_of_personality (env : Env) (personality : string) :
  let rendered p :=
    _render_time_aware_prompt env
      (prompt_or_profile (default default_profile (personality_get PERSONALITIES p))) in
  let body := String.substring 0 (String.length default_system_prompt - 33)
                default_system_prompt in
  (personality ∈ ["flirty"; "funny"; "gentle"; "dominant"; "casual"] ->
   rendered personality = Ok "")
  /\ (personality ∉ ["flirty"; "funny"; "gentle"; "dominant"; "casual"] ->
      rendered personality = rendered "default")
  /\ default_system_prompt = body +:+ "{current_time} on {current_date}."
  /\ rendered "default"
     = Ok (body +:+ current_time env +:+ " on " +:+ current_date env +:+ ".").
Proof.
  cbn zeta. split; [| split; [| split]].
  - rewrite !elem_of_cons, elem_of_nil.
    by intros [-> | [-> | [-> | [-> | [-> | []]]]]].
  - rewrite !elem_of_cons, elem_of_nil. intros Hnot.
    unfold PERSONALITIES. cbn [personality_get].
    destruct (String.eqb "default" personality); [done |].
    destruct (String.eqb_spec "flirty" personality) as [<- | _]; [tauto |].
    destruct (String.eqb_spec "funny" personality) as [<- | _]; [tauto |].
    destruct (String.eqb_spec "gentle" personality) as [<- | _]; [tauto |].
    destruct (String.eqb_spec "dominant" personality) as [<- | _]; [tauto |].
    destruct (String.eqb_spec "casual" personality) as [<- | _]; [tauto | done].
  - vm_compute. reflexivity.
  - vm_compute. reflexivity.
Qed.

End PromptFacts.
